(** * VibeWorker orchestration core: a shallow embedding

    The development follows the Python sources:
    - [backend/plan_approval.py]        (module [PlanApproval])
    - [backend/engine/graph_builder.py] (module [GraphBuilder])
    - [backend/graph/agent.py]          (module [Agent])

    Python module globals become fields of an explicit state record, a
    Python call becomes a computation in a small state-and-exception
    monad, and objects whose identity matters ([asyncio.Event], compiled
    graphs) are named by their allocation number. *)

From Stdlib Require Import ZArith List Bool Ascii String Lia DecimalString DecimalZ
  DecimalPos OrderedTypeEx Permutation.
From stdpp Require Import gmap strings list sorting.

Open Scope string_scope.
Open Scope list_scope.

Set Warnings "-register-all".

(** ** Python calls: state passing with exceptions *)

(** A raised Python exception.  [except Exception] catches the first
    kind only; [BaseException]s that are not [Exception]s (task
    cancellation, keyboard interrupt) pass through such a handler. *)
Inductive exn : Type :=
  | Exception (cls : string)
  | BaseExceptionOnly (cls : string).

Inductive result (A : Type) : Type :=
  | Ok (a : A)
  | Raise (e : exn).
Arguments Ok {A} a.
Arguments Raise {A} e.

Definition Py (S A : Type) : Type := S -> result A * S.

Definition ret {S A} (a : A) : Py S A := fun s => (Ok a, s).

Definition bind {S A B} (m : Py S A) (k : A -> Py S B) : Py S B :=
  fun s => match m s with
           | (Ok a, s') => k a s'
           | (Raise e, s') => (Raise e, s')
           end.

Definition get_state {S} : Py S S := fun s => (Ok s, s).
Definition put_state {S} (s : S) : Py S unit := fun _ => (Ok tt, s).
Definition modify {S} (f : S -> S) : Py S unit := fun s => (Ok tt, f s).

Notation "x <- m ;; k" := (bind m (fun x => k))
  (at level 100, m at next level, right associativity).
Notation "m ;;; k" := (bind m (fun _ => k))
  (at level 100, right associativity).

Definition is_ok {A} (r : result A) : bool :=
  match r with Ok _ => true | Raise _ => false end.

(** ** [plan_approval.py]: the approval gate *)

Module PlanApproval.

(** An [asyncio.Event] is named by its allocation number; [ev_flags]
    holds the internal flag of every event created so far (a waiter
    blocked in [evt.wait()] proceeds exactly when the flag is set). *)
Record registry : Type := mkRegistry {
  _plan_approval_events  : gmap string nat;
  _plan_approval_results : gmap string bool;
  ev_flags : gmap nat bool;
  ev_next  : nat
}.

Definition empty_registry : registry :=
  mkRegistry (∅ : gmap string nat) (∅ : gmap string bool) (∅ : gmap nat bool) 0.

(** [asyncio.Event()] *)
Definition new_event : Py registry nat :=
  fun r =>
    (Ok (ev_next r),
     mkRegistry (_plan_approval_events r) (_plan_approval_results r)
                (<[ev_next r := false]> (ev_flags r)) (S (ev_next r))).

(** [evt.set()] *)
Definition event_set (evt : nat) : Py registry unit :=
  modify (fun r =>
    mkRegistry (_plan_approval_events r) (_plan_approval_results r)
               (<[evt := true]> (ev_flags r)) (ev_next r)).

Definition is_set (evt : nat) (r : registry) : bool :=
  match ev_flags r !! evt with Some b => b | None => false end.

(** [def register_plan_approval(plan_id)]: creates the event and
    stores it under [plan_id], whatever was stored there before. *)
Definition register_plan_approval (plan_id : string) : Py registry nat :=
  evt <- new_event ;;
  modify (fun r =>
    mkRegistry (<[plan_id := evt]> (_plan_approval_events r))
               (_plan_approval_results r) (ev_flags r) (ev_next r)) ;;;
  ret evt.

(** [_plan_approval_events.pop(plan_id, None)] *)
Definition events_pop (plan_id : string) : Py registry (option nat) :=
  fun r =>
    (Ok (_plan_approval_events r !! plan_id),
     mkRegistry (delete plan_id (_plan_approval_events r))
                (_plan_approval_results r) (ev_flags r) (ev_next r)).

(** [def resolve_plan_approval(plan_id, approved)] *)
Definition resolve_plan_approval (plan_id : string) (approved : bool)
  : Py registry bool :=
  evt <- events_pop plan_id ;;
  match evt with
  | None => ret false
  | Some e =>
      modify (fun r =>
        mkRegistry (_plan_approval_events r)
                   (<[plan_id := approved]> (_plan_approval_results r))
                   (ev_flags r) (ev_next r)) ;;;
      event_set e ;;;
      ret true
  end.

(** [def get_plan_approval_result(plan_id)]:
    [_plan_approval_results.pop(plan_id, True)] *)
Definition get_plan_approval_result (plan_id : string) : Py registry bool :=
  fun r =>
    (Ok (default true (_plan_approval_results r !! plan_id)),
     mkRegistry (_plan_approval_events r)
                (delete plan_id (_plan_approval_results r))
                (ev_flags r) (ev_next r)).

(** [plan_id] has a registered, not yet resolved approval. *)
Definition pending (plan_id : string) (r : registry) : Prop :=
  is_Some (_plan_approval_events r !! plan_id).

(** The event a pending [plan_id] is waiting on. *)
Definition waiter (plan_id : string) (r : registry) : option nat :=
  _plan_approval_events r !! plan_id.

(** The registry after [register_plan_approval "p1"] on the empty one. *)
Definition one_pending : registry :=
  snd (register_plan_approval "p1" empty_registry).

(** The reading of C2 in the specification: registering a [plan_id]
    that is pending ends in an exception. *)
Definition register_rejects_duplicate : Prop :=
  forall plan_id r,
    pending plan_id r ->
    exists e r', register_plan_approval plan_id r = (Raise e, r').

End PlanApproval.

(** ** Python values read from the YAML configuration *)

Module PyVal.

(** A configuration is a nested [dict] with string keys, as the YAML
    loader produces it: [None], booleans, integers, strings, lists and
    dicts (floats are left out).  A [dict] keeps its items in insertion
    order; its keys are pairwise distinct ([wf]).  A [str] is a sequence
    of code points below 256, one [ascii] each. *)
Inductive pyval : Type :=
  | PNone
  | PBool (b : bool)
  | PInt (z : Z)
  | PStr (s : string)
  | PList (l : list pyval)
  | PDict (items : list (string * pyval)).

(** Induction on values, with the hypothesis for every element of a
    list and every value of a dict. *)

Section Induction.

Variable P : pyval -> Prop.
Hypothesis Hnone : P PNone.
Hypothesis Hbool : forall b, P (PBool b).
Hypothesis Hint : forall z, P (PInt z).
Hypothesis Hstr : forall s, P (PStr s).
Hypothesis Hlist : forall l, Forall P l -> P (PList l).
Hypothesis Hdict : forall items, Forall (fun kv => P (snd kv)) items -> P (PDict items).

Fixpoint pyval_nested_ind (v : pyval) : P v :=
  match v with
  | PNone => Hnone
  | PBool b => Hbool b
  | PInt z => Hint z
  | PStr s => Hstr s
  | PList l =>
      Hlist l ((fix go (l : list pyval) : Forall P l :=
                  match l with
                  | [] => @List.Forall_nil _ P
                  | x :: r => @List.Forall_cons _ P x r (pyval_nested_ind x) (go r)
                  end) l)
  | PDict items =>
      Hdict items
        ((fix go (l : list (string * pyval)) : Forall (fun kv => P (snd kv)) l :=
            match l with
            | [] => @List.Forall_nil _ _
            | kv :: r =>
                @List.Forall_cons _ (fun kv => P (snd kv)) kv r
                  (pyval_nested_ind (snd kv)) (go r)
            end) items)
  end.

End Induction.

Fixpoint assoc {A : Type} (k : string) (l : list (string * A)) : option A :=
  match l with
  | [] => None
  | (k', v) :: rest => if String.eqb k k' then Some v else assoc k rest
  end.

(** [d.get(key, dflt)]; only a [dict] has the method. *)
Definition py_get (d : pyval) (key : string) (dflt : pyval) : result pyval :=
  match d with
  | PDict items => Ok (default dflt (assoc key items))
  | _ => Raise (Exception "AttributeError")
  end.

(** Truth value of an object in [if x:]. *)
Definition truthy (v : pyval) : bool :=
  match v with
  | PNone => false
  | PBool b => b
  | PInt z => negb (z =? 0)%Z
  | PStr s => negb (String.eqb s "")
  | PList l => match l with [] => false | _ => true end
  | PDict l => match l with [] => false | _ => true end
  end.

(** Keys of every [dict] inside the value are pairwise distinct. *)
Fixpoint wf (v : pyval) : Prop :=
  match v with
  | PList l => (fix all (l : list pyval) : Prop :=
                  match l with [] => True | x :: r => wf x /\ all r end) l
  | PDict items =>
      NoDup (map fst items) /\
      (fix all (l : list (string * pyval)) : Prop :=
         match l with [] => True | kv :: r => wf (snd kv) /\ all r end) items
  | _ => True
  end.

(** *** [json.dumps(v, sort_keys=True)] *)

Definition dquote : ascii := "034"%char.
Definition backslash : ascii := "092"%char.

Definition hex_digit (n : N) : ascii :=
  match n with
  | 0 => "0" | 1 => "1" | 2 => "2" | 3 => "3" | 4 => "4" | 5 => "5"
  | 6 => "6" | 7 => "7" | 8 => "8" | 9 => "9" | 10 => "a" | 11 => "b"
  | 12 => "c" | 13 => "d" | 14 => "e" | _ => "f"
  end%N%char.

(** One character under [ensure_ascii=True]: the two-character escapes
    of [ESCAPE_DCT], [\u00xx] for every other character outside
    [' '..'~'], the character itself otherwise. *)
Definition escape_char (c : ascii) : string :=
  let n := N_of_ascii c in
  let esc (x : ascii) := String backslash (String x EmptyString) in
  if (n =? 34)%N then esc dquote
  else if (n =? 92)%N then esc backslash
  else if (n =? 10)%N then esc "n"%char
  else if (n =? 13)%N then esc "r"%char
  else if (n =? 9)%N then esc "t"%char
  else if (n =? 8)%N then esc "b"%char
  else if (n =? 12)%N then esc "f"%char
  else if ((n <? 32) || (126 <? n))%N then
    String backslash
      (String "u" (String "0" (String "0"
        (String (hex_digit (n / 16)) (String (hex_digit (n mod 16)) EmptyString)))))
  else String c EmptyString.

Fixpoint escape (s : string) : string :=
  match s with
  | EmptyString => EmptyString
  | String c r => escape_char c +:+ escape r
  end.

Definition quote (s : string) : string :=
  String dquote (escape s +:+ String dquote EmptyString).

Definition string_of_Z (z : Z) : string := NilZero.string_of_int (Z.to_int z).

(** [", ".join(parts)] *)
Fixpoint join (parts : list string) : string :=
  match parts with
  | [] => ""
  | [p] => p
  | p :: rest => p +:+ ", " +:+ join rest
  end.

(** Insertion into a list of rendered items ordered by key, as
    [sorted(dct.items())] orders them. *)
Fixpoint insert_item (kv : string * string) (l : list (string * string))
  : list (string * string) :=
  match l with
  | [] => [kv]
  | h :: t => if String.ltb (fst kv) (fst h) then kv :: h :: t
              else h :: insert_item kv t
  end.

Definition sort_items (l : list (string * string)) : list (string * string) :=
  fold_right insert_item [] l.

Definition render_item (kv : string * string) : string :=
  quote (fst kv) +:+ ": " +:+ snd kv.

(** The values of a [dict] are rendered first and the rendered items
    ordered by key after that; the encoder orders the items and renders
    them in that order, which gives the same text. *)
Fixpoint json_dumps (v : pyval) : string :=
  match v with
  | PNone => "null"
  | PBool true => "true"
  | PBool false => "false"
  | PInt z => string_of_Z z
  | PStr s => quote s
  | PList l => "[" +:+ join (map json_dumps l) +:+ "]"
  | PDict items =>
      "{" +:+ join (map render_item
                     (sort_items (map (fun kv => (fst kv, json_dumps (snd kv))) items)))
          +:+ "}"
  end.

(** A value with every kind of scalar and character class in it. *)
Definition sample_value : pyval :=
  PDict [("b", PInt (-3));
         ("a", PList [PBool true; PNone;
                      PStr (String "x" (String dquote (String "y" (String backslash
                             (String "z" (String "010" (String "127"
                               (String "233" (String "001" EmptyString)))))))));
                      PInt 0; PInt 1200]);
         ("", PDict []);
         ("c", PList [])].

(** *** Structural identity *)

(** Two values are structurally identical when they have the same
    shape, the same scalars, the same list elements in the same order
    and, in every [dict], the same keys with identical values, in
    whatever order the items were inserted. *)
Inductive same_config : pyval -> pyval -> Prop :=
  | sc_none : same_config PNone PNone
  | sc_bool b : same_config (PBool b) (PBool b)
  | sc_int z : same_config (PInt z) (PInt z)
  | sc_str s : same_config (PStr s) (PStr s)
  | sc_list l1 l2 :
      Forall2 same_config l1 l2 -> same_config (PList l1) (PList l2)
  | sc_dict l1 l1' l2 :
      Permutation l1 l1' ->
      Forall2 (fun kv kv' => fst kv = fst kv' /\ same_config (snd kv) (snd kv')) l1' l2 ->
      same_config (PDict l1) (PDict l2).

(** *** Reading the serialised text back *)

(** What [join] puts behind the first part. *)
Fixpoint join_tail (parts : list string) : string :=
  match parts with
  | [] => ""
  | p :: rest => ", " +:+ p +:+ join_tail rest
  end.

Definition unhex (c : ascii) : option N :=
  let n := N_of_ascii c in
  if ((48 <=? n) && (n <=? 57))%N then Some (n - 48)%N
  else if ((97 <=? n) && (n <=? 102))%N then Some (n - 87)%N
  else None.

(** The first character of the body of a quoted string and what
    follows it; [None] at the closing quote or at text that
    [escape] does not produce. *)
Definition decode_char (s : string) : option (ascii * string) :=
  match s with
  | EmptyString => None
  | String c rest =>
      if (N_of_ascii c =? 34)%N then None
      else if (N_of_ascii c =? 92)%N then
        match rest with
        | String e rest' =>
            if (N_of_ascii e =? 34)%N then Some (dquote, rest')
            else if (N_of_ascii e =? 92)%N then Some (backslash, rest')
            else if (N_of_ascii e =? 110)%N then Some ("010"%char, rest')
            else if (N_of_ascii e =? 114)%N then Some ("013"%char, rest')
            else if (N_of_ascii e =? 116)%N then Some ("009"%char, rest')
            else if (N_of_ascii e =? 98)%N then Some ("008"%char, rest')
            else if (N_of_ascii e =? 102)%N then Some ("012"%char, rest')
            else if (N_of_ascii e =? 117)%N then
              match rest' with
              | String _ (String _ (String h (String l rest''))) =>
                  match unhex h, unhex l with
                  | Some x, Some y => Some (ascii_of_N (16 * x + y), rest'')
                  | _, _ => None
                  end
              | _ => None
              end
            else None
        | EmptyString => None
        end
      else Some (c, rest)
  end.

Definition is_digit (c : ascii) : bool :=
  ((48 <=? N_of_ascii c) && (N_of_ascii c <=? 57))%N.

(** Text that can follow a serialised value: nothing, or text that
    does not begin with a digit. *)
Definition delimited (r : string) : Prop :=
  match r with
  | EmptyString => True
  | String c _ => is_digit c = false
  end.

(** The kind of value a serialised text starts: told by its first
    character. *)
Definition tag_of_char (c : ascii) : nat :=
  let n := N_of_ascii c in
  if (n =? 110)%N then 0
  else if ((n =? 116) || (n =? 102))%N then 1
  else if (is_digit c || (n =? 45)%N) then 2
  else if (n =? 34)%N then 3
  else if (n =? 91)%N then 4
  else if (n =? 123)%N then 5
  else 6.

Definition tag_of (v : pyval) : nat :=
  match v with
  | PNone => 0
  | PBool _ => 1
  | PInt _ => 2
  | PStr _ => 3
  | PList _ => 4
  | PDict _ => 5
  end.

(** An item of a [dict] as [json_dumps] sorts it: the key and the
    serialised value. *)
Definition rendered (kv : string * pyval) : string * string :=
  (fst kv, json_dumps (snd kv)).

Definition key_lt (a b : string * string) : Prop :=
  String.ltb (fst a) (fst b) = true.

(** Values identical to [v1] have the text of [v1]. *)
Definition same_text (v1 : pyval) : Prop :=
  wf v1 -> forall v2, same_config v1 v2 -> json_dumps v1 = json_dumps v2.

(** A value whose text, followed by [r2], reads as the text of [v1]
    followed by [r1] is identical to [v1], and [r2] is [r1]. *)
Definition decodable (v1 : pyval) : Prop :=
  wf v1 -> forall v2 r1 r2,
    wf v2 -> delimited r1 -> delimited r2 ->
    json_dumps v1 +:+ r1 = json_dumps v2 +:+ r2 ->
    same_config v1 v2 /\ r1 = r2.

(** Identical values, the first of them well formed. *)
Definition same_wf (a b : pyval) : Prop := same_config a b /\ wf a.

End PyVal.

(** ** [hashlib.sha256]: the hash the fingerprint uses (FIPS 180-4) *)

Module Sha256.

Open Scope Z_scope.

Definition w32 (x : Z) : Z := x mod 4294967296.

Definition rotr (n x : Z) : Z :=
  Z.lor (Z.shiftr x n) (w32 (Z.shiftl x (32 - n))).

Definition not32 (x : Z) : Z := Z.lxor x 4294967295.

Definition Ch (x y z : Z) : Z := Z.lxor (Z.land x y) (Z.land (not32 x) z).
Definition Maj (x y z : Z) : Z :=
  Z.lxor (Z.lxor (Z.land x y) (Z.land x z)) (Z.land y z).
Definition Sigma0 (x : Z) : Z := Z.lxor (Z.lxor (rotr 2 x) (rotr 13 x)) (rotr 22 x).
Definition Sigma1 (x : Z) : Z := Z.lxor (Z.lxor (rotr 6 x) (rotr 11 x)) (rotr 25 x).
Definition sigma0 (x : Z) : Z := Z.lxor (Z.lxor (rotr 7 x) (rotr 18 x)) (Z.shiftr x 3).
Definition sigma1 (x : Z) : Z := Z.lxor (Z.lxor (rotr 17 x) (rotr 19 x)) (Z.shiftr x 10).

Definition K256 : list Z :=
  [
   1116352408; 1899447441; 3049323471; 3921009573; 961987163; 1508970993;
   2453635748; 2870763221; 3624381080; 310598401; 607225278; 1426881987;
   1925078388; 2162078206; 2614888103; 3248222580; 3835390401; 4022224774;
   264347078; 604807628; 770255983; 1249150122; 1555081692; 1996064986;
   2554220882; 2821834349; 2952996808; 3210313671; 3336571891; 3584528711;
   113926993; 338241895; 666307205; 773529912; 1294757372; 1396182291;
   1695183700; 1986661051; 2177026350; 2456956037; 2730485921; 2820302411;
   3259730800; 3345764771; 3516065817; 3600352804; 4094571909; 275423344;
   430227734; 506948616; 659060556; 883997877; 958139571; 1322822218;
   1537002063; 1747873779; 1955562222; 2024104815; 2227730452; 2361852424;
   2428436474; 2756734187; 3204031479; 3329325298
  ].

Definition H0 : list Z :=
  [
   1779033703; 3144134277; 1013904242; 2773480762;
   1359893119; 2600822924; 528734635; 1541459225
  ].

(** The message with the padding: a one bit, zero bits up to 56 bytes
    modulo 64, the bit length on 8 bytes. *)
Definition pad (msg : list Z) : list Z :=
  let len := Z.of_nat (length msg) in
  let zeros := Z.to_nat ((55 - len) mod 64) in
  let bits := 8 * len in
  msg ++ [128] ++ repeat 0 zeros
      ++ map (fun i => Z.shiftr bits (8 * (7 - Z.of_nat i)) mod 256) (seq 0 8).

Fixpoint words (bytes : list Z) : list Z :=
  match bytes with
  | a :: b :: c :: d :: rest =>
      (Z.shiftl a 24 + Z.shiftl b 16 + Z.shiftl c 8 + d) :: words rest
  | _ => []
  end.

Fixpoint blocks (n : nat) (ws : list Z) : list (list Z) :=
  match n with
  | O => []
  | S n' => take 16 ws :: blocks n' (drop 16 ws)
  end.

(** The message schedule: [n] more words after those of [w]. *)
Fixpoint schedule (n : nat) (w : list Z) : list Z :=
  match n with
  | O => w
  | S n' =>
      let t := length w in
      let at_ (i : nat) := nth (t - i) w 0 in
      schedule n' (w ++ [w32 (sigma1 (at_ 2%nat) + at_ 7%nat
                              + sigma0 (at_ 15%nat) + at_ 16%nat)])
  end.

Record regs : Type := mkRegs {
  ra : Z; rb : Z; rc : Z; rd : Z; re : Z; rf : Z; rg : Z; rh : Z
}.

Definition round (r : regs) (kw : Z * Z) : regs :=
  let t1 := rh r + Sigma1 (re r) + Ch (re r) (rf r) (rg r) + fst kw + snd kw in
  let t2 := Sigma0 (ra r) + Maj (ra r) (rb r) (rc r) in
  mkRegs (w32 (t1 + t2)) (ra r) (rb r) (rc r) (w32 (rd r + t1)) (re r) (rf r) (rg r).

Definition compress (h : regs) (block : list Z) : regs :=
  let w := schedule 48 block in
  let r := fold_left round (combine K256 w) h in
  mkRegs (w32 (ra h + ra r)) (w32 (rb h + rb r)) (w32 (rc h + rc r))
         (w32 (rd h + rd r)) (w32 (re h + re r)) (w32 (rf h + rf r))
         (w32 (rg h + rg r)) (w32 (rh h + rh r)).

Definition initial : regs :=
  mkRegs (nth 0 H0 0) (nth 1 H0 0) (nth 2 H0 0) (nth 3 H0 0)
         (nth 4 H0 0) (nth 5 H0 0) (nth 6 H0 0) (nth 7 H0 0).

Definition hex_of_nibble (n : Z) : ascii :=
  nth (Z.to_nat n)
      ["0"; "1"; "2"; "3"; "4"; "5"; "6"; "7"; "8"; "9"; "a"; "b"; "c"; "d"; "e"; "f"]%char
      "0"%char.

Definition hex_of_word (w : Z) : list ascii :=
  map (fun i => hex_of_nibble (Z.shiftr w (4 * (7 - Z.of_nat i)) mod 16)) (seq 0 8).

Definition bytes_of_string (s : string) : list Z :=
  map (fun c => Z.of_N (N_of_ascii c)) (list_ascii_of_string s).

(** [hashlib.sha256(data).hexdigest()] for the bytes of [s]. *)
Definition sha256_hexdigest (s : string) : string :=
  let padded := pad (bytes_of_string s) in
  let bs := blocks (length padded / 64) (words padded) in
  let r := fold_left compress bs initial in
  string_of_list_ascii
    (flat_map hex_of_word [ra r; rb r; rc r; rd r; re r; rf r; rg r; rh r]).

Close Scope Z_scope.

End Sha256.

(** ** [engine/graph_builder.py] *)

Module GraphBuilder.
Import PyVal.

(** *** The [StateGraph] under construction *)

Definition START : string := "__start__".
Definition END : string := "__end__".

(** The routing functions handed to [add_conditional_edges]: four come
    from [engine.edges], two are closures of [build_graph]. *)
Inductive router : Type :=
  | route_after_agent
  | _route_plan_gate
  | route_after_approval
  | route_after_replanner
  | _route_executor_no_replanner
  | _route_executor_minimal.

Record branch : Type := mkBranch {
  br_source : string;
  br_path : router;
  br_path_map : list (string * string)
}.

Record StateGraph : Type := mkStateGraph {
  sg_nodes : list string;
  sg_edges : list (string * string);
  sg_branches : list branch
}.

Definition new_StateGraph : StateGraph := mkStateGraph [] [] [].

Definition add_node (name : string) (g : StateGraph) : StateGraph :=
  mkStateGraph (sg_nodes g ++ [name]) (sg_edges g) (sg_branches g).

Definition add_edge (a b : string) (g : StateGraph) : StateGraph :=
  mkStateGraph (sg_nodes g) (sg_edges g ++ [(a, b)]) (sg_branches g).

Definition set_entry_point (name : string) (g : StateGraph) : StateGraph :=
  add_edge START name g.

Definition add_conditional_edges (source : string) (path : router)
    (path_map : list (string * string)) (g : StateGraph) : StateGraph :=
  mkStateGraph (sg_nodes g) (sg_edges g)
               (sg_branches g ++ [mkBranch source path path_map]).

(** Every transition the compiled graph can take: the fixed edges and,
    for each conditional edge, every target of its path map. *)
Definition transitions (g : StateGraph) : list (string * string) :=
  sg_edges g ++
  flat_map (fun b => map (fun kv => (br_source b, snd kv)) (br_path_map b))
           (sg_branches g).

(** *** Module state *)

(** A key of [MemorySaver.storage].  The cleanup looks at tuple keys
    [(thread_id, checkpoint_ns, checkpoint_id, ...)] and skips any
    other key. *)
Inductive skey : Type :=
  | KTuple (elems : list string)
  | KOther (s : string).

#[global] Instance skey_eq_dec : EqDecision skey.
Proof. solve_decision. Defined.

(** The object [graph.compile(...)] returns, named by its allocation
    number. *)
Record compiled : Type := mkCompiled {
  obj_id : nat;
  obj_graph : StateGraph
}.

(** The globals of the module and the store of [_checkpointer].  The
    clock counts whole seconds. *)
Record gb_state : Type := mkState {
  _graph_cache : gmap string compiled;
  storage : list (skey * string);
  _last_checkpoint_cleanup : Z;
  next_obj : nat
}.

Definition _CHECKPOINT_MAX_PER_THREAD : Z := 20.
Definition _CHECKPOINT_CLEANUP_INTERVAL : Z := 300.

Definition initial_state : gb_state :=
  mkState (∅ : gmap string compiled) [] 0 0.

(** *** [cleanup_old_checkpoints] *)

(** [by_thread.setdefault(thread_id, []).append(key)] *)
Fixpoint setdefault_append (thread_id : string) (key : skey)
    (by_thread : list (string * list skey)) : list (string * list skey) :=
  match by_thread with
  | [] => [(thread_id, [key])]
  | (t, ks) :: rest =>
      if String.eqb thread_id t then (t, ks ++ [key]) :: rest
      else (t, ks) :: setdefault_append thread_id key rest
  end.

Definition group_key (by_thread : list (string * list skey)) (key : skey)
  : list (string * list skey) :=
  match key with
  | KTuple (thread_id :: _) => setdefault_append thread_id key by_thread
  | _ => by_thread
  end.

Definition group_by_thread (keys : list skey) : list (string * list skey) :=
  fold_left group_key keys [].

(** [lambda k: k[2] if len(k) > 2 else ""] *)
Definition sort_key (k : skey) : string :=
  match k with
  | KTuple (_ :: _ :: c :: _) => c
  | _ => ""
  end.

(** [sorted(keys, key=..., reverse=True)]: descending and stable, so a
    key goes behind the keys of the same rank that came before it. *)
Fixpoint insert_desc (k : skey) (l : list skey) : list skey :=
  match l with
  | [] => [k]
  | h :: t => if String.ltb (sort_key h) (sort_key k) then k :: h :: t
              else h :: insert_desc k t
  end.

Definition sorted_desc (keys : list skey) : list skey :=
  fold_left (fun acc k => insert_desc k acc) keys [].

(** [l[n:]], with Python's reading of a negative [n]. *)
Definition slice_from {A : Type} (n : Z) (l : list A) : list A :=
  if (n <? 0)%Z then drop (Z.to_nat (Z.of_nat (length l) + n)) l
  else drop (Z.to_nat n) l.

(** [del storage[key]] inside [try ... except KeyError: pass], with the
    counter of deleted entries. *)
Definition del_key (acc : list (skey * string) * Z) (key : skey)
  : list (skey * string) * Z :=
  let (sto, cleaned) := acc in
  if existsb (fun kv => bool_decide (fst kv = key)) sto
  then (filter (fun kv => fst kv <> key) sto, (cleaned + 1)%Z)
  else (sto, cleaned).

(** The body of [for thread_id, keys in by_thread.items()]. *)
Definition prune_thread (max_per_thread : Z)
    (acc : list (skey * string) * Z) (entry : string * list skey)
  : list (skey * string) * Z :=
  let keys := snd entry in
  if (Z.of_nat (length keys) <=? max_per_thread)%Z then acc
  else
    let sorted_keys := sorted_desc keys in
    let keys_to_remove := slice_from max_per_thread sorted_keys in
    fold_left del_key keys_to_remove acc.

(** [cleanup_old_checkpoints], with the retention ceiling and the
    reading of the clock as arguments.  On tuple keys of strings no
    statement of the [try] block raises. *)
Definition cleanup_with (max_per_thread : Z) (now : Z) : Py gb_state Z :=
  fun st =>
    if (now - _last_checkpoint_cleanup st <? _CHECKPOINT_CLEANUP_INTERVAL)%Z
    then (Ok 0%Z, st)
    else
      let st1 := mkState (_graph_cache st) (storage st) now (next_obj st) in
      match storage st with
      | [] => (Ok 0%Z, st1)
      | _ =>
          let by_thread := group_by_thread (map fst (storage st)) in
          let (sto, cleaned) :=
            fold_left (prune_thread max_per_thread) by_thread (storage st, 0%Z) in
          (Ok cleaned, mkState (_graph_cache st) sto now (next_obj st))
      end.

Definition cleanup_old_checkpoints (now : Z) : Py gb_state Z :=
  cleanup_with _CHECKPOINT_MAX_PER_THREAD now.

Definition stored_keys (st : gb_state) : list skey := map fst (storage st).

(** The conversation a stored key belongs to. *)
Definition thread_of (k : skey) : option string :=
  match k with
  | KTuple (t :: _) => Some t
  | _ => None
  end.

(** *** [build_graph] *)

Definition lift {S A : Type} (r : result A) : Py S A := fun s => (r, s).

Definition raise {S A : Type} (e : exn) : Py S A := fun s => (Raise e, s).

(** [nodes_cfg.get(name, {}).get("enabled", dflt)] *)
Definition node_enabled (nodes_cfg : pyval) (name : string) (dflt : bool)
  : result pyval :=
  match py_get nodes_cfg name (PDict []) with
  | Ok sub => py_get sub "enabled" (PBool dflt)
  | Raise e => Raise e
  end.

(** The node and edge section of [build_graph], statement by
    statement, for the truth values of the four toggles. *)
Definition assemble
    (planner_enabled approval_enabled replanner_enabled summarizer_enabled : bool)
  : StateGraph :=
  let graph := new_StateGraph in
  let graph := add_node "agent" graph in
  let graph :=
    if planner_enabled then
      let graph := add_node "plan_gate" graph in
      let graph := if approval_enabled then add_node "approval" graph else graph in
      let graph := add_node "executor_pre" graph in
      let graph := add_node "executor" graph in
      let graph := if replanner_enabled then add_node "replanner" graph else graph in
      if summarizer_enabled then add_node "summarizer" graph else graph
    else graph in
  let graph := set_entry_point "agent" graph in
  if planner_enabled then
    let graph :=
      add_conditional_edges "agent" route_after_agent
        [("plan_gate", "plan_gate"); (END, END)] graph in
    let graph := add_edge "executor_pre" "executor" graph in
    let graph :=
      if approval_enabled then
        let graph :=
          add_conditional_edges "plan_gate" _route_plan_gate
            [("approval", "approval"); ("executor_pre", "executor_pre")] graph in
        add_conditional_edges "approval" route_after_approval
          [("executor_pre", "executor_pre"); ("agent", "agent")] graph
      else add_edge "plan_gate" "executor_pre" graph in
    if replanner_enabled then
      let graph := add_edge "executor" "replanner" graph in
      if summarizer_enabled then
        let graph :=
          add_conditional_edges "replanner" route_after_replanner
            [("executor_pre", "executor_pre"); ("summarizer", "summarizer")] graph in
        add_edge "summarizer" "agent" graph
      else
        add_conditional_edges "replanner" route_after_replanner
          [("executor_pre", "executor_pre"); ("summarizer", END)] graph
    else
      if summarizer_enabled then
        let graph :=
          add_conditional_edges "executor" _route_executor_no_replanner
            [("executor_pre", "executor_pre"); ("summarizer", "summarizer")] graph in
        add_edge "summarizer" "agent" graph
      else
        add_conditional_edges "executor" _route_executor_minimal
          [("executor_pre", "executor_pre"); (END, END)] graph
  else add_edge "agent" END graph.

(** [graph.compile(checkpointer=_checkpointer)]: a new object. *)
Definition compile (g : StateGraph) : Py gb_state compiled :=
  fun st =>
    (Ok (mkCompiled (next_obj st) g),
     mkState (_graph_cache st) (storage st) (_last_checkpoint_cleanup st)
             (S (next_obj st))).

(** [def build_graph(graph_config)].  [settings_cfg] and
    [recursion_limit] are read by the source and not used. *)
Definition build_graph (graph_config : pyval) : Py gb_state compiled :=
  graph_cfg <- lift (py_get graph_config "graph" (PDict [])) ;;
  nodes_cfg <- lift (py_get graph_cfg "nodes" (PDict [])) ;;
  planner_enabled <- lift (node_enabled nodes_cfg "planner" true) ;;
  approval_enabled <- lift (node_enabled nodes_cfg "approval" false) ;;
  replanner_enabled <- lift (node_enabled nodes_cfg "replanner" true) ;;
  summarizer_enabled <- lift (node_enabled nodes_cfg "summarizer" true) ;;
  compile (assemble (truthy planner_enabled) (truthy approval_enabled)
                    (truthy replanner_enabled) (truthy summarizer_enabled)).

(** The four toggles as [build_graph] reads them. *)
Definition toggles (graph_config : pyval) : result (bool * bool * bool * bool) :=
  match py_get graph_config "graph" (PDict []) with
  | Raise e => Raise e
  | Ok graph_cfg =>
  match py_get graph_cfg "nodes" (PDict []) with
  | Raise e => Raise e
  | Ok nodes_cfg =>
  match node_enabled nodes_cfg "planner" true,
        node_enabled nodes_cfg "approval" false,
        node_enabled nodes_cfg "replanner" true,
        node_enabled nodes_cfg "summarizer" true with
  | Ok p, Ok a, Ok r, Ok s => Ok (truthy p, truthy a, truthy r, truthy s)
  | Raise e, _, _, _ => Raise e
  | _, Raise e, _, _ => Raise e
  | _, _, Raise e, _ => Raise e
  | _, _, _, Raise e => Raise e
  end end end.

(** A configuration with the four [enabled] flags set as given. *)
Definition config_of (p a r s : bool) : pyval :=
  PDict [("graph", PDict [("nodes", PDict
    [("planner", PDict [("enabled", PBool p)]);
     ("approval", PDict [("enabled", PBool a)]);
     ("replanner", PDict [("enabled", PBool r)]);
     ("summarizer", PDict [("enabled", PBool s)])])])].

(** *** The graph cache *)

Section Fingerprint.

(** [hashlib.sha256(data).hexdigest()], a function of the standard
    library. *)
Variable sha256_hexdigest : string -> string.

(** [def _config_fingerprint(graph_config)].  The serialised text is
    pure ASCII, which [raw.encode()] leaves as it is. *)
Definition _config_fingerprint (graph_config : pyval) : string :=
  let raw := json_dumps graph_config in
  substring 0 16 (sha256_hexdigest raw).

Definition cache_store (fp : string) (c : compiled) : Py gb_state unit :=
  modify (fun st =>
    mkState (<[fp := c]> (_graph_cache st)) (storage st)
            (_last_checkpoint_cleanup st) (next_obj st)).

(** [def get_or_build_graph(graph_config)], with the reading of the
    clock that [cleanup_old_checkpoints] takes. *)
Definition get_or_build_graph (now : Z) (graph_config : pyval)
  : Py gb_state compiled :=
  cleanup_old_checkpoints now ;;;
  let fp := _config_fingerprint graph_config in
  st <- get_state ;;
  (match _graph_cache st !! fp with
   | None =>
       c <- build_graph graph_config ;;
       cache_store fp c
   | Some _ => ret tt
   end) ;;;
  st <- get_state ;;
  match _graph_cache st !! fp with
  | Some c => ret c
  | None => raise (Exception "KeyError")
  end.

End Fingerprint.

(** [def invalidate_graph_cache()] *)
Definition invalidate_graph_cache : Py gb_state unit :=
  modify (fun st =>
    mkState (∅ : gmap string compiled) (storage st)
            (_last_checkpoint_cleanup st) (next_obj st)).

Definition config_of_toggles (t : bool * bool * bool * bool) : pyval :=
  let '(p, a, r, s) := t in config_of p a r s.

(** The sixteen combinations of the four toggles. *)
Definition all_toggles : list (bool * bool * bool * bool) :=
  flat_map (fun p => flat_map (fun a => flat_map (fun r =>
    map (fun s => (p, a, r, s)) [true; false]) [true; false]) [true; false])
    [true; false].

(** The configuration of [config_of] with the keys inserted in
    another order. *)
Definition config_reordered (p a r s : bool) : pyval :=
  PDict [("graph", PDict [("nodes", PDict
    [("summarizer", PDict [("enabled", PBool s)]);
     ("replanner", PDict [("enabled", PBool r)]);
     ("approval", PDict [("enabled", PBool a)]);
     ("planner", PDict [("enabled", PBool p)])])])].

(** Every cached object was allocated before, and no object is cached
    under two fingerprints. *)
Definition cache_wf (st : gb_state) : Prop :=
  (forall fp c, _graph_cache st !! fp = Some c -> (obj_id c < next_obj st)%nat) /\
  (forall fp1 fp2 c1 c2,
     _graph_cache st !! fp1 = Some c1 -> _graph_cache st !! fp2 = Some c2 ->
     obj_id c1 = obj_id c2 -> fp1 = fp2).

(** Two outcomes agree: both are results related by [R], or both are
    the same exception. *)
Definition result_rel {A : Type} (R : A -> A -> Prop) (r1 r2 : result A) : Prop :=
  match r1, r2 with
  | Ok a, Ok b => R a b
  | Raise e, Raise e' => e = e'
  | _, _ => False
  end.

(** *** Properties of a routing graph *)

(** The declared nodes and the two sentinels. *)
Definition declared (g : StateGraph) : list string :=
  START :: sg_nodes g ++ [END].

(** [b] can be reached from [a] along transitions of [E]. *)
Inductive reach (E : list (string * string)) : string -> string -> Prop :=
  | reach_refl a : reach E a a
  | reach_step a b c : In (a, b) E -> reach E b c -> reach E a c.

(** A path of at least one transition. *)
Inductive path (E : list (string * string)) : string -> string -> Prop :=
  | path_one a b : In (a, b) E -> path E a b
  | path_cons a b c : In (a, b) E -> path E b c -> path E a c.

Definition cyclic (E : list (string * string)) : Prop :=
  exists n, path E n n.

Definition edge_eqb (e f : string * string) : bool :=
  String.eqb (fst e) (fst f) && String.eqb (snd e) (snd f).

(** The transitions of [E] that are not in [B]. *)
Definition without (B E : list (string * string)) : list (string * string) :=
  List.filter (fun e => negb (existsb (edge_eqb e) B)) E.

(** The two back edges into the main agent. *)
Definition agent_backedges : list (string * string) :=
  [("summarizer", "agent"); ("approval", "agent")].

(** The back edge of the step loop: whoever routes after a step
    (the replanner, or the executor itself) sends control to
    [executor_pre] for the next step. *)
Definition step_backedges : list (string * string) :=
  [("replanner", "executor_pre"); ("executor", "executor_pre")].

(** The nodes within [n] transitions of the nodes in [seen]. *)
Fixpoint closure (n : nat) (E : list (string * string)) (seen : list string)
  : list string :=
  match n with
  | O => seen
  | S n' =>
      closure n' E
        (seen ++ map snd (List.filter (fun e => existsb (String.eqb (fst e)) seen) E))
  end.

Definition reachb (E : list (string * string)) (a b : string) : bool :=
  existsb (String.eqb b) (closure (length E) E [a]).

(** A position for every node name, in the order in which a plan
    travels through the graph. *)
Definition rank (n : string) : nat :=
  if String.eqb n START then 0
  else if String.eqb n "agent" then 1
  else if String.eqb n "plan_gate" then 2
  else if String.eqb n "approval" then 3
  else if String.eqb n "executor_pre" then 4
  else if String.eqb n "executor" then 5
  else if String.eqb n "replanner" then 6
  else if String.eqb n "summarizer" then 7
  else 8.

Definition ascending (E : list (string * string)) : bool :=
  forallb (fun e => rank (fst e) <? rank (snd e))%nat E.

(** Every declared node is reachable from the entry and reaches the
    end, and every transition joins declared nodes. *)
Definition connected (g : StateGraph) : Prop :=
  (forall n, In n (declared g) -> reach (transitions g) START n) /\
  (forall n, In n (declared g) -> reach (transitions g) n END) /\
  (forall a b, In (a, b) (transitions g) -> In a (declared g) /\ In b (declared g)).

(** [connected], as a test. *)
Definition connectedb (g : StateGraph) : bool :=
  forallb (reachb (transitions g) START) (declared g)
  && forallb (fun n => reachb (transitions g) n END) (declared g)
  && forallb (fun e => existsb (String.eqb (fst e)) (declared g)
                       && existsb (String.eqb (snd e)) (declared g))
             (transitions g).

(** Once the highest key stands in front it stays there; before that
    every sorted key is below it. *)
Definition leads (k : skey) (acc : list skey) : Prop :=
  (~ In k acc /\ forall y, In y acc -> String.ltb (sort_key y) (sort_key k) = true)
  \/ exists rest, acc = k :: rest.

(** Every group holds distinct keys, all seen so far and all of the
    group's conversation. *)
Definition grouped (seen : list skey) (by_thread : list (string * list skey)) : Prop :=
  forall t ks, In (t, ks) by_thread ->
    NoDup ks /\ forall x, In x ks -> In x seen /\ thread_of x = Some t.

(** [k] is the single most recent checkpoint of conversation [t] in
    the store: it belongs to [t] and its checkpoint id is above the
    checkpoint id of every other key of [t]. *)
Definition most_recent (st : gb_state) (t : string) (k : skey) : Prop :=
  In k (stored_keys st) /\ thread_of k = Some t /\
  forall k', In k' (stored_keys st) -> thread_of k' = Some t -> k' <> k ->
             String.ltb (sort_key k') (sort_key k) = true.

(** The reading of C4 in the specification: whatever the ceiling, zero
    included, the most recent checkpoint of a conversation outlives the
    cleanup. *)
Definition latest_survives_any_ceiling : Prop :=
  forall max_per_thread now st t k,
    NoDup (stored_keys st) ->
    most_recent st t k ->
    In k (stored_keys (snd (cleanup_with max_per_thread now st))).

(** A store with one checkpoint of one conversation, and one with
    three. *)
Definition one_checkpoint : gb_state :=
  mkState (∅ : gmap string compiled) [(KTuple ["t1"; ""; "0001"], "snapshot")] 0 0.

Definition three_checkpoints : gb_state :=
  mkState (∅ : gmap string compiled)
    [(KTuple ["t1"; ""; "0002"], "b"); (KTuple ["t1"; ""; "0003"], "c");
     (KTuple ["t1"; ""; "0001"], "a")] 0 0.

(** The reading of C3 in the specification: with approval on and the
    planner off, [build_graph] ends in an exception. *)
Definition approval_requires_planner : Prop :=
  forall graph_config r s st,
    toggles graph_config = Ok (false, true, r, s) ->
    exists e st', build_graph graph_config st = (Raise e, st').

(** The reading of C5 in the specification: in every assembled graph
    the only cycles are those through one of the two back edges into
    the agent. *)
Definition only_agent_backedges : Prop :=
  forall p a r s,
    ~ cyclic (without agent_backedges (transitions (assemble p a r s))).

End GraphBuilder.

(** ** [graph/agent.py]: plan execution and the replanner *)

Module Agent.

(** The fields of [config.settings] the plan loop reads. *)
Record Settings : Type := mkSettings {
  plan_max_steps : Z;
  plan_revision_enabled : bool;
  plan_require_approval : bool
}.

(** An entry of [plan_data["steps"]]: a dict
    [{"id": int, "title": str, "status": str}], or any other object,
    which the loop turns into text with [str(step)]. *)
Inductive step : Type :=
  | StepDict (id : Z) (title : string) (status : string)
  | StepOther (text : string).

Record Plan : Type := mkPlan {
  plan_id : string;
  plan_title : string;
  plan_steps : list step
}.

(** [class ReplanDecision(BaseModel)] *)
Record ReplanDecision : Type := mkDecision {
  action : string;
  response : string;
  revised_steps : list string;
  reason : string
}.

(** What [_evaluate_replan] interpolates into the prompt text: the plan
    title, a line per completed step (number, title, result cut to 200
    characters) and a line per remaining step (id, title). *)
Record replan_prompt : Type := mkPrompt {
  rp_title : string;
  rp_past : list (nat * string * string);
  rp_remaining : list (Z * string)
}.

(** The events of [sub_agent.astream_events] the loop looks at. *)
Inductive raw_event : Type :=
  | on_chat_model_stream (content : string)
  | on_chat_model_start (run_id : string)
  | on_chat_model_end (run_id : string)
  | on_tool_start (name : string)
  | on_tool_end (name : string)
  | on_other.

(** What the runner hands to its consumer, in program order: the dicts
    it yields and the plan events it sends through [tools.plan_tool]. *)
Inductive event : Type :=
  | Token (content : string)
  | LlmStart (call_id : string)
  | LlmEnd (call_id : string)
  | ToolStart (tool : string)
  | ToolEnd (tool : string)
  | PlanUpdated (plan : string) (step_id : Z) (status : string)
  | PlanRevised (plan : string) (new_steps : list step) (keep_completed : nat)
                (why : string)
  | Done.

Record run_state : Type := mkRun {
  trace : list event;
  llm_calls : list replan_prompt
}.

Definition emit (e : event) : Py run_state unit :=
  modify (fun rs => mkRun (trace rs ++ [e]) (llm_calls rs)).

Definition emit_all (es : list event) : Py run_state unit :=
  modify (fun rs => mkRun (trace rs ++ es) (llm_calls rs)).

Definition step_title_of (s : step) : string :=
  match s with StepDict _ t _ => t | StepOther t => t end.

(** [s["id"] if isinstance(s, dict) else pos + 1] *)
Definition step_id_of (s : step) (pos : nat) : Z :=
  match s with StepDict i _ _ => i | StepOther _ => (Z.of_nat pos + 1)%Z end.

(** [str.strip()] on code points below 256. *)
Definition is_space (c : ascii) : bool :=
  let n := N_of_ascii c in
  (((9 <=? n) && (n <=? 13)) || ((28 <=? n) && (n <=? 32))
   || (n =? 133) || (n =? 160))%N.

Fixpoint lstrip (l : list ascii) : list ascii :=
  match l with
  | c :: r => if is_space c then lstrip r else l
  | [] => []
  end.

Definition strip (s : string) : string :=
  string_of_list_ascii
    (rev (lstrip (rev (lstrip (list_ascii_of_string s))))).

Definition newline : ascii := "010"%char.

(** The [async for event in sub_agent.astream_events(...)] block:
    [tracking] holds the keys of [debug_tracking], [resp] is
    [step_response].  (With [debug] off; the flag only adds timings.) *)
Fixpoint handle_events (evs : list raw_event) (tracking : list string)
    (resp : string) : list event * string :=
  match evs with
  | [] => ([], resp)
  | ev :: rest =>
      match ev with
      | on_chat_model_stream content =>
          if String.eqb content "" then handle_events rest tracking resp
          else
            let (out, r) := handle_events rest tracking (resp +:+ content) in
            (Token content :: out, r)
      | on_chat_model_start run_id =>
          let (out, r) := handle_events rest (run_id :: tracking) resp in
          (LlmStart (substring 0 12 run_id) :: out, r)
      | on_chat_model_end run_id =>
          if existsb (String.eqb run_id) tracking then
            let (out, r) :=
              handle_events rest
                (List.filter (fun x => negb (String.eqb run_id x)) tracking) resp in
            (LlmEnd (substring 0 12 run_id) :: out, r)
          else handle_events rest tracking resp
      | on_tool_start name =>
          let (out, r) := handle_events rest tracking resp in
          (ToolStart name :: out, r)
      | on_tool_end name =>
          let (out, r) := handle_events rest tracking resp in
          (ToolEnd name :: out, r)
      | on_other => handle_events rest tracking resp
      end
  end.

(** [enumerate(l)] from [start]. *)
Fixpoint enumerate {A : Type} (start : nat) (l : list A) : list (nat * A) :=
  match l with
  | [] => []
  | x :: r => (start, x) :: enumerate (S start) r
  end.

Record loop_state : Type := mkLoop {
  steps : list step;
  past_steps : list (string * string);
  step_index : nat
}.

Section Run.

Variable settings : Settings.

(** The executor sub-agent of one step, as the finite stream of events
    it produces for the step position, the plan and the results so
    far. *)
Variable sub_agent : nat -> list step -> list (string * string) -> list raw_event.

(** [create_llm(streaming=False).with_structured_output(ReplanDecision)
    .ainvoke(prompt)]: a decision, or an exception. *)
Variable structured_llm : replan_prompt -> result ReplanDecision.

(** The model call, recorded in [llm_calls]. *)
Definition ainvoke (p : replan_prompt) : Py run_state ReplanDecision :=
  fun rs => (structured_llm p, mkRun (trace rs) (llm_calls rs ++ [p])).

(** [try: m  except Exception: handler] *)
Definition try_except {A : Type} (m : Py run_state A) (handler : Py run_state A)
  : Py run_state A :=
  fun rs =>
    match m rs with
    | (Raise (Exception _), rs') => handler rs'
    | other => other
    end.

(** The prompt of [_evaluate_replan] for the given progress. *)
Definition build_prompt (title : string) (past : list (string * string))
    (current_index : nat) (remaining_steps : list step) : replan_prompt :=
  let past_str :=
    map (fun '(i, (s, r)) => (S i, s, substring 0 200 r)) (enumerate 0 past) in
  let remaining_str :=
    map (fun '(i, s) => (step_id_of s (current_index + i), step_title_of s))
        (enumerate 0 remaining_steps) in
  mkPrompt title past_str remaining_str.

(** [async def _evaluate_replan(plan_title, steps, past_steps,
    current_index, system_prompt)] *)
Definition _evaluate_replan (title : string) (all_steps : list step)
    (past : list (string * string)) (current_index : nat)
  : Py run_state (option ReplanDecision) :=
  if negb (plan_revision_enabled settings) then ret None
  else
    let remaining_steps := drop current_index all_steps in
    match remaining_steps with
    | [] => ret None
    | _ =>
        let prompt := build_prompt title past current_index remaining_steps in
        try_except
          (decision <- ainvoke prompt ;; ret (Some decision))
          (ret None)
    end.

(** The new steps of a revision: [{"id": step_index + i + 1,
    "title": s.strip(), "status": "pending"}]. *)
Definition revision_steps (idx : nat) (titles : list string) : list step :=
  map (fun '(i, s) => StepDict (Z.of_nat idx + Z.of_nat i + 1) (strip s) "pending")
      (enumerate 0 titles).

(** First half of a pass of the [while] loop: the step is marked
    running, its sub-agent runs, the step is marked completed; the
    result is the new [past_steps] and the new [step_index]. *)
Definition execute_step (pid : string) (ls : loop_state) (st : step)
  : Py run_state (list (string * string) * nat) :=
  let step_title := step_title_of st in
  let step_id := step_id_of st (step_index ls) in
  emit (PlanUpdated pid step_id "running") ;;;
  let (yielded, step_response) :=
    handle_events (sub_agent (step_index ls) (steps ls) (past_steps ls)) [] "" in
  emit_all yielded ;;;
  emit (PlanUpdated pid step_id "completed") ;;;
  ret (past_steps ls ++ [(step_title, substring 0 1000 step_response)],
       S (step_index ls)).

(** Second half: the replanner is consulted when steps remain; the
    boolean tells whether the pass ends in [break]. *)
Definition replan_phase (pid title : string) (all_steps : list step)
    (past : list (string * string)) (idx : nat)
  : Py run_state (loop_state * bool) :=
  if (0 <? Z.of_nat (length all_steps) - Z.of_nat idx)%Z then
    decision <- _evaluate_replan title all_steps past idx ;;
    match decision with
    | None => ret (mkLoop all_steps past idx, false)
    | Some d =>
        if String.eqb (action d) "finish" then
          emit_all
            (map (fun '(i, s) => PlanUpdated pid (step_id_of s i) "completed")
                 (enumerate idx (drop idx all_steps))) ;;;
          (if String.eqb (response d) "" then ret tt
           else emit (Token (String newline (String newline (response d))))) ;;;
          ret (mkLoop all_steps past idx, true)
        else if String.eqb (action d) "revise"
                && negb (match revised_steps d with [] => true | _ => false end)
        then
          let new_steps := revision_steps idx (revised_steps d) in
          emit (PlanRevised pid new_steps idx (reason d)) ;;;
          ret (mkLoop (take idx all_steps ++ new_steps) past idx, false)
        else ret (mkLoop all_steps past idx, false)
    end
  else ret (mkLoop all_steps past idx, false).

(** One pass through the body of the [while] loop. *)
Definition loop_body (pid title : string) (ls : loop_state)
  : Py run_state (loop_state * bool) :=
  match steps ls !! step_index ls with
  | None => fun rs => (Raise (Exception "IndexError"), rs)
  | Some st =>
      done_step <- execute_step pid ls st ;;
      replan_phase pid title (steps ls) (fst done_step) (snd done_step)
  end.

(** [while step_index < len(steps) and step_index < settings.plan_max_steps],
    run for at most [fuel] passes; [None] when the passes run out with
    the loop condition still true. *)
Fixpoint plan_loop (fuel : nat) (pid title : string) (ls : loop_state)
    (rs : run_state) : option (result loop_state * run_state) :=
  if (step_index ls <? length (steps ls))%nat
     && (Z.of_nat (step_index ls) <? plan_max_steps settings)%Z
  then
    match fuel with
    | O => None
    | S fuel' =>
        match loop_body pid title ls rs with
        | (Ok (ls', true), rs') => Some (Ok ls', rs')
        | (Ok (ls', false), rs') => plan_loop fuel' pid title ls' rs'
        | (Raise e, rs') => Some (Raise e, rs')
        end
    end
  else Some (Ok ls, rs).

(** [async def _stream_plan_execution(plan_data, ...)] *)
Definition _stream_plan_execution (fuel : nat) (plan_data : Plan)
    (rs : run_state) : option (result loop_state * run_state) :=
  match plan_loop fuel (plan_id plan_data) (plan_title plan_data)
                  (mkLoop (plan_steps plan_data) [] 0) rs with
  | None => None
  | Some (Ok ls, rs') => Some (Ok ls, snd (emit Done rs'))
  | Some (Raise e, rs') => Some (Raise e, rs')
  end.

End Run.

(** The number of steps a trace shows as started. *)
Definition steps_started (tr : list event) : nat :=
  length (List.filter
            (fun e => match e with
                      | PlanUpdated _ _ status => String.eqb status "running"
                      | _ => false
                      end) tr).

Definition empty_run : run_state := mkRun [] [].

(** The highest step id in a plan ([0] for the empty plan). *)
Definition highest_id (l : list step) : Z :=
  fold_right Z.max 0%Z (map (fun '(i, s) => step_id_of s i) (enumerate 0 l)).

(** The ids of the steps of a plan, in order. *)
Definition step_ids (l : list step) : list Z :=
  map (fun '(i, s) => step_id_of s i) (enumerate 0 l).

(** A plan of three steps with ids 1, 2, 3, an executor that answers
    every step with one token, and a replanner that revises the plan to
    two new steps after the first step and lets it run after that. *)
Definition three_steps : list step :=
  [StepDict 1 "collect" "pending"; StepDict 2 "analyse" "pending";
   StepDict 3 "report" "pending"].

Definition demo_settings : Settings := mkSettings 8 true false.

Definition demo_agent (i : nat) (l : list step) (past : list (string * string))
  : list raw_event :=
  [on_chat_model_start "run-0001"; on_chat_model_stream "ok";
   on_chat_model_end "run-0001"].

Definition revise_after_first (p : replan_prompt) : result ReplanDecision :=
  if (length (rp_past p) =? 1)%nat
  then Ok (mkDecision "revise" "" ["  draft "; "publish"] "scope changed")
  else Ok (mkDecision "continue" "" [] "").

(** A replanner that asks for one more step after every step. *)
Definition always_extend (p : replan_prompt) : result ReplanDecision :=
  Ok (mkDecision "revise" "" ["again"; "and again"] "never done").

(** A model call that fails. *)
Definition failing_llm (p : replan_prompt) : result ReplanDecision :=
  Raise (Exception "TimeoutError").

(** The reading of C1 in the specification: the ids of the new steps
    continue from the highest id in the plan. *)
Definition revise_ids_continue_from_highest : Prop :=
  forall settings llm pid title all_steps past idx rs d rs1,
    (idx < length all_steps)%nat ->
    _evaluate_replan settings llm title all_steps past idx rs = (Ok (Some d), rs1) ->
    action d = "revise" ->
    revised_steps d <> [] ->
    exists ls' rs',
      replan_phase settings llm pid title all_steps past idx rs = (Ok (ls', false), rs') /\
      step_ids (drop idx (steps ls')) =
        map (fun i => (highest_id all_steps + Z.of_nat i + 1)%Z)
            (seq 0 (length (revised_steps d))).

End Agent.

(** ** [cache/memory_cache.py]: the in-memory tier of the prompt cache *)

Module MemoryCache.

Section Values.

Context {V : Type}.

(** An entry of [self._cache]. *)
Record entry : Type := mkEntry {
  value : V;
  created_at : Z;
  expire_at : Z
}.

(** The calls made on [self.stats]; [CacheStats] itself lives in
    [cache/base.py]. *)
Inductive stat : Type :=
  | record_hit
  | record_miss
  | record_set
  | record_delete.

(** The fields of a [MemoryCache].  [_cache] is the [OrderedDict], from
    the least to the most recently used key; the clock counts whole
    seconds. *)
Record cache : Type := mkCache {
  max_size : Z;
  default_ttl : Z;
  _cache : list (string * entry);
  stats : list stat
}.

(** [MemoryCache(max_size, default_ttl)] *)
Definition new_cache (max_size default_ttl : Z) : cache :=
  mkCache max_size default_ttl [] [].

Definition keys (c : cache) : list string := map fst (_cache c).

(** [key in self._cache] *)
Definition contains (key : string) (c : cache) : bool :=
  existsb (String.eqb key) (keys c).

Definition with_items (c : cache) (items : list (string * entry)) : cache :=
  mkCache (max_size c) (default_ttl c) items (stats c).

Definition record (s : stat) : Py cache unit :=
  modify (fun c => mkCache (max_size c) (default_ttl c) (_cache c) (stats c ++ [s])).

Definition remove_key (key : string) (items : list (string * entry))
  : list (string * entry) :=
  List.filter (fun kv => negb (String.eqb key (fst kv))) items.

(** [self._cache.move_to_end(key)] for a key of the cache. *)
Definition move_to_end (key : string) (items : list (string * entry))
  : list (string * entry) :=
  match PyVal.assoc key items with
  | Some e => remove_key key items ++ [(key, e)]
  | None => items
  end.

(** [self._cache[key] = entry]: in place for a key of the cache, at the
    end for a new key. *)
Fixpoint store (key : string) (e : entry) (items : list (string * entry))
  : list (string * entry) :=
  match items with
  | [] => [(key, e)]
  | (k, e0) :: rest =>
      if String.eqb key k then (k, e) :: rest else (k, e0) :: store key e rest
  end.

(** [def _delete_unlocked(self, key)] *)
Definition _delete_unlocked (key : string) : Py cache bool :=
  c <- get_state ;;
  if contains key c then
    put_state (with_items c (remove_key key (_cache c))) ;;;
    record record_delete ;;;
    ret true
  else ret false.

(** [def get(self, key)], at clock reading [now]. *)
Definition get (now : Z) (key : string) : Py cache (option V) :=
  c <- get_state ;;
  match PyVal.assoc key (_cache c) with
  | None => record record_miss ;;; ret None
  | Some e =>
      if (expire_at e <? now)%Z then
        _delete_unlocked key ;;;
        record record_miss ;;;
        ret None
      else
        modify (fun c => with_items c (move_to_end key (_cache c))) ;;;
        record record_hit ;;;
        ret (Some (value e))
  end.

(** [def set(self, key, value, ttl=None)], at clock reading [now].
    [next(iter(self._cache))] on an empty cache raises
    [StopIteration]. *)
Definition set (now : Z) (key : string) (v : V) (ttl : option Z) : Py cache unit :=
  c <- get_state ;;
  let ttl := match ttl with Some t => t | None => default_ttl c end in
  let e := mkEntry v now (now + ttl)%Z in
  (if contains key c then
     put_state (with_items c (move_to_end key (store key e (_cache c))))
   else
     (if (max_size c <=? Z.of_nat (length (_cache c)))%Z then
        match _cache c with
        | [] => fun s => (Raise (Exception "StopIteration"), s)
        | (oldest_key, _) :: _ => _delete_unlocked oldest_key ;;; ret tt
        end
      else ret tt) ;;;
     modify (fun c => with_items c (store key e (_cache c)))) ;;;
  record record_set.

(** [def delete(self, key)] *)
Definition delete (key : string) : Py cache bool := _delete_unlocked key.

(** [def clear(self)] *)
Definition clear : Py cache Z :=
  c <- get_state ;;
  put_state (with_items c []) ;;;
  ret (Z.of_nat (length (_cache c))).

(** [def exists(self, key)], at clock reading [now]. *)
Definition exists_ (now : Z) (key : string) : Py cache bool :=
  c <- get_state ;;
  match PyVal.assoc key (_cache c) with
  | None => ret false
  | Some e =>
      if (expire_at e <? now)%Z then _delete_unlocked key ;;; ret false
      else ret true
  end.

(** [for key in expired_keys: self._delete_unlocked(key)] *)
Fixpoint delete_all (ks : list string) : Py cache unit :=
  match ks with
  | [] => ret tt
  | k :: rest => _delete_unlocked k ;;; delete_all rest
  end.

(** [def cleanup_expired(self)], at clock reading [now]. *)
Definition cleanup_expired (now : Z) : Py cache Z :=
  c <- get_state ;;
  let expired_keys :=
    map fst (List.filter (fun kv => (expire_at (snd kv) <? now)%Z) (_cache c)) in
  delete_all expired_keys ;;;
  ret (Z.of_nat (length expired_keys)).

(** [def __len__(self)] *)
Definition len (c : cache) : Z := Z.of_nat (length (_cache c)).

(** A call on the cache, and a sequence of calls one after the other. *)
Inductive call : Type :=
  | CGet (now : Z) (key : string)
  | CSet (now : Z) (key : string) (v : V) (ttl : option Z)
  | CDelete (key : string)
  | CClear
  | CExists (now : Z) (key : string)
  | CCleanup (now : Z).

Definition run_call (op : call) (c : cache) : cache :=
  match op with
  | CGet now key => snd (get now key c)
  | CSet now key v ttl => snd (set now key v ttl c)
  | CDelete key => snd (delete key c)
  | CClear => snd (clear c)
  | CExists now key => snd (exists_ now key c)
  | CCleanup now => snd (cleanup_expired now c)
  end.

Definition run_calls (ops : list call) (c : cache) : cache :=
  fold_left (fun c op => run_call op c) ops c.

(** The keys of the items are pairwise distinct and there are at most
    [m] of them. *)
Definition within (m : Z) (items : list (string * entry)) : Prop :=
  NoDup (map fst items) /\ (Z.of_nat (length items) <= m)%Z.

(** The keys are pairwise distinct and the cache is not over its
    size. *)
Definition within_size (c : cache) : Prop :=
  NoDup (keys c) /\ (len c <= max_size c)%Z.

End Values.

Arguments entry : clear implicits.
Arguments cache : clear implicits.
Arguments call : clear implicits.

End MemoryCache.

(** ** [cleanup_old_checkpoints]: what one run keeps and removes *)

Module Retention.
Import GraphBuilder.

(** The keys of conversation [t] among [keys], in their order. *)
Definition thread_keys (t : string) (keys : list skey) : list skey :=
  filter (fun k => thread_of k = Some t) keys.

(** The number of checkpoints the store holds for conversation [t]. *)
Definition thread_count (t : string) (st : gb_state) : Z :=
  Z.of_nat (length (thread_keys t (stored_keys st))).

(** The keys the loop over [by_thread] hands to [del], in that order. *)
Definition doomed (max_per_thread : Z) (by_thread : list (string * list skey))
  : list skey :=
  flat_map
    (fun entry =>
       if (Z.of_nat (length (snd entry)) <=? max_per_thread)%Z then []
       else slice_from max_per_thread (sorted_desc (snd entry)))
    by_thread.

(** [a] does not sort below [b]: the order of [sorted(..., reverse=True)]. *)
Definition not_below (a b : skey) : Prop :=
  String.ltb (sort_key a) (sort_key b) = false.

(** Every key seen so far that belongs to a conversation is in the
    group of that conversation. *)
Definition complete (seen : list skey) (by_thread : list (string * list skey)) : Prop :=
  forall k t, In k seen -> thread_of k = Some t ->
    exists ks, PyVal.assoc t by_thread = Some ks /\ In k ks.

(** The cleanup is due at clock reading [now]. *)
Definition due (now : Z) (st : gb_state) : Prop :=
  (_CHECKPOINT_CLEANUP_INTERVAL <= now - _last_checkpoint_cleanup st)%Z.

(** A store with [n] checkpoints of conversation [t1], numbered from 1,
    one checkpoint of conversation [t2] and one key that is no tuple. *)
Definition busy_store (n : nat) : gb_state :=
  mkState (∅ : gmap string compiled)
    ((KOther "meta", "m") :: (KTuple ["t2"; ""; "1"], "other") ::
     map (fun i => (KTuple ["t1"; ""; PyVal.string_of_Z (Z.of_nat i)], "snapshot"))
         (seq 1 n))
    0 0.

End Retention.

(** ** [_stream_plan_execution]: what a consumer of the events sees *)

Module PlanTrace.
Import Agent.

(** The step ids of the plan-updated events with the given status, in
    the order of the events. *)
Definition marked (status : string) (tr : list event) : list Z :=
  flat_map (fun e => match e with
                     | PlanUpdated _ i s => if String.eqb s status then [i] else []
                     | _ => []
                     end) tr.

Definition started_ids : list event -> list Z := marked "running".
Definition completed_ids : list event -> list Z := marked "completed".

(** The step display of a consumer that reads the events of plan [pid]
    one by one: [running] is the id of the step shown as running, if
    any.  A step starts only when none is running, the running step is
    the only one that can complete while it runs, steps are marked
    completed without having run only between steps, model and tool
    events arrive only while a step runs, and a revision and the end of
    the run arrive only between steps. *)
Fixpoint sequential (pid : string) (running : option Z) (tr : list event) : bool :=
  match tr with
  | [] => match running with None => true | Some _ => false end
  | e :: rest =>
      match e with
      | PlanUpdated p i s =>
          String.eqb p pid &&
          match running with
          | None =>
              if String.eqb s "running" then sequential pid (Some i) rest
              else String.eqb s "completed" && sequential pid None rest
          | Some j =>
              String.eqb s "completed" && (i =? j)%Z && sequential pid None rest
          end
      | Token _ => sequential pid running rest
      | LlmStart _ | LlmEnd _ | ToolStart _ | ToolEnd _ =>
          match running with
          | None => false
          | Some _ => sequential pid running rest
          end
      | PlanRevised p _ _ _ =>
          String.eqb p pid &&
          match running with None => sequential pid None rest | Some _ => false end
      | Done =>
          match running with None => sequential pid None rest | Some _ => false end
      end
  end.

(** The text of the tokens among the events. *)
Fixpoint token_text (out : list event) : string :=
  match out with
  | [] => ""
  | Token content :: rest => content +:+ token_text rest
  | _ :: rest => token_text rest
  end.

(** The contents of the stream chunks of the sub-agent that are not
    empty, in order. *)
Definition chunks (evs : list raw_event) : list string :=
  flat_map (fun ev => match ev with
                      | on_chat_model_stream content =>
                          if String.eqb content "" then [] else [content]
                      | _ => []
                      end) evs.

Definition tokens (out : list event) : list string :=
  flat_map (fun e => match e with Token content => [content] | _ => [] end) out.

(** Every [llm_end] event closes a model call that an earlier
    [llm_start] event opened and no other [llm_end] closed: [open]
    counts the calls that are open. *)
Fixpoint ends_matched (open : nat) (out : list event) : bool :=
  match out with
  | [] => true
  | LlmStart _ :: rest => ends_matched (S open) rest
  | LlmEnd _ :: rest =>
      match open with
      | O => false
      | S n => ends_matched n rest
      end
  | _ :: rest => ends_matched open rest
  end.

(** The ids of the steps [l] that stand from position [start] on. *)
Definition ids_from (start : nat) (l : list step) : list Z :=
  map (fun '(i, s) => step_id_of s i) (enumerate start l).

(** An event of the sub-agent of a step. *)
Definition inner (e : event) : bool :=
  match e with
  | Token _ | LlmStart _ | LlmEnd _ | ToolStart _ | ToolEnd _ => true
  | _ => false
  end.

(** The events that mark the steps from position [k] on as completed
    when the plan is finished early. *)
Definition skipped (pid : string) (k : nat) (l : list step) : list event :=
  map (fun '(i, s) => PlanUpdated pid (step_id_of s i) "completed")
      (enumerate k (drop k l)).

Section Passes.

Variable settings : Settings.
Variable sub_agent : nat -> list step -> list (string * string) -> list raw_event.
Variable pid : string.

(** The condition of the [while] loop. *)
Definition running (ls : loop_state) : bool :=
  (step_index ls <? length (steps ls))%nat
  && (Z.of_nat (step_index ls) <? plan_max_steps settings)%Z.

(** The events of the step [st] at the position of [ls], and the loop
    variables after it. *)
Definition step_block (ls : loop_state) (st : step) : list event :=
  [PlanUpdated pid (step_id_of st (step_index ls)) "running"]
  ++ fst (handle_events (sub_agent (step_index ls) (steps ls) (past_steps ls)) [] "")
  ++ [PlanUpdated pid (step_id_of st (step_index ls)) "completed"].

Definition past_after (ls : loop_state) (st : step) : list (string * string) :=
  past_steps ls
  ++ [(step_title_of st,
       substring 0 1000
         (snd (handle_events (sub_agent (step_index ls) (steps ls) (past_steps ls))
                             [] "")))].

(** The shapes a run of the loop can have, pass by pass: the events it
    emits from the loop variables [ls] on, and how it ends. *)
Inductive run_shape : loop_state -> list event -> result loop_state -> Prop :=
  | shape_stop ls :
      running ls = false ->
      run_shape ls [] (Ok ls)
  | shape_continue ls st evs out :
      running ls = true ->
      steps ls !! step_index ls = Some st ->
      run_shape (mkLoop (steps ls) (past_after ls st) (S (step_index ls))) evs out ->
      run_shape ls (step_block ls st ++ evs) out
  | shape_revise ls st d evs out :
      running ls = true ->
      steps ls !! step_index ls = Some st ->
      (S (step_index ls) < length (steps ls))%nat ->
      run_shape
        (mkLoop (take (S (step_index ls)) (steps ls)
                 ++ revision_steps (S (step_index ls)) (revised_steps d))
                (past_after ls st) (S (step_index ls)))
        evs out ->
      run_shape ls
        (step_block ls st
         ++ [PlanRevised pid (revision_steps (S (step_index ls)) (revised_steps d))
               (S (step_index ls)) (reason d)]
         ++ evs)
        out
  | shape_finish ls st d :
      running ls = true ->
      steps ls !! step_index ls = Some st ->
      run_shape ls
        (step_block ls st
         ++ skipped pid (S (step_index ls)) (steps ls)
         ++ (if String.eqb (response d) "" then []
             else [Token (String newline (String newline (response d)))]))
        (Ok (mkLoop (steps ls) (past_after ls st) (S (step_index ls))))
  | shape_raise ls st cls :
      running ls = true ->
      steps ls !! step_index ls = Some st ->
      run_shape ls (step_block ls st) (Raise (BaseExceptionOnly cls)).

End Passes.

(** A replanner that leaves the plan alone: it answers neither finish
    nor a revision with steps, and when its call fails, it fails with an
    [Exception]. *)
Definition benign (structured_llm : replan_prompt -> result ReplanDecision) : Prop :=
  forall p,
    match structured_llm p with
    | Ok d => action d <> "finish" /\ (action d = "revise" -> revised_steps d = [])
    | Raise (Exception _) => True
    | Raise (BaseExceptionOnly _) => False
    end.

(** A replanner that answers continue, whatever the prompt. *)
Definition always_continue (p : replan_prompt) : result ReplanDecision :=
  Ok (mkDecision "continue" "" [] "on track").

(** A replanner that ends the plan after the first step. *)
Definition finish_after_first (p : replan_prompt) : result ReplanDecision :=
  if (length (rp_past p) =? 1)%nat
  then Ok (mkDecision "finish" "all done" [] "goal reached")
  else Ok (mkDecision "continue" "" [] "").

End PlanTrace.

(** ** The approval gate between the two phases of a run *)

Module ApprovalFlow.
Import PlanApproval Agent.

(** The calls other tasks make on the registry: the runs of other
    sessions register and consume, the approval endpoint resolves. *)
Inductive op : Type :=
  | Register (plan_id : string)
  | Resolve (plan_id : string) (approved : bool)
  | Consume (plan_id : string).

Definition op_plan (o : op) : string :=
  match o with
  | Register p => p
  | Resolve p _ => p
  | Consume p => p
  end.

Definition run_op (o : op) (r : registry) : registry :=
  match o with
  | Register p => snd (register_plan_approval p r)
  | Resolve p b => snd (resolve_plan_approval p b r)
  | Consume p => snd (get_plan_approval_result p r)
  end.

Definition run_ops (ops : list op) (r : registry) : registry :=
  fold_left (fun r o => run_op o r) ops r.

(** None of the calls is about [plan_id]. *)
Definition apart (plan_id : string) (ops : list op) : bool :=
  forallb (fun o => negb (String.eqb (op_plan o) plan_id)) ops.

(** Every registered event has been created, and two plan ids never
    wait on the same event. *)
Definition registry_ok (r : registry) : Prop :=
  (forall p e, _plan_approval_events r !! p = Some e -> e < ev_next r) /\
  (forall p q e, _plan_approval_events r !! p = Some e ->
                 _plan_approval_events r !! q = Some e -> p = q).

(** ["\n\n用户已拒绝计划执行。"] *)
Definition rejection_text : string :=
  String newline (String newline "用户已拒绝计划执行。").

(** The registry, the events of the run, and the approval requests sent
    through [_send_plan_event]. *)
Record gate_state : Type := mkGate {
  reg : registry;
  run : run_state;
  requests : list Plan
}.

Section Gate.

Variable settings : Settings.
Variable sub_agent : nat -> list step -> list (string * string) -> list raw_event.
Variable structured_llm : replan_prompt -> result ReplanDecision.

(** [async for event in _stream_plan_execution(...): yield event] *)
Definition execute (fuel : nat) (plan_data : Plan) (g : gate_state)
  : option (result (option loop_state) * gate_state) :=
  match _stream_plan_execution settings sub_agent structured_llm fuel plan_data (run g) with
  | None => None
  | Some (Ok ls, rs') => Some (Ok (Some ls), mkGate (reg g) rs' (requests g))
  | Some (Raise e, rs') => Some (Raise e, mkGate (reg g) rs' (requests g))
  end.

(** The end of [_stream_simple_agent] in streaming mode, from
    [if plan_detected and plan_data:] on.  [during_wait] are the calls
    other tasks make on the registry between the registration and the
    moment the run goes on after [await approval_event.wait()]; the
    result is [None] when the run is still waiting after them (or the
    passes of the plan loop run out). *)
Definition enter_plan (fuel : nat) (plan : option Plan) (during_wait : list op)
    (g : gate_state) : option (result (option loop_state) * gate_state) :=
  match plan with
  | None => Some (Ok None, mkGate (reg g) (snd (emit Done (run g))) (requests g))
  | Some plan_data =>
      if plan_require_approval settings then
        let sent := requests g ++ [plan_data] in
        match register_plan_approval (plan_id plan_data) (reg g) with
        | (Ok approval_event, r1) =>
            let r2 := run_ops during_wait r1 in
            if is_set approval_event r2 then
              match get_plan_approval_result (plan_id plan_data) r2 with
              | (Ok approved, r3) =>
                  if approved then execute fuel plan_data (mkGate r3 (run g) sent)
                  else
                    Some (Ok None,
                          mkGate r3
                            (snd ((emit (Token rejection_text) ;;; emit Done) (run g)))
                            sent)
              | (Raise e, r3) => Some (Raise e, mkGate r3 (run g) sent)
              end
            else None
        | (Raise e, r1) => Some (Raise e, mkGate r1 (run g) sent)
        end
      else execute fuel plan_data g
  end.

End Gate.

End ApprovalFlow.

(** ** The executor routes of [build_graph] and [executor_pre_node] *)

Module ExecutorRouting.
Import PyVal GraphBuilder.

(** Sequencing of statements that can raise. *)
Definition and_then {A B : Type} (r : result A) (k : A -> result B) : result B :=
  match r with
  | Ok a => k a
  | Raise e => Raise e
  end.

Notation "x <~ r ;; k" := (and_then r (fun x => k))
  (at level 100, r at next level, right associativity).

(** [len(x)]; a [str] is taken to be ASCII text. *)
Definition py_len (v : pyval) : result Z :=
  match v with
  | PStr s => Ok (Z.of_nat (String.length s))
  | PList l => Ok (Z.of_nat (length l))
  | PDict l => Ok (Z.of_nat (length l))
  | _ => Raise (Exception "TypeError")
  end.

(** The number an operand of [>=] stands for when the other operand is
    an [int]; [bool] is a subclass of [int], everything else has no
    order with an [int]. *)
Definition as_int (v : pyval) : result Z :=
  match v with
  | PInt z => Ok z
  | PBool b => Ok (if b then 1 else 0)%Z
  | _ => Raise (Exception "TypeError")
  end.

(** [x[i]] for a number [i]: a sequence counts a negative [i] from its
    end; a [dict] of this model has [str] keys only. *)
Definition py_index (v : pyval) (i : Z) : result pyval :=
  let at_ {A : Type} (l : list A) : option A :=
    if (i <? 0)%Z then
      (if (i + Z.of_nat (length l) <? 0)%Z then None
       else l !! Z.to_nat (i + Z.of_nat (length l)))
    else l !! Z.to_nat i in
  match v with
  | PList l =>
      match at_ l with
      | Some x => Ok x
      | None => Raise (Exception "IndexError")
      end
  | PStr s =>
      match at_ (list_ascii_of_string s) with
      | Some c => Ok (PStr (String c EmptyString))
      | None => Raise (Exception "IndexError")
      end
  | PDict _ => Raise (Exception "KeyError")
  | _ => Raise (Exception "TypeError")
  end.

(** [d[key]] for a [dict] [d]. *)
Definition py_item (items : list (string * pyval)) (key : string) : result pyval :=
  match assoc key items with
  | Some v => Ok v
  | None => Raise (Exception "KeyError")
  end.

(** The bodies of [_route_executor_no_replanner] and
    [_route_executor_minimal], which differ in the label they return
    when no step is left: ["summarizer"] and [END].  [nodes_cfg] is the
    variable of [build_graph] the closures refer to; [state] is a
    [dict]. *)
Definition route_executor (no_step : string) (nodes_cfg state : pyval)
  : result string :=
  plan_data <~ py_get state "plan_data" PNone ;;
  if negb (truthy plan_data) then Ok no_step
  else
    step_index <~ py_get state "current_step_index" (PInt 0) ;;
    steps <~ py_get plan_data "steps" (PList []) ;;
    total_steps <~ py_len steps ;;
    executor_cfg <~ py_get nodes_cfg "executor" (PDict []) ;;
    max_steps <~ py_get executor_cfg "max_steps" (PInt 8) ;;
    i <~ as_int step_index ;;
    if (total_steps <=? i)%Z then Ok no_step
    else
      m <~ as_int max_steps ;;
      if (m <=? i)%Z then Ok no_step else Ok "executor_pre".

(** The function behind a router of the graph, for the two routers
    that [build_graph] defines itself. *)
Definition closure (r : router) : option (pyval -> pyval -> result string) :=
  match r with
  | _route_executor_no_replanner => Some (route_executor "summarizer")
  | _route_executor_minimal => Some (route_executor END)
  | _ => None
  end.

(** The one entry of ["pending_events"]. *)
Record plan_updated : Type := mkUpdated {
  pu_plan_id : pyval;
  pu_step_id : pyval;
  pu_status : string
}.

(** [async def executor_pre_node(state, config)]: the entries of
    ["pending_events"] in the dict it returns, none for [{}]. *)
Definition executor_pre_node (state : pyval) : result (list plan_updated) :=
  plan_data <~ py_get state "plan_data" PNone ;;
  if negb (truthy plan_data) then Ok []
  else
    steps <~ py_get plan_data "steps" (PList []) ;;
    step_index <~ py_get state "current_step_index" (PInt 0) ;;
    total <~ py_len steps ;;
    i <~ as_int step_index ;;
    if (total <=? i)%Z then Ok []
    else
      step <~ py_index steps i ;;
      step_id <~ match step with
                 | PDict items => py_item items "id"
                 | _ => Ok (PInt (i + 1))
                 end ;;
      plan_id <~ py_get plan_data "plan_id" (PStr "") ;;
      step_title <~ match step with
                    | PDict items => py_item items "title"
                    | _ => Ok (PStr "")
                    end ;;
      Ok [mkUpdated plan_id step_id "running"].

(** A state whose plan has two steps and whose second step is due. *)
Definition sample_state : pyval :=
  PDict [("plan_data",
          PDict [("plan_id", PStr "p1");
                 ("steps", PList [PDict [("id", PInt 1); ("title", PStr "collect")];
                                  PDict [("id", PInt 2); ("title", PStr "report")]])]);
         ("current_step_index", PInt 1)].

End ExecutorRouting.

(** ** [_stream_simple_agent] in streaming mode *)

Module SimpleAgent.
Import PlanApproval Agent ApprovalFlow.

(** The [async for event in agent.astream_events(...)] loop of phase 1:
    the events it yields and the plan it leaves the loop with, if any.
    [get_latest_plan] is what [tools.plan_tool.get_latest_plan()]
    returns when called at the event at position [pos] of the stream;
    [tracking] holds the keys of [debug_tracking].  (With [debug]
    off.) *)
Fixpoint phase1 (get_latest_plan : nat -> option Plan) (pos : nat)
    (evs : list raw_event) (tracking : list string) : list event * option Plan :=
  match evs with
  | [] => ([], None)
  | ev :: rest =>
      match ev with
      | on_chat_model_stream content =>
          if String.eqb content "" then phase1 get_latest_plan (S pos) rest tracking
          else
            let (out, plan) := phase1 get_latest_plan (S pos) rest tracking in
            (Token content :: out, plan)
      | on_chat_model_start run_id =>
          let (out, plan) := phase1 get_latest_plan (S pos) rest (run_id :: tracking) in
          (LlmStart (substring 0 12 run_id) :: out, plan)
      | on_chat_model_end run_id =>
          if existsb (String.eqb run_id) tracking then
            let (out, plan) :=
              phase1 get_latest_plan (S pos) rest
                (List.filter (fun x => negb (String.eqb run_id x)) tracking) in
            (LlmEnd (substring 0 12 run_id) :: out, plan)
          else phase1 get_latest_plan (S pos) rest tracking
      | on_tool_start name =>
          let (out, plan) := phase1 get_latest_plan (S pos) rest tracking in
          (ToolStart name :: out, plan)
      | on_tool_end name =>
          let go_on :=
            let (out, plan) := phase1 get_latest_plan (S pos) rest tracking in
            (ToolEnd name :: out, plan) in
          if String.eqb name "plan_create" then
            match get_latest_plan pos with
            | Some plan_data => ([ToolEnd name], Some plan_data)
            | None => go_on
            end
          else go_on
      | on_other => phase1 get_latest_plan (S pos) rest tracking
      end
  end.

Section Stream.

Variable settings : Settings.
Variable sub_agent : nat -> list step -> list (string * string) -> list raw_event.
Variable structured_llm : replan_prompt -> result ReplanDecision.

(** [async def _stream_simple_agent(message, session_history,
    stream=True)]: [agent_events] is the stream of the phase 1 agent for
    the messages built from the history and the message. *)
Definition _stream_simple_agent (fuel : nat) (get_latest_plan : nat -> option Plan)
    (agent_events : list raw_event) (during_wait : list op) (g : gate_state)
  : option (result (option loop_state) * gate_state) :=
  let (yielded, plan) := phase1 get_latest_plan 0 agent_events [] in
  enter_plan settings sub_agent structured_llm fuel plan during_wait
    (mkGate (reg g) (snd (emit_all yielded (run g))) (requests g)).

End Stream.

(** A phase 1 stream in which the agent calls [plan_create]. *)
Definition planning_stream : list raw_event :=
  [on_chat_model_start "run-0000"; on_chat_model_stream "let me plan";
   on_chat_model_end "run-0000"; on_tool_start "plan_create";
   on_tool_end "plan_create"; on_chat_model_stream "not reached"].

End SimpleAgent.

(** * Properties *)

(** ** The order of Python strings *)

Module StringOrder.

Lemma ltb_asym (a b : string) : String.ltb a b = true -> String.ltb b a = false.
Proof.
  unfold String.ltb. rewrite (String.compare_antisym b a).
  by destruct (String.compare a b).
Qed.

Lemma ltb_irrefl (a : string) : String.ltb a a = false.
Proof. destruct (String.ltb a a) eqn:H; [|done]. by rewrite (ltb_asym a a H) in H. Qed.

Lemma ltb_lt (a b : string) : String.ltb a b = true <-> String_as_OT.lt a b.
Proof.
  rewrite <- String_as_OT.cmp_lt. unfold String.ltb, String_as_OT.cmp.
  by destruct (String.compare a b).
Qed.

Lemma ltb_trans (a b c : string) :
  String.ltb a b = true -> String.ltb b c = true -> String.ltb a c = true.
Proof. rewrite !ltb_lt. apply String_as_OT.lt_trans. Qed.

Lemma ltb_total (a b : string) :
  a <> b -> String.ltb a b = false -> String.ltb b a = true.
Proof.
  unfold String.ltb. rewrite (String.compare_antisym b a).
  destruct (String.compare a b) eqn:Hc; try done.
  intros Hne _. by apply String.compare_eq_iff in Hc.
Qed.

End StringOrder.

(** ** The approval gate *)

Module ApprovalGate.
Import PlanApproval.

Ltac run_py :=
  unfold register_plan_approval, resolve_plan_approval, get_plan_approval_result,
         events_pop, event_set, new_event, bind, modify, ret, waiter, is_set;
  simpl.

Lemma resolve_absent (plan_id : string) (approved : bool) (r : registry) :
  waiter plan_id r = None ->
  resolve_plan_approval plan_id approved r = (Ok false, r).
Proof.
  destruct r as [ev rs fl nx]. run_py. intros H. rewrite H.
  f_equal. f_equal. by apply delete_id.
Qed.

Lemma resolve_present (plan_id : string) (approved : bool) (r : registry) (e : nat) :
  waiter plan_id r = Some e ->
  resolve_plan_approval plan_id approved r =
    (Ok true,
     mkRegistry (delete plan_id (_plan_approval_events r))
                (<[plan_id := approved]> (_plan_approval_results r))
                (<[e := true]> (ev_flags r)) (ev_next r)).
Proof. destruct r as [ev rs fl nx]. run_py. intros H. by rewrite H. Qed.

(** C9.  For a pending [plan_id] waiting on event [e], the first
    [resolve_plan_approval] returns [True], stores [approved] as the
    result and sets the event the waiter blocks on; every later call for
    the same [plan_id], with any boolean, returns [False] and changes
    nothing, so the stored result stays; and on a [plan_id] that is not
    registered the call returns [False] and changes nothing. *)
Theorem resolve_once (plan_id : string) (approved : bool) (r : registry) :
  (forall e, waiter plan_id r = Some e ->
     exists r1,
       resolve_plan_approval plan_id approved r = (Ok true, r1) /\
       _plan_approval_results r1 !! plan_id = Some approved /\
       is_set e r1 = true /\
       forall again, resolve_plan_approval plan_id again r1 = (Ok false, r1)) /\
  (waiter plan_id r = None ->
     resolve_plan_approval plan_id approved r = (Ok false, r)).
Proof.
  split.
  - intros e He. eexists. split; [by apply resolve_present|].
    split; [simpl; by rewrite lookup_insert_eq|].
    split; [unfold is_set; simpl; by rewrite lookup_insert_eq|].
    intros again. apply resolve_absent. unfold waiter. simpl.
    by rewrite lookup_delete_eq.
  - apply resolve_absent.
Qed.

Lemma resolve_once_witness :
  (exists r1,
     resolve_plan_approval "p1" true one_pending = (Ok true, r1) /\
     _plan_approval_results r1 !! "p1" = Some true /\
     is_set 0 r1 = true /\
     forall again, resolve_plan_approval "p1" again r1 = (Ok false, r1)) /\
  resolve_plan_approval "p2" true one_pending = (Ok false, one_pending).
Proof.
  split.
  - apply (proj1 (resolve_once "p1" true one_pending) 0). reflexivity.
  - apply (proj2 (resolve_once "p2" true one_pending)). reflexivity.
Defined.

(** C10.  After a successful [resolve_plan_approval plan_id b], the
    first [get_plan_approval_result plan_id] returns [b] and removes the
    stored entry; every further call returns the default [True] and
    leaves the registry as it is. *)
Theorem consume_roundtrip (plan_id : string) (b : bool) (r r1 : registry) :
  resolve_plan_approval plan_id b r = (Ok true, r1) ->
  exists r2,
    get_plan_approval_result plan_id r1 = (Ok b, r2) /\
    _plan_approval_results r2 !! plan_id = None /\
    get_plan_approval_result plan_id r2 = (Ok true, r2).
Proof.
  destruct r as [ev rs fl nx]. run_py.
  destruct (ev !! plan_id) as [e|] eqn:He; simpl; [|discriminate].
  intros [= <-]. simpl. eexists. split; [by rewrite lookup_insert_eq|].
  simpl. rewrite lookup_delete_eq. split; [done|].
  f_equal. f_equal. rewrite delete_id; [done|by rewrite lookup_delete_eq].
Qed.

Lemma consume_roundtrip_witness :
  exists r2,
    get_plan_approval_result "p1"
      (snd (resolve_plan_approval "p1" false one_pending)) = (Ok false, r2) /\
    _plan_approval_results r2 !! "p1" = None /\
    get_plan_approval_result "p1" r2 = (Ok true, r2).
Proof.
  apply (consume_roundtrip "p1" false one_pending). reflexivity.
Defined.

(** C2, counterexample.  With ["p1"] pending, a second
    [register_plan_approval "p1"] returns a new event, and no
    exception. *)
Lemma register_twice_succeeds :
  pending "p1" one_pending /\
  fst (register_plan_approval "p1" one_pending) = Ok 1 /\
  ~ register_rejects_duplicate.
Proof.
  assert (Hp : pending "p1" one_pending) by (by exists 0).
  split; [exact Hp|]. split; [reflexivity|].
  intros H. destruct (H "p1" one_pending Hp) as (e & r' & Heq).
  discriminate Heq.
Qed.

(** C2, amended.  Registering a [plan_id] that is pending on event [e]
    raises nothing: it returns a new event [e'], different from [e],
    and puts it in the place of [e], so the registry still holds one
    pending entry for [plan_id] (the new one) and the entries of the
    other plan ids are as before; a later resolve sets [e'] and leaves
    the flag of [e] as it was. *)
Theorem register_overwrites (plan_id : string) (r : registry) (e : nat) :
  waiter plan_id r = Some e ->
  e < ev_next r ->
  exists e' r',
    register_plan_approval plan_id r = (Ok e', r') /\
    e' <> e /\
    waiter plan_id r' = Some e' /\
    (forall other, other <> plan_id -> waiter other r' = waiter other r) /\
    _plan_approval_results r' = _plan_approval_results r /\
    forall approved,
      is_set e (snd (resolve_plan_approval plan_id approved r')) = is_set e r.
Proof.
  intros He Hlt. destruct r as [ev rs fl nx]. simpl in *.
  exists nx. eexists. split; [reflexivity|].
  split; [lia|]. unfold waiter in *; simpl in *.
  split; [by rewrite lookup_insert_eq|].
  split; [intros other Ho; by rewrite lookup_insert_ne|].
  split; [done|].
  intros approved. run_py. rewrite lookup_insert_eq. simpl.
  rewrite lookup_insert_ne by lia. rewrite lookup_insert_ne by lia. done.
Qed.

Lemma register_overwrites_witness :
  exists e' r',
    register_plan_approval "p1" one_pending = (Ok e', r') /\
    e' <> 0 /\
    waiter "p1" r' = Some e' /\
    (forall other, other <> "p1" -> waiter other r' = waiter other one_pending) /\
    _plan_approval_results r' = _plan_approval_results one_pending /\
    forall approved,
      is_set 0 (snd (resolve_plan_approval "p1" approved r')) = is_set 0 one_pending.
Proof.
  apply (register_overwrites "p1" one_pending 0).
  - reflexivity.
  - vm_compute. lia.
Defined.

End ApprovalGate.

(** ** The plan loop and the replanner *)

Module PlanRunner.
Import Agent.

Lemma steps_started_app (a b : list event) :
  steps_started (a ++ b) = steps_started a + steps_started b.
Proof. unfold steps_started. by rewrite List.filter_app, length_app. Qed.

Lemma handle_events_started (evs : list raw_event) :
  forall tracking resp,
    steps_started (fst (handle_events evs tracking resp)) = 0.
Proof.
  induction evs as [|ev evs IH]; intros tracking resp; simpl; [done|].
  destruct ev; simpl;
    repeat match goal with
           | |- context [if ?b then _ else _] => destruct b
           | |- context [let (_, _) := handle_events ?e ?t ?r in _] =>
               specialize (IH t r); destruct (handle_events e t r)
           end; simpl in *; auto.
Qed.

Section Facts.

Variable settings : Settings.
Variable sub_agent : nat -> list step -> list (string * string) -> list raw_event.
Variable structured_llm : replan_prompt -> result ReplanDecision.

Lemma execute_step_spec (pid : string) (ls : loop_state) (st : step) (rs : run_state) :
  exists past rs',
    execute_step sub_agent pid ls st rs = (Ok (past, S (step_index ls)), rs') /\
    steps_started (trace rs') = S (steps_started (trace rs)) /\
    llm_calls rs' = llm_calls rs.
Proof.
  unfold execute_step.
  pose proof (handle_events_started
                (sub_agent (step_index ls) (steps ls) (past_steps ls)) [] "") as Hh.
  destruct (handle_events _ _ _) as [yielded resp]. simpl in Hh.
  eexists. eexists. split; [reflexivity|]. simpl. split; [|done].
  rewrite !steps_started_app, Hh. simpl. unfold steps_started at 2 3. simpl. lia.
Qed.

Lemma evaluate_replan_trace (title : string) (l : list step)
    (past : list (string * string)) (idx : nat) (rs : run_state) :
  trace (snd (_evaluate_replan settings structured_llm title l past idx rs)) = trace rs.
Proof.
  unfold _evaluate_replan.
  destruct (plan_revision_enabled settings); simpl; [|done].
  destruct (drop idx l); simpl; [done|].
  unfold try_except, bind, ainvoke, ret. simpl.
  destruct (structured_llm _) as [d|[c|c]]; done.
Qed.

Lemma replan_phase_spec (pid title : string) (l : list step)
    (past : list (string * string)) (idx : nat) (rs : run_state) res rs' :
  replan_phase settings structured_llm pid title l past idx rs = (res, rs') ->
  steps_started (trace rs') = steps_started (trace rs) /\
  forall ls' brk, res = Ok (ls', brk) -> step_index ls' = idx.
Proof.
  unfold replan_phase.
  destruct (0 <? _)%Z; [|by intros [= <- <-]; split; [|intros ?? [= <- _]]].
  unfold bind at 1.
  pose proof (evaluate_replan_trace title l past idx rs) as Ht.
  destruct (_evaluate_replan _ _ _ _ _ _ _) as [[[d|]|e] rs1]; simpl in Ht.
  - destruct (String.eqb (action d) "finish").
    + unfold bind, emit_all, emit, modify, ret. simpl.
      assert (Hc : forall n (r : list step),
                 steps_started
                   (map (fun '(i, s) => PlanUpdated pid (step_id_of s i) "completed")
                        (enumerate n r)) = 0).
      { intros n r. revert n. induction r as [|x r IH]; intros n; [done|].
        simpl. unfold steps_started in *. simpl. apply IH. }
      destruct (String.eqb (response d) ""); simpl; intros [= <- <-]; simpl;
        rewrite ?steps_started_app, Hc, Ht;
        (split; [unfold steps_started; simpl; lia|by intros ?? [= <- _]]).
    + destruct (_ && _).
      * unfold bind, emit, modify, ret. simpl. intros [= <- <-]. simpl.
        rewrite steps_started_app, Ht. unfold steps_started at 2. simpl.
        split; [lia|by intros ?? [= <- _]].
      * simpl. intros [= <- <-]. rewrite Ht. split; [done|by intros ?? [= <- _]].
  - simpl. intros [= <- <-]. rewrite Ht. split; [done|by intros ?? [= <- _]].
  - simpl. intros [= <- <-]. rewrite Ht. split; [done|by intros ??].
Qed.

Lemma loop_body_spec (pid title : string) (ls : loop_state) (rs : run_state) res rs' :
  (step_index ls < length (steps ls))%nat ->
  loop_body settings sub_agent structured_llm pid title ls rs = (res, rs') ->
  steps_started (trace rs') = S (steps_started (trace rs)) /\
  forall ls' brk, res = Ok (ls', brk) -> step_index ls' = S (step_index ls).
Proof.
  intros Hlt. unfold loop_body.
  destruct (lookup_lt_is_Some_2 (steps ls) (step_index ls) Hlt) as [st Hst].
  rewrite Hst. unfold bind at 1.
  destruct (execute_step_spec pid ls st rs) as (past & rs1 & He & Hs & _).
  rewrite He. simpl. intros Hr.
  destruct (replan_phase_spec _ _ _ _ _ _ _ _ Hr) as [Ht Hi].
  rewrite Ht, Hs. done.
Qed.

Lemma plan_loop_terminates (pid title : string) (fuel : nat) :
  forall ls rs,
    (Z.to_nat (plan_max_steps settings) - step_index ls <= fuel)%nat ->
    exists out rs',
      plan_loop settings sub_agent structured_llm fuel pid title ls rs = Some (out, rs') /\
      (steps_started (trace rs') <=
       steps_started (trace rs) + (Z.to_nat (plan_max_steps settings) - step_index ls))%nat.
Proof.
  induction fuel as [|fuel IH]; intros ls rs Hf; simpl;
    destruct (_ <? _)%nat eqn:Hlen; simpl;
    try (eexists; eexists; split; [reflexivity|lia]);
    destruct (_ <? _)%Z eqn:Hmax; simpl;
    try (eexists; eexists; split; [reflexivity|lia]).
  - apply Z.ltb_lt in Hmax. lia.
  - apply Nat.ltb_lt in Hlen. apply Z.ltb_lt in Hmax.
    destruct (loop_body _ _ _ _ _ _ _) as [res rs1] eqn:Hb.
    destruct (loop_body_spec pid title ls rs res rs1 Hlen Hb) as [Hs Hi].
    destruct res as [[ls' brk]|e].
    + specialize (Hi ls' brk eq_refl).
      destruct brk.
      * eexists; eexists; split; [reflexivity|lia].
      * destruct (IH ls' rs1) as (out & rs' & Hr & Hc); [lia|].
        exists out, rs'. split; [done|]. lia.
    + eexists; eexists; split; [reflexivity|lia].
Qed.

End Facts.

(** C8.  Whatever the plan, the executor and the replanner do (also a
    replanner that revises and extends the plan after every step), the
    step loop of [_stream_plan_execution] ends within
    [settings.plan_max_steps] passes, and it starts at most that many
    steps, however long the plan is or becomes. *)
Theorem step_loop_bounded (settings : Settings)
    (sub_agent : nat -> list step -> list (string * string) -> list raw_event)
    (structured_llm : replan_prompt -> result ReplanDecision)
    (plan_data : Plan) (rs : run_state) (fuel : nat) :
  (Z.to_nat (plan_max_steps settings) <= fuel)%nat ->
  exists out rs',
    _stream_plan_execution settings sub_agent structured_llm fuel plan_data rs
      = Some (out, rs') /\
    (steps_started (trace rs') <=
     steps_started (trace rs) + Z.to_nat (plan_max_steps settings))%nat.
Proof.
  intros Hf. unfold _stream_plan_execution.
  destruct (plan_loop_terminates settings sub_agent structured_llm
              (plan_id plan_data) (plan_title plan_data) fuel
              (mkLoop (plan_steps plan_data) [] 0) rs) as (out & rs1 & Hr & Hc).
  { simpl. lia. }
  rewrite Hr. simpl in Hc. destruct out as [ls|e].
  - eexists; eexists; split; [reflexivity|]. simpl.
    rewrite steps_started_app. unfold steps_started at 2. simpl. lia.
  - eexists; eexists; split; [reflexivity|]. lia.
Qed.

Lemma step_loop_bounded_witness :
  exists out rs',
    _stream_plan_execution (mkSettings 3 true false) demo_agent always_extend 3
      (mkPlan "p1" "demo" three_steps) empty_run = Some (out, rs') /\
    (steps_started (trace rs') <= steps_started (trace empty_run) + 3)%nat.
Proof.
  apply (step_loop_bounded (mkSettings 3 true false) demo_agent always_extend
           (mkPlan "p1" "demo" three_steps) empty_run 3).
  simpl. lia.
Defined.

(** C7.  [_evaluate_replan] returns [None] with no model call (the run
    state, and with it the record of model calls, is as before) when
    replanning is switched off or no step is left from [current_index]
    on; and when the model call raises an exception, the exception is
    caught: the result is [None], the call is on record, and nothing
    was emitted. *)
Theorem evaluate_replan_fails_open (settings : Settings)
    (structured_llm : replan_prompt -> result ReplanDecision)
    (title : string) (all_steps : list step) (past : list (string * string))
    (current_index : nat) (rs : run_state) :
  (plan_revision_enabled settings = false \/ drop current_index all_steps = [] ->
   _evaluate_replan settings structured_llm title all_steps past current_index rs
     = (Ok None, rs)) /\
  (forall cls,
     plan_revision_enabled settings = true ->
     drop current_index all_steps <> [] ->
     structured_llm
       (build_prompt title past current_index (drop current_index all_steps))
       = Raise (Exception cls) ->
     _evaluate_replan settings structured_llm title all_steps past current_index rs
       = (Ok None,
          mkRun (trace rs)
                (llm_calls rs ++
                 [build_prompt title past current_index
                    (drop current_index all_steps)]))).
Proof.
  unfold _evaluate_replan. split.
  - intros [-> | ->]; [done|]. by destruct (plan_revision_enabled settings).
  - intros cls -> Hrem Hraise. simpl.
    destruct (drop current_index all_steps) as [|s0 rest] eqn:Hd; [done|].
    unfold try_except, bind, ainvoke, ret. by rewrite Hraise.
Qed.

Lemma evaluate_replan_fails_open_witness :
  _evaluate_replan (mkSettings 8 false false) failing_llm "demo" three_steps [] 1 empty_run
    = (Ok None, empty_run) /\
  _evaluate_replan demo_settings failing_llm "demo" three_steps [("collect", "ok")] 3 empty_run
    = (Ok None, empty_run) /\
  _evaluate_replan demo_settings failing_llm "demo" three_steps [("collect", "ok")] 1 empty_run
    = (Ok None,
       mkRun [] [build_prompt "demo" [("collect", "ok")] 1 (drop 1 three_steps)]).
Proof.
  split; [|split].
  - apply (proj1 (evaluate_replan_fails_open (mkSettings 8 false false) failing_llm
                    "demo" three_steps [] 1 empty_run)).
    left. reflexivity.
  - apply (proj1 (evaluate_replan_fails_open demo_settings failing_llm
                    "demo" three_steps [("collect", "ok")] 3 empty_run)).
    right. reflexivity.
  - apply (proj2 (evaluate_replan_fails_open demo_settings failing_llm
                    "demo" three_steps [("collect", "ok")] 1 empty_run)
             "TimeoutError").
    + reflexivity.
    + discriminate.
    + reflexivity.
Defined.

Lemma revision_steps_length (idx : nat) (titles : list string) :
  length (revision_steps idx titles) = length titles.
Proof.
  unfold revision_steps. rewrite length_map. generalize 0.
  induction titles as [|t r IH]; intros n; simpl; [done|]. by rewrite IH.
Qed.

Lemma enumerate_lookup {A : Type} (l : list A) :
  forall start i x, l !! i = Some x -> enumerate start l !! i = Some (start + i, x).
Proof.
  induction l as [|y l IH]; intros start i x; [done|].
  destruct i as [|i]; simpl.
  - intros [= ->]. by rewrite Nat.add_0_r.
  - intros H. rewrite (IH (S start) i x H). do 2 f_equal. lia.
Qed.

Lemma revision_steps_lookup (idx : nat) (titles : list string) (i : nat) (t : string) :
  titles !! i = Some t ->
  revision_steps idx titles !! i
    = Some (StepDict (Z.of_nat idx + Z.of_nat i + 1) (strip t) "pending").
Proof.
  intros H. unfold revision_steps. rewrite list_lookup_fmap.
  by rewrite (enumerate_lookup titles 0 i t H).
Qed.

Lemma replan_phase_revise (settings : Settings)
    (structured_llm : replan_prompt -> result ReplanDecision)
    (pid title : string) (all_steps : list step) (past : list (string * string))
    (idx : nat) (rs rs1 : run_state) (d : ReplanDecision) :
  (idx < length all_steps)%nat ->
  _evaluate_replan settings structured_llm title all_steps past idx rs
    = (Ok (Some d), rs1) ->
  action d = "revise" ->
  revised_steps d <> [] ->
  replan_phase settings structured_llm pid title all_steps past idx rs
    = (Ok (mkLoop (take idx all_steps ++ revision_steps idx (revised_steps d)) past idx,
           false),
       mkRun (trace rs ++ [PlanRevised pid (revision_steps idx (revised_steps d)) idx
                             (reason d)])
             (llm_calls rs1)).
Proof.
  intros Hlt He Ha Hr. unfold replan_phase.
  replace (0 <? _)%Z with true by (symmetry; apply Z.ltb_lt; lia).
  unfold bind at 1. pose proof (evaluate_replan_trace settings structured_llm
                                  title all_steps past idx rs) as Ht.
  rewrite He in *. simpl in Ht. rewrite Ha. simpl.
  destruct (revised_steps d) as [|t r] eqn:Hd; [done|]. simpl.
  unfold bind, emit, modify, ret. simpl. by rewrite Ht.
Qed.

(** C1, counterexample.  The plan has ids 1, 2, 3 and the replanner
    revises it to two new steps after step 1: the new steps get the ids
    2 and 3, the plan-revised event carries them with these ids, and
    the highest id of the plan was 3, so ids continuing from it would be
    4 and 5. *)
Lemma revise_reuses_ids :
  (exists ls rs,
     _stream_plan_execution demo_settings demo_agent revise_after_first 8
       (mkPlan "p1" "demo" three_steps) empty_run = Some (Ok ls, rs) /\
     step_ids (steps ls) = [1; 2; 3]%Z /\
     In (PlanRevised "p1" [StepDict 2 "draft" "pending"; StepDict 3 "publish" "pending"]
           1 "scope changed") (trace rs)) /\
  highest_id three_steps = 3%Z /\
  ~ revise_ids_continue_from_highest.
Proof.
  split; [|split].
  - eexists. eexists. split; [vm_compute; reflexivity|].
    split; [reflexivity|]. simpl. tauto.
  - reflexivity.
  - intros H.
    destruct (H demo_settings revise_after_first "p1" "demo" three_steps
                [("collect", "ok")] 1%nat empty_run
                (mkDecision "revise" "" ["  draft "; "publish"] "scope changed")
                (mkRun [] [build_prompt "demo" [("collect", "ok")] 1 (drop 1 three_steps)]))
      as (ls' & rs' & Hrun & Hids).
    + simpl. lia.
    + reflexivity.
    + reflexivity.
    + discriminate.
    + vm_compute in Hrun. injection Hrun as <- _. vm_compute in Hids. discriminate.
Qed.

(** C1, amended.  When the replanner, consulted after the step at
    index [k-1], returns a revise decision with a non-empty list of
    titles, the pass of the runner replaces the steps from index [k] on
    by new pending steps whose ids are [k+1], [k+2], ... in order (with
    original ids 1, 2, 3 and two new steps after step 1: 2 and 3), sends
    after the step's own events one plan-revised event with exactly the
    new steps, [k] and the decision's reason, and leaves the steps below
    [k] as they were. *)
Theorem revise_replaces_suffix (settings : Settings)
    (sub_agent : nat -> list step -> list (string * string) -> list raw_event)
    (structured_llm : replan_prompt -> result ReplanDecision)
    (pid title : string) (ls : loop_state) (st : step)
    (past : list (string * string)) (rs rs0 rs1 : run_state) (d : ReplanDecision) :
  let k := S (step_index ls) in
  steps ls !! step_index ls = Some st ->
  (k < length (steps ls))%nat ->
  execute_step sub_agent pid ls st rs = (Ok (past, k), rs0) ->
  _evaluate_replan settings structured_llm title (steps ls) past k rs0
    = (Ok (Some d), rs1) ->
  action d = "revise" ->
  revised_steps d <> [] ->
  exists new_steps ls',
    loop_body settings sub_agent structured_llm pid title ls rs
      = (Ok (ls', false),
         mkRun (trace rs0 ++ [PlanRevised pid new_steps k (reason d)]) (llm_calls rs1)) /\
    steps ls' = take k (steps ls) ++ new_steps /\
    step_index ls' = k /\
    length new_steps = length (revised_steps d) /\
    (forall i t, revised_steps d !! i = Some t ->
       new_steps !! i = Some (StepDict (Z.of_nat k + Z.of_nat i + 1) (strip t) "pending")) /\
    take k (steps ls') = take k (steps ls).
Proof.
  intros k Hst Hlt Hex Hev Ha Hr.
  exists (revision_steps k (revised_steps d)). eexists. split.
  - unfold loop_body. rewrite Hst. unfold bind at 1. rewrite Hex. simpl.
    by apply replan_phase_revise.
  - simpl. split; [done|]. split; [done|].
    split; [apply revision_steps_length|].
    split; [intros i t; apply revision_steps_lookup|].
    rewrite take_app_le by (rewrite length_take; lia).
    by rewrite take_take, Nat.min_id.
Qed.

Lemma revise_replaces_suffix_witness :
  exists new_steps ls',
    loop_body demo_settings demo_agent revise_after_first "p1" "demo"
      (mkLoop three_steps [] 0) empty_run
      = (Ok (ls', false),
         mkRun ([PlanUpdated "p1" 1 "running"; LlmStart "run-0001"; Token "ok";
                 LlmEnd "run-0001"; PlanUpdated "p1" 1 "completed"]
                ++ [PlanRevised "p1" new_steps 1 "scope changed"])
               [build_prompt "demo" [("collect", "ok")] 1 (drop 1 three_steps)]) /\
    steps ls' = take 1 three_steps ++ new_steps /\
    step_index ls' = 1%nat /\
    length new_steps = 2%nat /\
    (forall i t, ["  draft "; "publish"] !! i = Some t ->
       new_steps !! i = Some (StepDict (Z.of_nat 1 + Z.of_nat i + 1) (strip t) "pending")) /\
    take 1 (steps ls') = take 1 three_steps.
Proof.
  apply (revise_replaces_suffix demo_settings demo_agent revise_after_first
           "p1" "demo" (mkLoop three_steps [] 0) (StepDict 1 "collect" "pending")
           [("collect", "ok")] empty_run
           (mkRun [PlanUpdated "p1" 1 "running"; LlmStart "run-0001"; Token "ok";
                   LlmEnd "run-0001"; PlanUpdated "p1" 1 "completed"] [])
           (mkRun [PlanUpdated "p1" 1 "running"; LlmStart "run-0001"; Token "ok";
                   LlmEnd "run-0001"; PlanUpdated "p1" 1 "completed"]
                  [build_prompt "demo" [("collect", "ok")] 1 (drop 1 three_steps)])
           (mkDecision "revise" "" ["  draft "; "publish"] "scope changed")).
  - reflexivity.
  - simpl. lia.
  - reflexivity.
  - reflexivity.
  - reflexivity.
  - discriminate.
Defined.

End PlanRunner.

(** ** The routing graph *)

Module RoutingGraph.
Import PyVal GraphBuilder.

Lemma reach_trans (E : list (string * string)) (a b c : string) :
  reach E a b -> reach E b c -> reach E a c.
Proof. induction 1; [done|]. intros. eapply reach_step; eauto. Qed.

Lemma closure_sound (E : list (string * string)) (a : string) (n : nat) :
  forall seen,
    (forall x, In x seen -> reach E a x) ->
    forall x, In x (closure n E seen) -> reach E a x.
Proof.
  induction n as [|n IH]; intros seen Hs x; simpl; [by apply Hs|].
  apply IH. intros y Hy. apply in_app_or in Hy as [Hy|Hy]; [by apply Hs|].
  apply in_map_iff in Hy as ([u v] & <- & Hf).
  apply List.filter_In in Hf as [Hin Hu].
  apply existsb_exists in Hu as (w & Hw & Heq).
  apply String.eqb_eq in Heq. simpl in Heq. subst w.
  eapply reach_trans; [by apply Hs|]. eapply reach_step; [exact Hin|apply reach_refl].
Qed.

Lemma reachb_sound (E : list (string * string)) (a b : string) :
  reachb E a b = true -> reach E a b.
Proof.
  unfold reachb. intros H. apply existsb_exists in H as (x & Hx & Heq).
  apply String.eqb_eq in Heq. subst x.
  eapply closure_sound; [|exact Hx]. intros y [<-|[]]. apply reach_refl.
Qed.

Lemma path_ascends (E : list (string * string)) (a b : string) :
  ascending E = true -> path E a b -> (rank a < rank b)%nat.
Proof.
  intros HE. unfold ascending in HE. rewrite forallb_forall in HE.
  induction 1 as [a b Hin|a b c Hin _ IH].
  - apply HE in Hin. by apply Nat.ltb_lt in Hin.
  - apply HE in Hin. apply Nat.ltb_lt in Hin. simpl in Hin. lia.
Qed.

Lemma ascending_acyclic (E : list (string * string)) :
  ascending E = true -> ~ cyclic E.
Proof. intros HE [n Hn]. pose proof (path_ascends E n n HE Hn). lia. Qed.

Lemma connectedb_sound (g : StateGraph) : connectedb g = true -> connected g.
Proof.
  unfold connectedb, connected. rewrite !andb_true_iff, !forallb_forall.
  intros [[H1 H2] H3]. split; [|split].
  - intros n Hn. apply reachb_sound. by apply H1.
  - intros n Hn. apply reachb_sound. by apply H2.
  - intros a b Hab. apply H3 in Hab. apply andb_true_iff in Hab as [Ha Hb].
    apply existsb_exists in Ha as (x & Hx & Ex), Hb as (y & Hy & Ey).
    apply String.eqb_eq in Ex, Ey. simpl in *. by subst.
Qed.

Lemma build_graph_toggles (graph_config : pyval) (p a r s : bool) (st : gb_state) :
  toggles graph_config = Ok (p, a, r, s) ->
  build_graph graph_config st =
    (Ok (mkCompiled (next_obj st) (assemble p a r s)),
     mkState (_graph_cache st) (storage st) (_last_checkpoint_cleanup st)
             (S (next_obj st))).
Proof.
  unfold toggles, build_graph, bind, lift, compile.
  destruct (py_get graph_config "graph" _) as [graph_cfg|]; [|done].
  destruct (py_get graph_cfg "nodes" _) as [nodes_cfg|]; [|done].
  destruct (node_enabled nodes_cfg "planner" true) as [vp|]; [|done].
  destruct (node_enabled nodes_cfg "approval" false) as [va|];
    [|done].
  destruct (node_enabled nodes_cfg "replanner" true) as [vr|]; [|done].
  destruct (node_enabled nodes_cfg "summarizer" true) as [vs|]; [|done].
  by intros [= -> -> -> ->].
Qed.

Lemma toggles_config_of (p a r s : bool) :
  toggles (config_of p a r s) = Ok (p, a, r, s).
Proof. reflexivity. Qed.

(** C3, counterexample.  With the planner off and approval on,
    [build_graph] returns a compiled graph, the same graph as with
    approval off, and raises nothing. *)
Lemma approval_without_planner_builds :
  build_graph (config_of false true true true) initial_state
    = (Ok (mkCompiled 0 (assemble false false true true)),
       mkState (_graph_cache initial_state) [] 0 1) /\
  ~ approval_requires_planner.
Proof.
  split; [reflexivity|]. intros H.
  destruct (H (config_of false true true true) true true initial_state eq_refl)
    as (e & st' & Heq).
  discriminate Heq.
Qed.

(** C3, amended.  For every configuration in which the approval toggle
    is on while the planner toggle is off, [build_graph] raises nothing:
    it returns a newly compiled graph that has the single node [agent]
    and the two edges entry-to-agent and agent-to-end, which is the
    graph it builds with approval off; the approval setting is not
    looked at. *)
Theorem approval_ignored_without_planner (graph_config : pyval) (r s : bool)
    (st : gb_state) :
  toggles graph_config = Ok (false, true, r, s) ->
  exists c st',
    build_graph graph_config st = (Ok c, st') /\
    obj_id c = next_obj st /\
    obj_graph c = mkStateGraph ["agent"] [(START, "agent"); ("agent", END)] [] /\
    obj_graph c = assemble false false r s.
Proof.
  intros Ht. eexists. eexists. split; [by apply build_graph_toggles|]. done.
Qed.

Lemma approval_ignored_without_planner_witness :
  exists c st',
    build_graph (config_of false true false true) initial_state = (Ok c, st') /\
    obj_id c = next_obj initial_state /\
    obj_graph c = mkStateGraph ["agent"] [(START, "agent"); ("agent", END)] [] /\
    obj_graph c = assemble false false false true.
Proof.
  apply (approval_ignored_without_planner (config_of false true false true)
           false true initial_state).
  reflexivity.
Defined.

(** C5, counterexample.  With the planner, the replanner and the
    summarizer on, the step loop [executor_pre], [executor],
    [replanner], [executor_pre] is a cycle that uses neither of the two
    back edges into the agent. *)
Lemma step_loop_is_a_cycle :
  path (without agent_backedges (transitions (assemble true false true true)))
       "executor_pre" "executor_pre" /\
  ~ only_agent_backedges.
Proof.
  assert (Hp : path (without agent_backedges
                       (transitions (assemble true false true true)))
                    "executor_pre" "executor_pre").
  { apply path_cons with "executor"; [vm_compute; tauto|].
    apply path_cons with "replanner"; [vm_compute; tauto|].
    apply path_one. vm_compute. tauto. }
  split; [exact Hp|]. intros H. apply (H true false true true).
  by exists "executor_pre".
Qed.

(** C5, amended.  For each of the 16 combinations of the four toggles,
    and every configuration that sets them so, [build_graph] returns a
    graph in which every declared node (and the
    two sentinels) is reachable from the entry and reaches the end, all
    transitions join declared nodes, and every cycle runs through one of
    the designed back edges: the two into the agent (from the
    summarizer, from approval) or the back edge of the step loop into
    [executor_pre] (from the replanner, or from the executor when there
    is no replanner).  With the planner off the graph is the entry edge
    and the single edge from the agent to the end. *)
Theorem assembled_graph_valid (graph_config : pyval) (p a r s : bool)
    (st : gb_state) :
  toggles graph_config = Ok (p, a, r, s) ->
  exists c st',
    build_graph graph_config st = (Ok c, st') /\
    obj_graph c = assemble p a r s /\
    connected (obj_graph c) /\
    ~ cyclic (without (agent_backedges ++ step_backedges) (transitions (obj_graph c))) /\
    (p = false ->
     sg_nodes (obj_graph c) = ["agent"] /\
     transitions (obj_graph c) = [(START, "agent"); ("agent", END)]).
Proof.
  intros Ht. eexists. eexists.
  split; [by apply build_graph_toggles|]. simpl.
  split; [done|].
  split; [apply connectedb_sound; by destruct p, a, r, s|].
  split; [apply ascending_acyclic; by destruct p, a, r, s|].
  by intros ->.
Qed.

Lemma assembled_graph_valid_witness :
  exists c st',
    build_graph (config_of false false true true) initial_state = (Ok c, st') /\
    obj_graph c = assemble false false true true /\
    connected (obj_graph c) /\
    ~ cyclic (without (agent_backedges ++ step_backedges) (transitions (obj_graph c))) /\
    (false = false ->
     sg_nodes (obj_graph c) = ["agent"] /\
     transitions (obj_graph c) = [(START, "agent"); ("agent", END)]).
Proof.
  apply (assembled_graph_valid (config_of false false true true)
           false false true true initial_state).
  reflexivity.
Defined.

End RoutingGraph.

(** ** The checkpoint store *)

Module CheckpointStore.
Import GraphBuilder StringOrder.

(** *** The descending sort *)

Lemma insert_desc_perm (x : skey) (l : list skey) :
  Permutation (insert_desc x l) (x :: l).
Proof.
  induction l as [|h t IH]; simpl; [done|].
  destruct (String.ltb _ _); [done|]. rewrite IH. apply perm_swap.
Qed.

Lemma sorted_desc_perm_acc (keys : list skey) :
  forall acc,
    Permutation (fold_left (fun acc k => insert_desc k acc) keys acc) (acc ++ keys).
Proof.
  induction keys as [|x keys IH]; intros acc; simpl; [by rewrite app_nil_r|].
  rewrite IH, insert_desc_perm. simpl. apply Permutation_middle.
Qed.

Lemma sorted_desc_perm (keys : list skey) : Permutation (sorted_desc keys) keys.
Proof. apply (sorted_desc_perm_acc keys []). Qed.

Lemma insert_desc_leads (k x : skey) (acc : list skey) :
  (x = k \/ String.ltb (sort_key x) (sort_key k) = true) ->
  leads k acc -> leads k (insert_desc x acc).
Proof.
  intros Hx [[Hnot Hlow]|[rest ->]].
  - destruct (decide (x = k)) as [->|Hne].
    + right. destruct acc as [|h t]; simpl; [by eexists|].
      rewrite (Hlow h) by (by left). by eexists.
    + left. destruct Hx as [?|Hx]; [done|]. split.
      * intros Hin. apply (Permutation_in _ (insert_desc_perm x acc)) in Hin.
        destruct Hin as [?|?]; [by subst|done].
      * intros y Hin. apply (Permutation_in _ (insert_desc_perm x acc)) in Hin.
        destruct Hin as [<-|?]; [done|by apply Hlow].
  - right. simpl. destruct Hx as [->|Hx].
    + rewrite ltb_irrefl. by eexists.
    + rewrite (ltb_asym _ _ Hx). by eexists.
Qed.

Lemma sorted_desc_leads (k : skey) (keys : list skey) :
  forall acc,
    (forall x, In x keys -> x = k \/ String.ltb (sort_key x) (sort_key k) = true) ->
    leads k acc ->
    leads k (fold_left (fun acc x => insert_desc x acc) keys acc).
Proof.
  induction keys as [|x keys IH]; intros acc Hk Hacc; simpl; [done|].
  apply IH.
  - intros y Hy. apply Hk. by right.
  - apply insert_desc_leads; [apply Hk; by left|done].
Qed.

Lemma sorted_desc_head (k : skey) (keys : list skey) :
  NoDup keys ->
  In k keys ->
  (forall x, In x keys -> x <> k -> String.ltb (sort_key x) (sort_key k) = true) ->
  exists rest, sorted_desc keys = k :: rest /\ ~ In k rest.
Proof.
  intros Hnd Hin Hmax.
  assert (Hl : leads k (sorted_desc keys)).
  { apply sorted_desc_leads.
    - intros x Hx. destruct (decide (x = k)); [by left|right; by apply Hmax].
    - left. split; [by intros []|by intros ? []]. }
  pose proof (sorted_desc_perm keys) as Hp.
  destruct Hl as [[Hnot _]|[rest Hr]].
  - exfalso. apply Hnot. by apply (Permutation_in _ (Permutation_sym Hp)).
  - exists rest. split; [done|].
    assert (Hnd' : NoDup (sorted_desc keys)) by (by rewrite Hp).
    rewrite Hr in Hnd'. apply NoDup_cons_1_1 in Hnd'.
    intros Hrest. apply Hnd'. by apply list_elem_of_In.
Qed.

Lemma slice_from_spares_head (max_per_thread : Z) (k : skey) (rest : list skey) :
  (1 <= max_per_thread)%Z ->
  ~ In k rest ->
  ~ In k (slice_from max_per_thread (k :: rest)).
Proof.
  intros Hmax Hnot. unfold slice_from.
  replace (max_per_thread <? 0)%Z with false by (symmetry; apply Z.ltb_ge; lia).
  destruct (Z.to_nat max_per_thread) as [|n] eqn:Hn; [lia|]. simpl.
  intros Hin. apply Hnot. apply list_elem_of_In.
  apply list_elem_of_In in Hin. eapply subseteq_drop, Hin.
Qed.

Lemma slice_from_subset {A : Type} (n : Z) (l : list A) (x : A) :
  In x (slice_from n l) -> In x l.
Proof.
  unfold slice_from. intros H. apply list_elem_of_In.
  destruct (n <? 0)%Z; apply list_elem_of_In in H; eapply subseteq_drop, H.
Qed.

(** *** Grouping by conversation *)

Lemma setdefault_append_grouped (t : string) (k : skey) (seen : list skey)
    (by_thread : list (string * list skey)) :
  thread_of k = Some t ->
  ~ In k seen ->
  grouped seen by_thread ->
  grouped (seen ++ [k]) (setdefault_append t k by_thread).
Proof.
  intros Ht Hnew. induction by_thread as [|[t' ks'] rest IH]; intros Hg; simpl.
  - intros t0 ks [[= <- <-]|[]]. split; [apply NoDup_singleton|].
    intros x [<-|[]]. split; [apply in_or_app; right; by left|done].
  - destruct (String.eqb t t') eqn:Heq.
    + apply String.eqb_eq in Heq. subst t'.
      intros t0 ks [[= <- <-]|Hin].
      * destruct (Hg t ks' (or_introl eq_refl)) as [Hnd Hks]. split.
        -- apply NoDup_app. split; [done|]. split; [|apply NoDup_singleton].
           intros x Hx Hx'. apply list_elem_of_In in Hx, Hx'.
           destruct Hx' as [<-|[]]. apply Hnew. by apply Hks.
        -- intros x Hx. apply in_app_or in Hx as [Hx|[<-|[]]].
           ++ destruct (Hks x Hx). split; [apply in_or_app; by left|done].
           ++ split; [apply in_or_app; right; by left|done].
      * destruct (Hg t0 ks (or_intror Hin)) as [Hnd Hks]. split; [done|].
        intros x Hx. destruct (Hks x Hx). split; [apply in_or_app; by left|done].
    + intros t0 ks [[= <- <-]|Hin].
      * destruct (Hg t' ks' (or_introl eq_refl)) as [Hnd Hks]. split; [done|].
        intros x Hx. destruct (Hks x Hx). split; [apply in_or_app; by left|done].
      * apply IH; [|done]. intros t1 ks1 H1. apply Hg. by right.
Qed.

Lemma group_key_grouped (k : skey) (seen : list skey)
    (by_thread : list (string * list skey)) :
  ~ In k seen ->
  grouped seen by_thread ->
  grouped (seen ++ [k]) (group_key by_thread k).
Proof.
  intros Hnew Hg.
  assert (Hkeep : grouped (seen ++ [k]) by_thread).
  { intros t ks Hin. destruct (Hg t ks Hin) as [Hnd Hks]. split; [done|].
    intros x Hx. destruct (Hks x Hx). split; [apply in_or_app; by left|done]. }
  destruct k as [[|t elems]|s]; simpl; try done.
  by apply setdefault_append_grouped.
Qed.

Lemma group_by_thread_grouped (keys : list skey) :
  forall seen by_thread,
    NoDup (seen ++ keys) ->
    grouped seen by_thread ->
    grouped (seen ++ keys) (fold_left group_key keys by_thread).
Proof.
  induction keys as [|k keys IH]; intros seen by_thread Hnd Hg; simpl.
  - by rewrite app_nil_r.
  - replace (seen ++ k :: keys) with ((seen ++ [k]) ++ keys)
      by (by rewrite <- app_assoc).
    apply IH; [by rewrite <- app_assoc|].
    apply group_key_grouped; [|done].
    apply NoDup_app in Hnd as (_ & Hd & _). intros Hin.
    apply (Hd k); apply list_elem_of_In; [done|by left].
Qed.

(** *** Deleting *)

Lemma del_key_keeps (k key : skey) (sto : list (skey * string)) (c : Z) :
  k <> key ->
  In k (map fst sto) ->
  In k (map fst (fst (del_key (sto, c) key))).
Proof.
  intros Hne Hin. unfold del_key. destruct (existsb _ sto); [|done]. simpl.
  apply in_map_iff in Hin as ([k0 v] & <- & Hin). apply in_map_iff.
  exists (k0, v). split; [done|]. apply list_elem_of_In, list_elem_of_filter.
  split; [done|by apply list_elem_of_In].
Qed.

Lemma del_keys_keep (k : skey) (doomed : list skey) :
  forall acc,
    ~ In k doomed ->
    In k (map fst (fst acc)) ->
    In k (map fst (fst (fold_left del_key doomed acc))).
Proof.
  induction doomed as [|d doomed IH]; intros [sto c] Hnot Hin; simpl; [done|].
  apply IH; [intros H; apply Hnot; by right|].
  apply del_key_keeps; [intros ->; apply Hnot; by left|done].
Qed.

Lemma prune_thread_keeps (max_per_thread : Z) (k : skey)
    (acc : list (skey * string) * Z) (entry : string * list skey) :
  ~ In k (slice_from max_per_thread (sorted_desc (snd entry))) ->
  In k (map fst (fst acc)) ->
  In k (map fst (fst (prune_thread max_per_thread acc entry))).
Proof.
  intros Hnot Hin. unfold prune_thread.
  destruct (_ <=? _)%Z; [done|]. by apply del_keys_keep.
Qed.

Lemma prune_threads_keep (max_per_thread : Z) (k : skey)
    (by_thread : list (string * list skey)) :
  forall acc,
    (forall entry, In entry by_thread ->
       ~ In k (slice_from max_per_thread (sorted_desc (snd entry)))) ->
    In k (map fst (fst acc)) ->
    In k (map fst (fst (fold_left (prune_thread max_per_thread) by_thread acc))).
Proof.
  induction by_thread as [|e by_thread IH]; intros acc Hnot Hin; simpl; [done|].
  apply IH; [intros e' He'; apply Hnot; by right|].
  apply prune_thread_keeps; [apply Hnot; by left|done].
Qed.

Lemma cleanup_keeps_latest (max_per_thread now : Z) (st : gb_state)
    (t : string) (k : skey) :
  (1 <= max_per_thread)%Z ->
  NoDup (stored_keys st) ->
  most_recent st t k ->
  In k (stored_keys (snd (cleanup_with max_per_thread now st))).
Proof.
  intros Hmax Hnd (Hin & Ht & Hlatest). unfold cleanup_with.
  destruct (_ <? _)%Z; [done|].
  destruct (storage st) as [|kv sto] eqn:Hsto.
  { unfold stored_keys in Hin. by rewrite Hsto in Hin. }
  rewrite <- Hsto.
  destruct (fold_left _ _ _) as [sto' cleaned] eqn:Hfold. unfold stored_keys. simpl.
  change sto' with (fst (sto', cleaned)). rewrite <- Hfold.
  apply prune_threads_keep; [|done].
  intros [t' ks] He. simpl.
  destruct (group_by_thread_grouped (map fst (storage st)) [] [] Hnd) with t' ks
    as [Hks Hmem]; [by intros ?? []|done|].
  intros Hdoomed.
  assert (Hk : In k ks).
  { apply (Permutation_in _ (sorted_desc_perm ks)).
    by apply slice_from_subset in Hdoomed. }
  destruct (sorted_desc_head k ks Hks Hk) as (rest & Hsorted & Hrest).
  - intros x Hx Hne. destruct (Hmem x Hx) as [Hxin Hxt].
    destruct (Hmem k Hk) as [_ Hkt]. apply Hlatest; [done| |done]. congruence.
  - rewrite Hsorted in Hdoomed. by apply slice_from_spares_head in Hdoomed.
Qed.

(** C4, counterexample.  With the ceiling at 0, the cleanup of a store
    holding one checkpoint of one conversation deletes that checkpoint:
    nothing clamps the ceiling. *)
Lemma ceiling_zero_deletes_latest :
  most_recent one_checkpoint "t1" (KTuple ["t1"; ""; "0001"]) /\
  cleanup_with 0 300 one_checkpoint
    = (Ok 1%Z, mkState (_graph_cache one_checkpoint) [] 300 0) /\
  ~ latest_survives_any_ceiling.
Proof.
  assert (Hm : most_recent one_checkpoint "t1" (KTuple ["t1"; ""; "0001"])).
  { split; [by left|]. split; [done|]. intros k' [<-|[]] _ Hne. done. }
  split; [exact Hm|]. split; [reflexivity|]. intros H.
  apply (H 0%Z 300%Z one_checkpoint "t1" (KTuple ["t1"; ""; "0001"])) in Hm.
  - exact Hm.
  - apply NoDup_singleton.
Qed.

(** C4, amended.  For every conversation that has a single most recent
    checkpoint in the store (the one with the greatest checkpoint id),
    that checkpoint is still present after any call to
    [cleanup_old_checkpoints], whose ceiling is the constant 20, and
    after a cleanup with any ceiling of at least 1.  The ceiling is not
    clamped. *)
Theorem latest_checkpoint_survives (now : Z) (st : gb_state) (t : string) (k : skey) :
  NoDup (stored_keys st) ->
  most_recent st t k ->
  In k (stored_keys (snd (cleanup_old_checkpoints now st))) /\
  forall max_per_thread,
    (1 <= max_per_thread)%Z ->
    In k (stored_keys (snd (cleanup_with max_per_thread now st))).
Proof.
  intros Hnd Hm. split.
  - by apply (cleanup_keeps_latest _CHECKPOINT_MAX_PER_THREAD now st t k).
  - intros m Hmax. by apply (cleanup_keeps_latest m now st t k).
Qed.

Lemma latest_checkpoint_survives_witness :
  In (KTuple ["t1"; ""; "0003"])
     (stored_keys (snd (cleanup_old_checkpoints 300 three_checkpoints))) /\
  forall max_per_thread,
    (1 <= max_per_thread)%Z ->
    In (KTuple ["t1"; ""; "0003"])
       (stored_keys (snd (cleanup_with max_per_thread 300 three_checkpoints))).
Proof.
  apply (latest_checkpoint_survives 300 three_checkpoints "t1"
           (KTuple ["t1"; ""; "0003"])).
  - apply (bool_decide_unpack _). vm_compute. exact I.
  - split; [vm_compute; tauto|]. split; [reflexivity|].
    intros k' Hin _ Hne. vm_compute in Hin.
    destruct Hin as [<-|[<-|[<-|[]]]]; [reflexivity|done|reflexivity].
Defined.

End CheckpointStore.

(** ** The serialised configuration *)

Module Serialisation.
Import PyVal StringOrder.

#[local] Arguments String.append !_ _ / : simpl nomatch.

(** *** Strings *)

Lemma app_assoc_s (a b c : string) : (a +:+ b) +:+ c = a +:+ (b +:+ c).
Proof. induction a as [|x a IH]; simpl; [done|]. by rewrite IH. Qed.

Lemma app_nil_r_s (a : string) : a +:+ "" = a.
Proof. induction a as [|x a IH]; simpl; [done|]. by rewrite IH. Qed.

Lemma app_inv_head_s (a x y : string) : a +:+ x = a +:+ y -> x = y.
Proof. induction a as [|c a IH]; simpl; [done|]. intros [= H]. by apply IH. Qed.

(** *** Quoted strings *)

Lemma decode_escape_char (c : ascii) (x : string) :
  decode_char (escape_char c +:+ x) = Some (c, x).
Proof. destruct c as [[] [] [] [] [] [] [] []]; reflexivity. Qed.

Lemma decode_closing_quote (x : string) : decode_char (String dquote x) = None.
Proof. reflexivity. Qed.

Lemma escape_cons (c : ascii) (s x : string) :
  escape (String c s) +:+ x = escape_char c +:+ (escape s +:+ x).
Proof. cbn [escape]. apply app_assoc_s. Qed.

Lemma escape_inj (s1 : string) :
  forall s2 r1 r2,
    escape s1 +:+ String dquote r1 = escape s2 +:+ String dquote r2 ->
    s1 = s2 /\ r1 = r2.
Proof.
  induction s1 as [|c1 s1 IH]; intros [|c2 s2] r1 r2 H.
  - cbn in H. by injection H as ->.
  - rewrite escape_cons in H. apply (f_equal decode_char) in H.
    cbn [escape String.app] in H.
    rewrite decode_escape_char, decode_closing_quote in H. discriminate H.
  - rewrite escape_cons in H. apply (f_equal decode_char) in H.
    cbn [escape String.app] in H.
    rewrite decode_escape_char, decode_closing_quote in H. discriminate H.
  - rewrite !escape_cons in H. apply (f_equal decode_char) in H.
    rewrite !decode_escape_char in H.
    injection H as -> H. by destruct (IH _ _ _ H) as [-> ->].
Qed.

Lemma quote_inj (s1 s2 r1 r2 : string) :
  quote s1 +:+ r1 = quote s2 +:+ r2 -> s1 = s2 /\ r1 = r2.
Proof.
  unfold quote. simpl. rewrite !app_assoc_s. simpl. intros [= H].
  by apply escape_inj.
Qed.

(** *** Integers *)

Lemma uint_inj (d1 : Decimal.uint) :
  forall d2 r1 r2,
    delimited r1 -> delimited r2 ->
    NilEmpty.string_of_uint d1 +:+ r1 = NilEmpty.string_of_uint d2 +:+ r2 ->
    d1 = d2 /\ r1 = r2.
Proof.
  induction d1 as [|d1 IH|d1 IH|d1 IH|d1 IH|d1 IH|d1 IH|d1 IH|d1 IH|d1 IH|d1 IH];
    intros [|d2|d2|d2|d2|d2|d2|d2|d2|d2|d2] r1 r2 H1 H2 H; simpl in H;
    try done; try (subst; discriminate);
    try (injection H as H; by destruct (IH _ _ _ H1 H2 H) as [-> ->]).
Qed.

Lemma uint_head (d : Decimal.uint) :
  d <> Decimal.Nil ->
  exists c rest, NilEmpty.string_of_uint d = String c rest /\ is_digit c = true.
Proof. destruct d; intros H; try done; simpl; eauto. Qed.

Lemma string_of_Z_uint (z : Z) :
  exists d, d <> Decimal.Nil /\
    string_of_Z z
      = (if (z <? 0)%Z then "-" else "") +:+ NilEmpty.string_of_uint d /\
    Z.to_int z = (if (z <? 0)%Z then Decimal.Neg d else Decimal.Pos d).
Proof.
  destruct z as [|p|p]; unfold string_of_Z; simpl.
  - by exists (Decimal.D0 Decimal.Nil).
  - exists (Pos.to_uint p). pose proof (Unsigned.to_uint_nonnil p) as Hn.
    split; [done|]. split; [|done]. by destruct (Pos.to_uint p).
  - exists (Pos.to_uint p). pose proof (Unsigned.to_uint_nonnil p) as Hn.
    split; [done|]. split; [|done]. by destruct (Pos.to_uint p).
Qed.

Lemma string_of_Z_inj (z1 z2 : Z) (r1 r2 : string) :
  delimited r1 -> delimited r2 ->
  string_of_Z z1 +:+ r1 = string_of_Z z2 +:+ r2 ->
  z1 = z2 /\ r1 = r2.
Proof.
  intros H1 H2 H.
  destruct (string_of_Z_uint z1) as (d1 & Hn1 & Hs1 & Hi1).
  destruct (string_of_Z_uint z2) as (d2 & Hn2 & Hs2 & Hi2).
  destruct (uint_head d1 Hn1) as (c1 & t1 & Hd1 & Hc1).
  destruct (uint_head d2 Hn2) as (c2 & t2 & Hd2 & Hc2).
  rewrite Hs1, Hs2 in H.
  destruct (z1 <? 0)%Z eqn:S1, (z2 <? 0)%Z eqn:S2; simpl in H.
  - injection H as H. destruct (uint_inj _ _ _ _ H1 H2 H) as [-> ->].
    split; [|done]. apply to_int_inj. by rewrite Hi1, Hi2.
  - rewrite Hd2 in H. simpl in H. injection H as <- _. done.
  - rewrite Hd1 in H. simpl in H. injection H as -> _. done.
  - destruct (uint_inj _ _ _ _ H1 H2 H) as [-> ->].
    split; [|done]. apply to_int_inj. by rewrite Hi1, Hi2.
Qed.

Lemma string_of_Z_head (z : Z) :
  exists c rest,
    string_of_Z z = String c rest /\ (is_digit c = true \/ c = "-"%char).
Proof.
  destruct (string_of_Z_uint z) as (d & Hn & Hs & _).
  destruct (uint_head d Hn) as (c & t & Hd & Hc). rewrite Hs, Hd.
  destruct (z <? 0)%Z; simpl; eauto.
Qed.

(** *** Sorting the items of a dict *)

Lemma insert_item_perm (kv : string * string) (l : list (string * string)) :
  Permutation (insert_item kv l) (kv :: l).
Proof.
  induction l as [|h t IH]; simpl; [done|].
  destruct (String.ltb _ _); [done|]. rewrite IH. apply perm_swap.
Qed.

Lemma sort_items_perm (l : list (string * string)) : Permutation (sort_items l) l.
Proof.
  induction l as [|kv l IH]; simpl; [done|].
  unfold sort_items in *. simpl. by rewrite insert_item_perm, IH.
Qed.

Lemma insert_item_sorted (kv : string * string) (l : list (string * string)) :
  StronglySorted key_lt l ->
  (forall y, In y l -> fst y <> fst kv) ->
  StronglySorted key_lt (insert_item kv l).
Proof.
  induction l as [|h t IH]; intros Hs Hne; simpl.
  - by repeat constructor.
  - apply StronglySorted_inv in Hs as [Hs Hh].
    destruct (String.ltb (fst kv) (fst h)) eqn:Hlt.
    + constructor; [by constructor|]. constructor; [done|].
      eapply Forall_impl; [exact Hh|]. intros y Hy. unfold key_lt in *.
      by eapply ltb_trans.
    + constructor.
      * apply IH; [done|]. intros y Hy. apply Hne. by right.
      * assert (Hhk : key_lt h kv).
        { apply ltb_total; [|done]. intros Heq. by apply (Hne h); [left|]. }
        apply Forall_forall. intros y Hy. apply list_elem_of_In in Hy.
        apply (Permutation_in _ (insert_item_perm kv t)) in Hy as [<-|Hy]; [done|].
        rewrite Forall_forall in Hh. apply Hh. by apply list_elem_of_In.
Qed.

Lemma sort_items_sorted (l : list (string * string)) :
  NoDup (map fst l) -> StronglySorted key_lt (sort_items l).
Proof.
  induction l as [|kv l IH]; intros Hnd; [constructor|].
  simpl in Hnd. apply NoDup_cons in Hnd as [Hnot Hnd].
  change (sort_items (kv :: l)) with (insert_item kv (sort_items l)).
  apply insert_item_sorted; [by apply IH|].
  intros y Hy Heq. apply Hnot. rewrite <- Heq. apply list_elem_of_In, in_map.
  by apply (Permutation_in _ (sort_items_perm l)).
Qed.

Lemma sort_items_perm_eq (a b : list (string * string)) :
  Permutation a b -> NoDup (map fst a) -> sort_items a = sort_items b.
Proof.
  intros Hp Hnd. apply (StronglySorted_unique_strong key_lt).
  - intros x y _ _ Hxy Hyx. unfold key_lt in *. by rewrite (ltb_asym _ _ Hxy) in Hyx.
  - by apply sort_items_sorted.
  - apply sort_items_sorted. by rewrite <- Hp.
  - by rewrite !sort_items_perm.
Qed.

Lemma wf_list (l : list pyval) : wf (PList l) <-> Forall wf l.
Proof.
  induction l as [|x l IH]; [by split; [constructor|]|].
  rewrite Forall_cons. rewrite <- IH. reflexivity.
Qed.

Lemma wf_dict (items : list (string * pyval)) :
  wf (PDict items) <-> NoDup (map fst items) /\ Forall (fun kv => wf (snd kv)) items.
Proof.
  change (wf (PDict items)) with
    (NoDup (map fst items) /\
     (fix all (l : list (string * pyval)) : Prop :=
        match l with [] => True | kv :: r => wf (snd kv) /\ all r end) items).
  apply and_iff_compat_l.
  induction items as [|kv l IH]; [by split; [constructor|]|].
  rewrite Forall_cons. rewrite <- IH. reflexivity.
Qed.

(** *** The shape of the text *)

#[local] Arguments json_dumps : simpl never.
#[local] Arguments quote : simpl never.
#[local] Arguments escape_char : simpl never.
#[local] Arguments string_of_Z : simpl never.
#[local] Arguments sort_items : simpl never.
#[local] Arguments tag_of_char : simpl never.
#[local] Arguments render_item : simpl never.

Lemma dumps_list (l : list pyval) :
  json_dumps (PList l) = "[" +:+ join (map json_dumps l) +:+ "]".
Proof. reflexivity. Qed.

Lemma dumps_dict (items : list (string * pyval)) :
  json_dumps (PDict items)
  = "{" +:+ join (map render_item (sort_items (map rendered items))) +:+ "}".
Proof. reflexivity. Qed.

Lemma join_cons (p : string) (rest : list string) :
  join (p :: rest) = p +:+ join_tail rest.
Proof.
  revert p. induction rest as [|q rest IH]; intros p.
  - simpl. by rewrite app_nil_r_s.
  - change (join (p :: q :: rest)) with (p +:+ ", " +:+ join (q :: rest)).
    by rewrite IH.
Qed.

Lemma join_as_tail (l : list string) (r : string) :
  l <> [] -> join_tail l +:+ r = ", " +:+ (join l +:+ r).
Proof.
  destruct l as [|p l]; [done|]. intros _. rewrite join_cons. simpl.
  by rewrite !app_assoc_s.
Qed.

Lemma join_nil (r : string) : join [] +:+ r = r.
Proof. reflexivity. Qed.

#[local] Arguments join : simpl never.

Lemma digit_tag (c : ascii) :
  is_digit c = true \/ c = "-"%char -> tag_of_char c = 2.
Proof.
  intros [H| ->]; [|reflexivity].
  destruct c as [[] [] [] [] [] [] [] []]; try discriminate H; reflexivity.
Qed.

Lemma head_tag (v : pyval) :
  exists c rest, json_dumps v = String c rest /\ tag_of_char c = tag_of v.
Proof.
  destruct v as [|[]|z|s|l|items]; try (by eexists; eexists; split; [reflexivity|]).
  destruct (string_of_Z_head z) as (c & rest & Hs & Hc).
  exists c, rest. split; [done|]. by apply digit_tag.
Qed.

Lemma tags_agree (v1 v2 : pyval) (r1 r2 : string) :
  json_dumps v1 +:+ r1 = json_dumps v2 +:+ r2 -> tag_of v1 = tag_of v2.
Proof.
  destruct (head_tag v1) as (c1 & t1 & -> & <-).
  destruct (head_tag v2) as (c2 & t2 & -> & <-).
  simpl. by intros [= -> _].
Qed.

Lemma delimited_after_item (l : list string) (close : ascii) (r : string) :
  is_digit close = false -> delimited (join_tail l +:+ String close r).
Proof. destruct l; simpl; done. Qed.

(** *** Structurally identical values have the same text *)

Lemma same_text_list (l1 l2 : list pyval) :
  Forall same_text l1 -> Forall wf l1 -> Forall2 same_config l1 l2 ->
  map json_dumps l1 = map json_dumps l2.
Proof.
  intros HP Hwf H. induction H as [|x y l1 l2 Hxy H IH]; [done|].
  apply Forall_cons in HP as [Hx HP]. apply Forall_cons in Hwf as [Hwx Hwf].
  simpl. f_equal; [by apply Hx|by apply IH].
Qed.

Lemma same_text_items (l1 l2 : list (string * pyval)) :
  Forall (fun kv => same_text (snd kv)) l1 ->
  Forall (fun kv => wf (snd kv)) l1 ->
  Forall2 (fun kv kv' => fst kv = fst kv' /\ same_config (snd kv) (snd kv')) l1 l2 ->
  map rendered l1 = map rendered l2.
Proof.
  intros HP Hwf H. induction H as [|x y l1 l2 [Hk Hxy] H IH]; [done|].
  apply Forall_cons in HP as [Hx HP]. apply Forall_cons in Hwf as [Hwx Hwf].
  simpl. f_equal; [|by apply IH]. unfold rendered. f_equal; [done|by apply Hx].
Qed.

Lemma rendered_keys (l : list (string * pyval)) : map fst (map rendered l) = map fst l.
Proof. rewrite map_map. by apply map_ext. Qed.

Lemma same_config_text (v1 : pyval) : same_text v1.
Proof.
  induction v1 as [|b|z|s|l IH|items IH] using pyval_nested_ind;
    intros Hwf v2 Hsc; inversion Hsc; subst; try done.
  - rewrite !dumps_list. rewrite (same_text_list l l2); [done|done| |done].
    by apply wf_list.
  - rewrite !dumps_dict. apply wf_dict in Hwf as [Hnd Hwf].
    match goal with Hp : Permutation items ?l |- _ =>
      rewrite (sort_items_perm_eq (map rendered items) (map rendered l));
        [|by apply Permutation_map|by rewrite rendered_keys];
      rewrite (same_text_items l l2); [done|by rewrite <- Hp|by rewrite <- Hp|done]
    end.
Qed.

(** *** Values with the same text are structurally identical *)

Lemma list_tail_inj (xs : list pyval) :
  Forall decodable xs -> Forall wf xs ->
  forall ys r1 r2,
    Forall wf ys ->
    join_tail (map json_dumps xs) +:+ String "]" r1
      = join_tail (map json_dumps ys) +:+ String "]" r2 ->
    Forall2 same_config xs ys /\ r1 = r2.
Proof.
  induction xs as [|x xs IH]; intros HQ Hwx [|y ys] r1 r2 Hwy H; simpl in H.
  - injection H as ->. by split; [constructor|].
  - discriminate H.
  - discriminate H.
  - injection H as H. rewrite !app_assoc_s in H.
    apply Forall_cons in HQ as [Hx HQ]. apply Forall_cons in Hwx as [Hwx Hwxs].
    apply Forall_cons in Hwy as [Hwy Hwys].
    destruct (Hx Hwx y _ _ Hwy
                (delimited_after_item _ "]" r1 eq_refl)
                (delimited_after_item _ "]" r2 eq_refl) H) as [Hxy Hrest].
    destruct (IH HQ Hwxs ys r1 r2 Hwys Hrest) as [Hall ->].
    by split; [constructor|].
Qed.

Lemma render_item_app (kv : string * string) (x : string) :
  render_item kv +:+ x = quote (fst kv) +:+ String ":" (String " " (snd kv +:+ x)).
Proof. unfold render_item. by rewrite !app_assoc_s. Qed.

Lemma items_tail_inj (s1 : list (string * string)) :
  (forall kv, In kv s1 -> exists v, snd kv = json_dumps v /\ wf v /\ decodable v) ->
  forall s2 r1 r2,
    (forall kv, In kv s2 -> exists v, snd kv = json_dumps v /\ wf v) ->
    join_tail (map render_item s1) +:+ String "}" r1
      = join_tail (map render_item s2) +:+ String "}" r2 ->
    s1 = s2 /\ r1 = r2.
Proof.
  induction s1 as [|[k1 t1] s1 IH]; intros H1 [|[k2 t2] s2] r1 r2 H2 H; simpl in H.
  - by injection H as ->.
  - discriminate H.
  - discriminate H.
  - injection H as H. rewrite !app_assoc_s in H. simpl in H.
    apply escape_inj in H as [-> H]. injection H as H.
    destruct (H1 (k2, t1) (or_introl eq_refl)) as (v1 & Ht1 & Hw1 & Hq1).
    destruct (H2 (k2, t2) (or_introl eq_refl)) as (v2 & Ht2 & Hw2).
    simpl in Ht1, Ht2. subst t1 t2.
    destruct (Hq1 Hw1 v2 _ _ Hw2
                (delimited_after_item _ "}" r1 eq_refl)
                (delimited_after_item _ "}" r2 eq_refl) H) as [Hsc Hrest].
    rewrite (same_config_text v1 Hw1 v2 Hsc).
    destruct (IH (fun kv Hin => H1 kv (or_intror Hin)) s2 r1 r2
                 (fun kv Hin => H2 kv (or_intror Hin)) Hrest) as [-> ->].
    done.
Qed.

Lemma map_eq_Forall2 {A B : Type} (f : A -> B) (l1 l2 : list A) :
  map f l1 = map f l2 -> Forall2 (fun a b => f a = f b) l1 l2.
Proof.
  revert l2. induction l1 as [|a l1 IH]; intros [|b l2] H; try done.
  injection H as Hab H. constructor; [done|by apply IH].
Qed.

Lemma sorted_rendered_sound (items : list (string * pyval)) (P : pyval -> Prop) :
  Forall (fun kv => P (snd kv)) items ->
  forall kv, In kv (sort_items (map rendered items)) ->
    exists v, snd kv = json_dumps v /\ P v.
Proof.
  intros HP kv Hin. apply (Permutation_in _ (sort_items_perm _)) in Hin.
  apply in_map_iff in Hin as ([k v] & <- & Hin). exists v. split; [done|].
  rewrite Forall_forall in HP. by apply (HP (k, v)), list_elem_of_In.
Qed.

Lemma text_decodable (v1 : pyval) : decodable v1.
Proof.
  induction v1 as [|b|z|s|l IH|items IH] using pyval_nested_ind;
    intros Hwf1 v2 r1 r2 Hwf2 Hd1 Hd2 H;
    pose proof (tags_agree _ _ _ _ H) as Htag;
    destruct v2 as [|b2|z2|s2|l2|items2]; try discriminate Htag; clear Htag.
  - injection H as ->. by split; [constructor|].
  - destruct b, b2; try discriminate H; injection H as ->; by split; [constructor|].
  - apply string_of_Z_inj in H as [-> ->]; [|done|done]. by split; [constructor|].
  - apply quote_inj in H as [-> ->]. by split; [constructor|].
  - rewrite !dumps_list in H. simpl in H. injection H as H.
    rewrite !app_assoc_s in H. simpl in H.
    apply wf_list in Hwf1, Hwf2.
    destruct l as [|x l], l2 as [|y l2]; simpl in H;
      rewrite ?join_nil, ?join_cons, ?app_assoc_s in H.
    + injection H as ->. split; [|done]. constructor. constructor.
    + exfalso. destruct (head_tag y) as (c & t & Hy & Hc). rewrite Hy in H.
      injection H as <- _. by destruct y.
    + exfalso. destruct (head_tag x) as (c & t & Hx & Hc). rewrite Hx in H.
      injection H as -> _. by destruct x.
    + assert (H' : join_tail (map json_dumps (x :: l)) +:+ String "]" r1
                   = join_tail (map json_dumps (y :: l2)) +:+ String "]" r2).
      { simpl. rewrite !app_assoc_s. by rewrite H. }
      destruct (list_tail_inj _ IH Hwf1 _ _ _ Hwf2 H') as [Hall ->].
      by split; [constructor|].
  - rewrite !dumps_dict in H. simpl in H. injection H as H.
    rewrite !app_assoc_s in H. simpl in H.
    apply wf_dict in Hwf1 as [Hnd1 Hwf1], Hwf2 as [Hnd2 Hwf2].
    assert (Hs : sort_items (map rendered items) = sort_items (map rendered items2)
                 /\ r1 = r2).
    { pose proof (sorted_rendered_sound items (fun v => wf v /\ decodable v)) as Hs1.
      pose proof (sorted_rendered_sound items2 wf Hwf2) as Hs2.
      assert (Hboth : Forall (fun kv => wf (snd kv) /\ decodable (snd kv)) items).
      { apply Forall_and. by split. }
      specialize (Hs1 Hboth).
      destruct (sort_items (map rendered items)) as [|kv1 s1],
               (sort_items (map rendered items2)) as [|kv2 s2]; simpl in H;
        rewrite ?join_nil, ?join_cons, ?app_assoc_s, ?render_item_app in H.
      - by injection H as ->.
      - discriminate H.
      - discriminate H.
      - apply (items_tail_inj (kv1 :: s1) Hs1 (kv2 :: s2) r1 r2 Hs2).
        cbn [map join_tail]. rewrite !app_assoc_s, !render_item_app. by rewrite H. }
    destruct Hs as [Hs ->]. split; [|done].
    assert (Hp : Permutation (map rendered items2) (map rendered items)).
    { by rewrite <- (sort_items_perm (map rendered items2)), <- Hs, sort_items_perm. }
    apply Permutation_map_inv in Hp as (l3 & Hmap & Hp).
    apply (sc_dict items l3 items2); [done|].
    apply map_eq_Forall2 in Hmap. apply Forall2_flip.
    rewrite Hp in IH, Hwf1. clear Hp Hs H Hnd1 Hnd2.
    induction Hmap as [|b a l2' l3' Hab Hmap IHm]; [constructor|].
    apply Forall_cons in IH as [Ha IH]. apply Forall_cons in Hwf1 as [Hwa Hwf1].
    apply Forall_cons in Hwf2 as [Hwb Hwf2].
    injection Hab as Hk Ht. constructor; [|by apply IHm].
    split; [done|].
    apply (Ha Hwa (snd b) "" "" Hwb I I). by rewrite !app_nil_r_s.
Qed.

(** For well-formed values, equal text and structural identity are the
    same thing. *)
Lemma json_dumps_same_config (v1 v2 : pyval) :
  wf v1 -> wf v2 ->
  (json_dumps v1 = json_dumps v2 <-> same_config v1 v2).
Proof.
  intros H1 H2. split.
  - intros H. apply (text_decodable v1 H1 v2 "" "" H2 I I). by rewrite H.
  - by apply same_config_text.
Qed.

End Serialisation.

(** ** The graph cache *)

Module GraphCache.
Import PyVal GraphBuilder Serialisation RoutingGraph.

(** *** Structurally identical configurations set the same toggles *)

Lemma assoc_In {A : Type} (k : string) (v : A) (l : list (string * A)) :
  NoDup (map fst l) -> (assoc k l = Some v <-> In (k, v) l).
Proof.
  induction l as [|[k' v'] l IH]; intros Hnd; simpl; [by split|].
  simpl in Hnd. apply NoDup_cons in Hnd as [Hnot Hnd].
  destruct (String.eqb k k') eqn:Hk.
  - apply String.eqb_eq in Hk. subst k'. split.
    + intros [= ->]. by left.
    + intros [[= ->]|Hin]; [done|]. exfalso. apply Hnot.
      apply list_elem_of_In. by apply (in_map fst l (k, v)).
  - apply String.eqb_neq in Hk. rewrite (IH Hnd). split; [by right|].
    intros [[= -> ->]|Hin]; done.
Qed.

Lemma assoc_perm {A : Type} (k : string) (l l' : list (string * A)) :
  Permutation l l' -> NoDup (map fst l) -> assoc k l = assoc k l'.
Proof.
  intros Hp Hnd.
  assert (Hnd' : NoDup (map fst l')) by (by rewrite <- Hp).
  destruct (assoc k l) as [v|] eqn:H1.
  - symmetry. apply assoc_In; [done|]. apply (Permutation_in _ Hp).
    by apply assoc_In.
  - destruct (assoc k l') as [v'|] eqn:H2; [|done].
    apply assoc_In in H2; [|done].
    apply (Permutation_in _ (Permutation_sym Hp)), assoc_In in H2; [|done].
    congruence.
Qed.

Lemma assoc_related (k : string) (l1 l2 : list (string * pyval)) :
  Forall2 (fun kv kv' => fst kv = fst kv' /\ same_config (snd kv) (snd kv')) l1 l2 ->
  option_Forall2 same_config (assoc k l1) (assoc k l2).
Proof.
  induction 1 as [|[k1 v1] [k2 v2] l1 l2 [Hk Hv] H IH]; simpl; [constructor|].
  simpl in Hk. subst k2. destruct (String.eqb k k1); [by constructor|done].
Qed.

Lemma assoc_wf (k : string) (v : pyval) (items : list (string * pyval)) :
  Forall (fun kv => wf (snd kv)) items -> assoc k items = Some v -> wf v.
Proof.
  induction 1 as [|[k' v'] l Hv H IH]; simpl; [done|].
  destruct (String.eqb k k'); [by intros [= <-]|done].
Qed.

Lemma py_get_same (d1 d2 f1 f2 : pyval) (k : string) :
  same_wf d1 d2 -> same_wf f1 f2 ->
  result_rel same_wf (py_get d1 k f1) (py_get d2 k f2).
Proof.
  intros [Hd Hw] [Hf Hwf]. inversion Hd; subst; simpl; try done.
  apply wf_dict in Hw as [Hnd Hw].
  match goal with Hp : Permutation _ ?l |- _ =>
    rewrite (assoc_perm k _ l Hp Hnd);
    pose proof (assoc_wf k) as Hsub; rewrite Hp in Hw;
    specialize (fun v => Hsub v l Hw)
  end.
  match goal with HF : Forall2 _ _ _ |- _ =>
    destruct (assoc_related k _ _ HF) as [a b Hab|]
  end; simpl; [|done].
  split; [done|]. by apply Hsub.
Qed.

Lemma empty_dict_same : same_wf (PDict []) (PDict []).
Proof.
  split; [apply (sc_dict [] [] []); constructor|].
  apply wf_dict. split; constructor.
Qed.

Lemma node_enabled_same (n1 n2 : pyval) (name : string) (dflt : bool) :
  same_wf n1 n2 ->
  result_rel same_wf (node_enabled n1 name dflt) (node_enabled n2 name dflt).
Proof.
  intros Hn. unfold node_enabled.
  pose proof (py_get_same n1 n2 _ _ name Hn empty_dict_same) as Hsub.
  destruct (py_get n1 name _) as [s1|e1], (py_get n2 name _) as [s2|e2];
    simpl in Hsub; try done.
  apply py_get_same; [done|]. by split; [constructor|].
Qed.

Lemma truthy_same (a b : pyval) : same_config a b -> truthy a = truthy b.
Proof.
  inversion 1 as [ | | | |l1 l2 HF|l1 l1' l2 Hp HF]; subst; simpl; try done.
  - by destruct HF.
  - destruct HF.
    + apply Permutation_nil_r in Hp. by subst.
    + destruct l1; [|done]. by apply Permutation_nil_cons in Hp.
Qed.

Lemma toggles_same (c1 c2 : pyval) :
  same_config c1 c2 -> wf c1 -> toggles c1 = toggles c2.
Proof.
  intros Hsc Hwf. unfold toggles.
  pose proof empty_dict_same as Hempty.
  pose proof (py_get_same c1 c2 _ _ "graph" (conj Hsc Hwf) Hempty) as Hg.
  destruct (py_get c1 "graph" _) as [g1|e1], (py_get c2 "graph" _) as [g2|e2];
    simpl in Hg; try done; [|by subst].
  pose proof (py_get_same g1 g2 _ _ "nodes" Hg Hempty) as Hn.
  destruct (py_get g1 "nodes" _) as [n1|e1], (py_get g2 "nodes" _) as [n2|e2];
    simpl in Hn; try done; [|by subst].
  pose proof (node_enabled_same n1 n2 "planner" true Hn) as Hp.
  pose proof (node_enabled_same n1 n2 "approval" false Hn) as Ha.
  pose proof (node_enabled_same n1 n2 "replanner" true Hn) as Hr.
  pose proof (node_enabled_same n1 n2 "summarizer" true Hn) as Hs.
  destruct (node_enabled n1 "planner" true) as [p1|], (node_enabled n2 "planner" true) as [p2|];
    simpl in Hp; try done;
  destruct (node_enabled n1 "approval" false) as [a1|],
           (node_enabled n2 "approval" false) as [a2|];
    simpl in Ha; try done;
  destruct (node_enabled n1 "replanner" true) as [r1|],
           (node_enabled n2 "replanner" true) as [r2|];
    simpl in Hr; try done;
  destruct (node_enabled n1 "summarizer" true) as [s1|],
           (node_enabled n2 "summarizer" true) as [s2|];
    simpl in Hs; try done;
  repeat match goal with
         | H : same_wf _ _ |- _ => destruct H as [H _]; apply truthy_same in H; rewrite H
         | H : @eq exn _ _ |- _ => rewrite H
         end; done.
Qed.

(** *** [get_or_build_graph] *)

Lemma cleanup_leaves_cache (max_per_thread now : Z) (st : gb_state) :
  exists n st',
    cleanup_with max_per_thread now st = (Ok n, st') /\
    _graph_cache st' = _graph_cache st /\ next_obj st' = next_obj st.
Proof.
  unfold cleanup_with. destruct (_ <? _)%Z; [by eexists; eexists|].
  destruct (storage st); [by eexists; eexists|].
  destruct (fold_left _ _ _). by eexists; eexists.
Qed.

Section Cache.

Variable sha256_hexdigest : string -> string.

#[local] Abbreviation fingerprint := (_config_fingerprint sha256_hexdigest).
#[local] Abbreviation get_or_build := (get_or_build_graph sha256_hexdigest).

Lemma get_or_build_spec (now : Z) (graph_config : pyval) (st : gb_state)
    (t : bool * bool * bool * bool) :
  toggles graph_config = Ok t ->
  exists c st',
    get_or_build now graph_config st = (Ok c, st') /\
    _graph_cache st' !! fingerprint graph_config = Some c /\
    match _graph_cache st !! fingerprint graph_config with
    | Some c0 =>
        c = c0 /\ _graph_cache st' = _graph_cache st /\ next_obj st' = next_obj st
    | None =>
        obj_id c = next_obj st /\
        _graph_cache st' = <[fingerprint graph_config := c]> (_graph_cache st) /\
        next_obj st' = S (next_obj st)
    end.
Proof.
  intros Ht. destruct t as [[[p a] r] s].
  unfold get_or_build_graph, cleanup_old_checkpoints, bind at 1.
  destruct (cleanup_leaves_cache _CHECKPOINT_MAX_PER_THREAD now st)
    as (n & st0 & -> & Hc & Hn).
  unfold bind, get_state. rewrite <- Hc, <- Hn.
  destruct (_graph_cache st0 !! fingerprint graph_config) as [c0|] eqn:Hfp.
  - unfold ret. rewrite Hfp. by exists c0, st0.
  - rewrite (build_graph_toggles graph_config p a r s st0 Ht).
    unfold cache_store, modify. simpl. rewrite lookup_insert_eq. unfold ret.
    eexists. eexists. split; [reflexivity|]. simpl.
    by rewrite lookup_insert_eq.
Qed.

Lemma get_or_build_wf (now : Z) (graph_config : pyval) (st st' : gb_state)
    (c : compiled) (t : bool * bool * bool * bool) :
  toggles graph_config = Ok t ->
  cache_wf st ->
  get_or_build now graph_config st = (Ok c, st') ->
  cache_wf st'.
Proof.
  intros Ht [Hlt Hinj] Hrun.
  destruct (get_or_build_spec now graph_config st t Ht) as (c' & st'' & Hrun' & _ & Hcase).
  rewrite Hrun in Hrun'. injection Hrun' as <- <-.
  destruct (_graph_cache st !! fingerprint graph_config) as [c0|] eqn:Hfp.
  - destruct Hcase as (_ & Hc & Hn). split; rewrite Hc; [rewrite Hn|]; done.
  - destruct Hcase as (Hid & Hc & Hn). split; rewrite Hc.
    + rewrite Hn. intros fp c1. rewrite lookup_insert.
      case_decide; [intros [= <-]; lia|]. intros H1. apply Hlt in H1. lia.
    + intros fp1 fp2 c1 c2. rewrite !lookup_insert.
      repeat case_decide; subst; try done.
      * intros [= <-] H2 Heq. apply Hlt in H2. lia.
      * intros H1 [= <-] Heq. apply Hlt in H1. lia.
      * apply Hinj.
Qed.

Lemma cache_by_fingerprint (now1 now2 : Z) (c1 c2 : pyval) (st : gb_state)
    (t1 t2 : bool * bool * bool * bool) :
  cache_wf st ->
  wf c1 -> wf c2 ->
  toggles c1 = Ok t1 -> toggles c2 = Ok t2 ->
  exists g1 st1 g2 st2,
    get_or_build now1 c1 st = (Ok g1, st1) /\
    get_or_build now2 c2 st1 = (Ok g2, st2) /\
    (same_config c1 c2 -> fingerprint c1 = fingerprint c2 /\ g1 = g2) /\
    (t1 <> t2 ->
     json_dumps c1 <> json_dumps c2 /\
     ((fingerprint c1 = fingerprint c2 -> json_dumps c1 = json_dumps c2) ->
      fingerprint c1 <> fingerprint c2 /\ obj_id g1 <> obj_id g2)).
Proof.
  intros Hwf Hw1 Hw2 Ht1 Ht2.
  destruct (get_or_build_spec now1 c1 st t1 Ht1) as (g1 & st1 & Hrun1 & Hg1 & _).
  destruct (get_or_build_spec now2 c2 st1 t2 Ht2) as (g2 & st2 & Hrun2 & Hg2 & Hcase).
  pose proof (get_or_build_wf _ _ _ _ _ _ Ht1 Hwf Hrun1) as Hwf1.
  pose proof (get_or_build_wf _ _ _ _ _ _ Ht2 Hwf1 Hrun2) as [_ Hinj2].
  exists g1, st1, g2, st2. split; [done|]. split; [done|]. split.
  - intros Hsame.
    assert (Hfp : fingerprint c1 = fingerprint c2).
    { unfold _config_fingerprint. by rewrite (same_config_text c1 Hw1 c2 Hsame). }
    split; [done|]. rewrite <- Hfp, Hg1 in Hcase. by destruct Hcase as [-> _].
  - intros Hdiff.
    assert (Htext : json_dumps c1 <> json_dumps c2).
    { intros Heq. apply json_dumps_same_config in Heq; [|done|done].
      apply toggles_same in Heq; [|done]. congruence. }
    split; [done|]. intros Hhash.
    assert (Hfp : fingerprint c1 <> fingerprint c2) by (intros Heq; by apply Htext, Hhash).
    split; [done|]. intros Hid. apply Hfp.
    apply (Hinj2 _ _ g1 g2); [|done|done].
    destruct (_graph_cache st1 !! fingerprint c2) as [c0|].
    + destruct Hcase as (_ & -> & _). done.
    + destruct Hcase as (_ & -> & _). by rewrite lookup_insert_ne.
Qed.

End Cache.

Lemma cache_wf_initial : cache_wf initial_state.
Proof. split; [intros fp c|intros fp1 fp2 c1 c2]; simpl; by rewrite lookup_empty. Qed.

Lemma config_wf (p a r s : bool) : wf (config_of p a r s) /\ wf (config_reordered p a r s).
Proof.
  split; simpl; repeat split;
    try (apply (bool_decide_unpack _); vm_compute; exact I).
Qed.

(** *** The models of [hashlib.sha256] and [json.dumps] on known values *)

(** The digests are those [hashlib.sha256(...).hexdigest()] gives for
    the same bytes, the fingerprints those of
    [hashlib.sha256(json.dumps(cfg, sort_keys=True).encode()).hexdigest()[:16]]. *)
Example sha256_abc :
  Sha256.sha256_hexdigest "abc"
  = "ba7816bf8f01cfea414140de5dae2223b00361a396177a9cb410ff61f20015ad".
Proof. vm_compute. reflexivity. Qed.

Example sha256_empty :
  Sha256.sha256_hexdigest ""
  = "e3b0c44298fc1c149afbf4c8996fb92427ae41e4649b934ca495991b7852b855".
Proof. vm_compute. reflexivity. Qed.

Example sha256_sample_text :
  Sha256.sha256_hexdigest (json_dumps sample_value)
  = "668d744ee1b7b5b26121d34096efb4e5960b9ca8986b4292cef9b90d6cca003a".
Proof. vm_compute. reflexivity. Qed.

Example fingerprint_all_on :
  _config_fingerprint Sha256.sha256_hexdigest (config_of true true true true)
  = "61bbaae797eb886d".
Proof. vm_compute. reflexivity. Qed.

Example fingerprint_planner_off :
  _config_fingerprint Sha256.sha256_hexdigest (config_of false true true true)
  = "e46fe5e67cfea52e".
Proof. vm_compute. reflexivity. Qed.

Lemma map_NoDup_inj {A B : Type} (f : A -> B) (l : list A) (x y : A) :
  NoDup (map f l) -> In x l -> In y l -> f x = f y -> x = y.
Proof.
  induction l as [|z l IH]; simpl; [done|].
  intros Hnd Hx Hy Heq. apply NoDup_cons in Hnd as [Hnot Hnd].
  destruct Hx as [->|Hx], Hy as [->|Hy]; [done| | |by apply IH].
  - exfalso. apply Hnot. rewrite Heq. by apply list_elem_of_In, in_map.
  - exfalso. apply Hnot. rewrite <- Heq. by apply list_elem_of_In, in_map.
Qed.

(** With SHA-256, the sixteen configurations of [config_of] have
    sixteen fingerprints. *)
Lemma sixteen_fingerprints (t t' : bool * bool * bool * bool) :
  _config_fingerprint Sha256.sha256_hexdigest (config_of_toggles t)
  = _config_fingerprint Sha256.sha256_hexdigest (config_of_toggles t') ->
  t = t'.
Proof.
  apply (map_NoDup_inj
           (fun t => _config_fingerprint Sha256.sha256_hexdigest (config_of_toggles t))
           all_toggles).
  - apply (bool_decide_unpack _). vm_compute. exact I.
  - destruct t as [[[[] []] []] []]; simpl; tauto.
  - destruct t' as [[[[] []] []] []]; simpl; tauto.
Qed.

Lemma toggles_config_of_toggles (t : bool * bool * bool * bool) :
  toggles (config_of_toggles t) = Ok t /\ wf (config_of_toggles t).
Proof. destruct t as [[[p a] r] s]. split; [reflexivity|apply config_wf]. Qed.



Lemma invalidate_keeps_wf (st : gb_state) :
  cache_wf (snd (invalidate_graph_cache st)).
Proof. split; [intros fp c|intros fp1 fp2 c1 c2]; simpl; by rewrite lookup_empty. Qed.

End GraphCache.

(** ** The in-memory cache *)

Module MemoryCacheFacts.
Import PyVal MemoryCache.

Section Facts.

Context {V : Type}.

Implicit Types (l : list (string * entry V)) (c : cache V) (e : entry V).

Ltac run_cache :=
  unfold get, set, delete, clear, exists_, _delete_unlocked, record,
         bind, get_state, put_state, modify, ret, with_items;
  simpl.

(** *** The ordered dict *)

Lemma contains_assoc (key : string) c :
  contains key c = match assoc key (_cache c) with Some _ => true | None => false end.
Proof.
  unfold contains, keys. induction (_cache c) as [|[k e] l IH]; simpl; [done|].
  destruct (String.eqb key k); [done|apply IH].
Qed.

Lemma assoc_None_keys (key : string) l :
  assoc key l = None <-> ~ In key (map fst l).
Proof.
  induction l as [|[k e] l IH]; simpl; [tauto|].
  destruct (String.eqb key k) eqn:Hk.
  - apply String.eqb_eq in Hk. split; [done|]. intros H. exfalso. apply H. by left.
  - apply String.eqb_neq in Hk. rewrite IH. split; [|tauto].
    intros H [Heq|Hin]; [by subst|done].
Qed.

Lemma keys_remove (key : string) l :
  map fst (remove_key key l)
  = List.filter (fun k => negb (String.eqb key k)) (map fst l).
Proof.
  unfold remove_key. induction l as [|[k e] l IH]; simpl; [done|].
  destruct (String.eqb key k); simpl; by rewrite IH.
Qed.

Lemma remove_absent (key : string) l :
  ~ In key (map fst l) -> remove_key key l = l.
Proof.
  unfold remove_key. induction l as [|[k e] l IH]; simpl; [done|]. intros H.
  destruct (String.eqb key k) eqn:Hk.
  - apply String.eqb_eq in Hk. exfalso. apply H. by left.
  - simpl. rewrite IH; [done|]. tauto.
Qed.

Lemma remove_not_in (key : string) l : ~ In key (map fst (remove_key key l)).
Proof.
  rewrite keys_remove. intros H. apply List.filter_In in H as [_ H].
  by rewrite String.eqb_refl in H.
Qed.

Lemma remove_other_in (key k : string) l :
  k <> key -> In k (map fst l) -> In k (map fst (remove_key key l)).
Proof.
  intros Hne Hin. rewrite keys_remove. apply List.filter_In. split; [done|].
  apply negb_true_iff, String.eqb_neq. congruence.
Qed.

Lemma remove_NoDup (key : string) l :
  NoDup (map fst l) -> NoDup (map fst (remove_key key l)).
Proof.
  rewrite keys_remove. intros H. apply NoDup_ListNoDup, List.NoDup_filter.
  by apply NoDup_ListNoDup.
Qed.

Lemma remove_length (key : string) l :
  NoDup (map fst l) -> In key (map fst l) ->
  S (length (remove_key key l)) = length l.
Proof.
  induction l as [|[k e] l IH]; simpl; [done|]. intros Hnd Hin.
  apply NoDup_cons in Hnd as [Hnot Hnd]. unfold remove_key in *. simpl.
  destruct (String.eqb key k) eqn:Hk; simpl.
  - apply String.eqb_eq in Hk. subst k. f_equal.
    change (length (remove_key key l) = length l). rewrite remove_absent; [done|].
    intros H. by apply Hnot, list_elem_of_In.
  - apply String.eqb_neq in Hk. f_equal. apply IH; [done|].
    destruct Hin as [?|?]; [congruence|done].
Qed.

Lemma assoc_remove_other (key k : string) l :
  k <> key -> assoc k (remove_key key l) = assoc k l.
Proof.
  intros Hne. unfold remove_key. induction l as [|[k0 e] l IH]; simpl; [done|].
  destruct (String.eqb key k0) eqn:Hk; simpl.
  - apply String.eqb_eq in Hk. subst k0.
    by replace (String.eqb k key) with false by (symmetry; by apply String.eqb_neq).
  - by rewrite IH.
Qed.

Lemma assoc_app (k : string) l1 l2 :
  assoc k (l1 ++ l2) = match assoc k l1 with Some e => Some e | None => assoc k l2 end.
Proof.
  induction l1 as [|[k0 e] l1 IH]; simpl; [done|]. by destruct (String.eqb k k0).
Qed.

Lemma keys_store (key : string) e l :
  map fst (store key e l)
  = if existsb (String.eqb key) (map fst l) then map fst l else map fst l ++ [key].
Proof.
  induction l as [|[k e0] l IH]; simpl; [done|].
  destruct (String.eqb key k) eqn:Hk; simpl; [by apply String.eqb_eq in Hk; subst|].
  rewrite IH. by destruct (existsb _ _).
Qed.

Lemma assoc_store (key k : string) e l :
  assoc k (store key e l) = if String.eqb k key then Some e else assoc k l.
Proof.
  induction l as [|[k0 e0] l IH]; simpl.
  - by destruct (String.eqb k key).
  - destruct (String.eqb key k0) eqn:Hk; simpl.
    + apply String.eqb_eq in Hk. subst k0. by destruct (String.eqb k key).
    + rewrite IH. destruct (String.eqb k key) eqn:Hkk; [|done].
      apply String.eqb_eq in Hkk. subst k. by rewrite Hk.
Qed.

Lemma existsb_In (key : string) (ks : list string) :
  existsb (String.eqb key) ks = true <-> In key ks.
Proof.
  rewrite existsb_exists. split.
  - intros (x & Hx & Heq). apply String.eqb_eq in Heq. by subst.
  - intros H. exists key. split; [done|apply String.eqb_refl].
Qed.

Lemma existsb_not_In (key : string) (ks : list string) :
  existsb (String.eqb key) ks = false <-> ~ In key ks.
Proof. rewrite <- existsb_In. by destruct (existsb _ _). Qed.

Lemma keys_move_to_end (key : string) l :
  In key (map fst l) ->
  map fst (move_to_end key l)
  = List.filter (fun k => negb (String.eqb key k)) (map fst l) ++ [key].
Proof.
  intros Hin. unfold move_to_end. destruct (assoc key l) as [e|] eqn:Ha.
  - by rewrite map_app, keys_remove.
  - by apply assoc_None_keys in Ha.
Qed.

Lemma assoc_move_to_end (key k : string) l : assoc k (move_to_end key l) = assoc k l.
Proof.
  unfold move_to_end. destruct (assoc key l) as [e|] eqn:Ha; [|done].
  rewrite assoc_app. destruct (String.eqb_spec k key) as [->|Hne].
  - assert (Hn : assoc key (remove_key key l) = None)
      by apply assoc_None_keys, remove_not_in.
    rewrite Hn. simpl. by rewrite String.eqb_refl.
  - rewrite assoc_remove_other by done.
    destruct (assoc k l); [done|]. simpl.
    by replace (String.eqb k key) with false by (symmetry; by apply String.eqb_neq).
Qed.

Lemma move_to_end_NoDup (key : string) l :
  NoDup (map fst l) -> NoDup (map fst (move_to_end key l)).
Proof.
  intros Hnd. unfold move_to_end. destruct (assoc key l) as [e|]; [|done].
  rewrite map_app. apply NoDup_app. split; [by apply remove_NoDup|].
  split; [|apply NoDup_singleton].
  intros x Hx Hx'. apply list_elem_of_In in Hx, Hx'. destruct Hx' as [<-|[]].
  by apply remove_not_in in Hx.
Qed.

Lemma move_to_end_length (key : string) l :
  NoDup (map fst l) -> length (move_to_end key l) = length l.
Proof.
  intros Hnd. unfold move_to_end. destruct (assoc key l) as [e|] eqn:Ha; [|done].
  rewrite length_app. simpl. rewrite Nat.add_1_r. apply remove_length; [done|].
  destruct (in_dec string_dec key (map fst l)) as [Hin|Hout]; [done|].
  apply assoc_None_keys in Hout. congruence.
Qed.

Lemma store_NoDup (key : string) e l :
  NoDup (map fst l) -> NoDup (map fst (store key e l)).
Proof.
  intros Hnd. rewrite keys_store. destruct (existsb _ _) eqn:Hex; [done|].
  apply existsb_not_In in Hex. apply NoDup_app. split; [done|].
  split; [|apply NoDup_singleton].
  intros x Hx Hx'. apply list_elem_of_In in Hx, Hx'. destruct Hx' as [<-|[]]. done.
Qed.

Lemma store_length (key : string) e l :
  length (store key e l)
  = if existsb (String.eqb key) (map fst l) then length l else S (length l).
Proof.
  rewrite <- (length_map fst (store key e l)), keys_store.
  destruct (existsb _ _); rewrite ?length_app, length_map; simpl; lia.
Qed.

(** *** The operations *)

Lemma delete_unlocked_spec (key : string) c :
  _delete_unlocked key c
  = if contains key c
    then (Ok true, mkCache (max_size c) (default_ttl c) (remove_key key (_cache c))
                           (stats c ++ [record_delete]))
    else (Ok false, c).
Proof. run_cache. by destruct (contains key c). Qed.

Lemma delete_unlocked_items (key : string) c :
  _cache (snd (_delete_unlocked key c)) = remove_key key (_cache c) /\
  max_size (snd (_delete_unlocked key c)) = max_size c /\
  default_ttl (snd (_delete_unlocked key c)) = default_ttl c.
Proof.
  rewrite delete_unlocked_spec. destruct (contains key c) eqn:Hc; simpl; [done|].
  split; [|done]. symmetry. apply remove_absent.
  rewrite contains_assoc in Hc. apply assoc_None_keys. by destruct (assoc _ _).
Qed.

Lemma remove_length_le (key : string) l : length (remove_key key l) <= length l.
Proof. unfold remove_key. apply List.filter_length_le. Qed.

Lemma within_remove (m : Z) (key : string) l : within m l -> within m (remove_key key l).
Proof.
  intros [Hnd Hle]. split; [by apply remove_NoDup|].
  pose proof (remove_length_le key l). lia.
Qed.

Lemma within_move (m : Z) (key : string) l : within m l -> within m (move_to_end key l).
Proof.
  intros [Hnd Hle]. split; [by apply move_to_end_NoDup|].
  by rewrite move_to_end_length.
Qed.

Lemma set_spec (now : Z) (key : string) (v : V) (ttl : option Z) c :
  let e := mkEntry v now (now + match ttl with Some t => t | None => default_ttl c end) in
  set now key v ttl c
  = if contains key c then
      (Ok tt, mkCache (max_size c) (default_ttl c)
                 (move_to_end key (store key e (_cache c))) (stats c ++ [record_set]))
    else if (max_size c <=? Z.of_nat (length (_cache c)))%Z then
      match _cache c with
      | [] => (Raise (Exception "StopIteration"), c)
      | (oldest, _) :: _ =>
          (Ok tt, mkCache (max_size c) (default_ttl c)
                    (store key e (remove_key oldest (_cache c)))
                    (stats c ++ [record_delete; record_set]))
      end
    else
      (Ok tt, mkCache (max_size c) (default_ttl c) (store key e (_cache c))
                (stats c ++ [record_set])).
Proof.
  intros e. run_cache. destruct (contains key c) eqn:Hc; [done|].
  destruct (_ <=? _)%Z; [|done].
  destruct c as [m t [|[k0 e0] l] st]; simpl; [done|].
  unfold contains, keys. simpl. rewrite String.eqb_refl. simpl.
  by rewrite <- app_assoc.
Qed.

Lemma set_within (now : Z) (key : string) (v : V) (ttl : option Z) c :
  within (max_size c) (_cache c) ->
  within (max_size c) (_cache (snd (set now key v ttl c))) /\
  max_size (snd (set now key v ttl c)) = max_size c.
Proof.
  intros [Hnd Hle]. rewrite set_spec.
  destruct (contains key c) eqn:Hc; simpl.
  - split; [|done]. apply within_move. split; [by apply store_NoDup|].
    rewrite store_length. unfold contains, keys in Hc. by rewrite Hc.
  - assert (Hout : existsb (String.eqb key) (map fst (_cache c)) = false) by exact Hc.
    destruct (_ <=? _)%Z eqn:Hfull.
    + destruct (_cache c) as [|[k0 e0] l] eqn:Hl.
      { cbn [snd]. rewrite Hl. by split. }
      set (l0 := (k0, e0) :: l) in *.
      cbn [snd _cache max_size]. split; [|done].
      split; [by apply store_NoDup, remove_NoDup|].
      rewrite store_length.
      assert (Hrem : S (length (remove_key k0 l0)) = length l0)
        by (apply remove_length; [done|by left]).
      assert (Hk : existsb (String.eqb key) (map fst (remove_key k0 l0)) = false).
      { apply existsb_not_In. intros Hin. rewrite keys_remove in Hin.
        apply List.filter_In in Hin as [Hin _]. by apply existsb_not_In in Hout. }
      rewrite Hk. lia.
    + simpl. split; [|done]. split; [by apply store_NoDup|].
      rewrite store_length, Hout. apply Z.leb_gt in Hfull. lia.
Qed.

Lemma delete_all_items (ks : list string) :
  forall c,
    _cache (snd (delete_all ks c)) = fold_left (fun l k => remove_key k l) ks (_cache c) /\
    max_size (snd (delete_all ks c)) = max_size c /\
    fst (delete_all ks c) = Ok tt.
Proof.
  induction ks as [|k ks IH]; intros c; simpl; [done|].
  unfold bind. rewrite delete_unlocked_spec.
  destruct (contains k c) eqn:Hc; simpl.
  - destruct (IH (mkCache (max_size c) (default_ttl c) (remove_key k (_cache c))
                    (stats c ++ [record_delete]))) as (H1 & H2 & H3).
    destruct (delete_all ks _) as [r c']. simpl in *. by subst.
  - destruct (IH c) as (H1 & H2 & H3).
    destruct (delete_all ks c) as [r c']. simpl in *. subst. split; [|done].
    rewrite H1. f_equal. symmetry. apply remove_absent.
    rewrite contains_assoc in Hc. apply assoc_None_keys. by destruct (assoc _ _).
Qed.

Lemma within_remove_all (m : Z) (ks : list string) :
  forall l, within m l -> within m (fold_left (fun l k => remove_key k l) ks l).
Proof.
  induction ks as [|k ks IH]; intros l H; simpl; [done|].
  by apply IH, within_remove.
Qed.

Lemma run_call_within (op : call V) c :
  within (max_size c) (_cache c) ->
  within (max_size c) (_cache (run_call op c)) /\ max_size (run_call op c) = max_size c.
Proof.
  intros H. destruct op as [now key|now key v ttl|key| |now key|now]; simpl.
  - run_cache. destruct (assoc key (_cache c)) as [e|]; simpl; [|done].
    destruct (_ <? _)%Z; simpl; [|by split; [apply within_move|]].
    destruct (contains key c); simpl; [|done]. by split; [apply within_remove|].
  - by apply set_within.
  - unfold delete. destruct (delete_unlocked_items key c) as (-> & -> & _).
    by split; [apply within_remove|].
  - run_cache. split; [|done]. split; [constructor|]. destruct H. simpl. lia.
  - run_cache. destruct (assoc key (_cache c)) as [e|]; simpl; [|done].
    destruct (_ <? _)%Z; simpl; [|done].
    destruct (contains key c); simpl; [|done]. by split; [apply within_remove|].
  - unfold cleanup_expired, bind, get_state, ret.
    destruct (delete_all_items
                (map fst (List.filter (fun kv => (expire_at (snd kv) <? now)%Z) (_cache c))) c)
      as (H1 & H2 & H3).
    destruct (delete_all _ c) as [[[]|err] c']; simpl in *; [|done].
    rewrite H1, H2. by split; [apply within_remove_all|].
Qed.

Lemma get_spec (now : Z) (key : string) c :
  get now key c
  = match assoc key (_cache c) with
    | None =>
        (Ok None, mkCache (max_size c) (default_ttl c) (_cache c)
                    (stats c ++ [record_miss]))
    | Some e =>
        if (expire_at e <? now)%Z then
          (Ok None, mkCache (max_size c) (default_ttl c) (remove_key key (_cache c))
                      (stats c ++ [record_delete; record_miss]))
        else
          (Ok (Some (value e)),
           mkCache (max_size c) (default_ttl c) (move_to_end key (_cache c))
             (stats c ++ [record_hit]))
    end.
Proof.
  run_cache.
  destruct (assoc key (_cache c)) as [e|] eqn:Hassoc; [|done].
  destruct (_ <? _)%Z; [|done]. rewrite contains_assoc, Hassoc.
  simpl. by rewrite <- app_assoc.
Qed.

Lemma exists_spec (now : Z) (key : string) c :
  exists_ now key c
  = match assoc key (_cache c) with
    | None => (Ok false, c)
    | Some e =>
        if (expire_at e <? now)%Z then
          (Ok false, mkCache (max_size c) (default_ttl c) (remove_key key (_cache c))
                       (stats c ++ [record_delete]))
        else (Ok true, c)
    end.
Proof.
  run_cache.
  destruct (assoc key (_cache c)) as [e|] eqn:Hassoc; [|done].
  destruct (_ <? _)%Z; [|done]. by rewrite contains_assoc, Hassoc.
Qed.

Lemma assoc_remove_same (key : string) l : assoc key (remove_key key l) = None.
Proof. apply assoc_None_keys, remove_not_in. Qed.

Lemma assoc_remove (key k : string) l :
  assoc k (remove_key key l) = if String.eqb k key then None else assoc k l.
Proof.
  destruct (String.eqb k key) eqn:Hk.
  - apply String.eqb_eq in Hk. subst k. apply assoc_remove_same.
  - apply String.eqb_neq in Hk. by apply assoc_remove_other.
Qed.

Lemma remove_head (k0 : string) e0 l :
  NoDup (map fst ((k0, e0) :: l)) -> remove_key k0 ((k0, e0) :: l) = l.
Proof.
  intros Hnd. unfold remove_key. simpl. rewrite String.eqb_refl. simpl.
  apply remove_absent. apply NoDup_cons in Hnd as [Hnot _].
  intros Hin. by apply Hnot, list_elem_of_In.
Qed.

Lemma filter_filter {A : Type} (f g : A -> bool) (l : list A) :
  List.filter f (List.filter g l) = List.filter (fun x => g x && f x) l.
Proof.
  induction l as [|x l IH]; simpl; [done|].
  destruct (g x); simpl; [|done]. destruct (f x); by rewrite IH.
Qed.

Lemma remove_all_filter (ks : list string) :
  forall l,
    fold_left (fun l k => remove_key k l) ks l
    = List.filter (fun kv => negb (existsb (String.eqb (fst kv)) ks)) l.
Proof.
  induction ks as [|k ks IH]; intros l; simpl.
  - induction l as [|x l IHl]; simpl; [done|]. by rewrite <- IHl.
  - rewrite IH. unfold remove_key. rewrite filter_filter.
    apply List.filter_ext. intros [k1 e1]. simpl.
    rewrite (String.eqb_sym k1 k). by destruct (String.eqb k k1), (existsb _ _).
Qed.

Lemma NoDup_keys_entry (k : string) e1 e2 l :
  NoDup (map fst l) -> In (k, e1) l -> In (k, e2) l -> e1 = e2.
Proof.
  induction l as [|[k0 e0] l IH]; simpl; [done|].
  intros Hnd [H1|H1] [H2|H2].
  - congruence.
  - apply NoDup_cons in Hnd as [Hnot _]. exfalso. apply Hnot, list_elem_of_In.
    injection H1 as -> ->. by apply (List.in_map fst) in H2.
  - apply NoDup_cons in Hnd as [Hnot _]. exfalso. apply Hnot, list_elem_of_In.
    injection H2 as -> ->. by apply (List.in_map fst) in H1.
  - apply NoDup_cons in Hnd as [_ Hnd]. by apply IH.
Qed.

End Facts.

(** X1.  Whatever calls are made on a [MemoryCache] created with a
    [max_size] of at least 0, in whatever order and at whatever times,
    the keys it holds stay pairwise distinct and their number never
    exceeds [max_size]; [max_size] itself never changes. *)
Theorem cache_never_over_size {V : Type} (ops : list (call V)) (m t : Z) :
  (0 <= m)%Z ->
  within_size (run_calls ops (new_cache m t)) /\
  max_size (run_calls ops (new_cache m t)) = m.
Proof.
  intros Hm. unfold run_calls.
  assert (Hgen : forall c, within (max_size c) (_cache c) ->
            within (max_size c) (_cache (fold_left (fun c op => run_call op c) ops c)) /\
            max_size (fold_left (fun c op => run_call op c) ops c) = max_size c).
  { induction ops as [|op ops IH]; intros c H; simpl; [done|].
    destruct (run_call_within op c H) as [H1 H2]. rewrite <- H2 in H1.
    destruct (IH _ H1) as [H3 H4]. rewrite H4, H2 in *. done. }
  destruct (Hgen (new_cache m t)) as [H1 H2].
  { split; [constructor|simpl; lia]. }
  simpl in H1, H2. split; [|done]. unfold within_size, keys, len. by rewrite H2.
Qed.

Lemma cache_never_over_size_witness :
  within_size
    (run_calls [CSet 0 "a" 1%Z None; CSet 0 "b" 2%Z None; CGet 1 "a";
                CSet 2 "c" 3%Z (Some 5%Z); CCleanup 9]
               (new_cache 2 10)) /\
  max_size
    (run_calls [CSet 0 "a" 1%Z None; CSet 0 "b" 2%Z None; CGet 1 "a";
                CSet 2 "c" 3%Z (Some 5%Z); CCleanup 9]
               (new_cache 2 10)) = 2%Z.
Proof.
  apply (cache_never_over_size
           [CSet 0 "a" 1%Z None; CSet 0 "b" 2%Z None; CGet 1 "a";
            CSet 2 "c" 3%Z (Some 5%Z); CCleanup 9] 2 10).
  lia.
Defined.


(** X2.  A value stored with [set] is read back by [get] until its time
    to live has passed: after a [set] that returned, at clock reading
    [now] with time to live [ttl] (the cache's default when none is
    given), [get] at [now'] returns the stored value when
    [now' <= now + ttl] and the key stays in the cache; later than that
    it returns a miss and the key is removed. *)
Theorem set_then_get {V : Type} (now now' : Z) (key : string) (v : V)
    (ttl : option Z) (c : cache V) :
  fst (set now key v ttl c) = Ok tt ->
  let t := match ttl with Some t => t | None => default_ttl c end in
  let c1 := snd (set now key v ttl c) in
  fst (get now' key c1) = Ok (if (now + t <? now')%Z then None else Some v) /\
  contains key (snd (get now' key c1)) = negb (now + t <? now')%Z.
Proof.
  intros Hok t c1.
  set (e := mkEntry v now (now + t)).
  assert (Hassoc : assoc key (_cache c1) = Some e).
  { subst c1. revert Hok. rewrite set_spec. fold t. fold e.
    destruct (contains key c).
    - intros _. simpl. rewrite assoc_move_to_end, assoc_store.
      by rewrite String.eqb_refl.
    - destruct (_ <=? _)%Z.
      + destruct (_cache c) as [|[k0 e0] l]; [done|]. intros _.
        cbn [snd _cache]. by rewrite assoc_store, String.eqb_refl.
      + intros _. cbn [snd _cache]. by rewrite assoc_store, String.eqb_refl. }
  rewrite get_spec, Hassoc. cbn [expire_at e value].
  destruct (now + t <? now')%Z; cbn [fst snd negb]; (split; [done|]).
  - rewrite contains_assoc. cbn [_cache]. by rewrite assoc_remove_same.
  - rewrite contains_assoc. cbn [_cache]. by rewrite assoc_move_to_end, Hassoc.
Qed.

Lemma set_then_get_witness :
  fst (get 7 "k" (snd (set 2 "k" 42%Z (Some 5%Z) (new_cache 1 3600)))) = Ok (Some 42%Z) /\
  fst (get 8 "k" (snd (set 2 "k" 42%Z (Some 5%Z) (new_cache 1 3600)))) = Ok None.
Proof.
  split.
  - apply (set_then_get 2 7 "k" 42%Z (Some 5%Z) (new_cache 1 3600)). reflexivity.
  - apply (set_then_get 2 8 "k" 42%Z (Some 5%Z) (new_cache 1 3600)). reflexivity.
Defined.

(** X3.  When a new key is stored in a cache that is full, exactly the
    least recently used key is evicted: with pairwise distinct keys, a
    positive [max_size] and at least [max_size] keys held, [set] of a
    key that is not in the cache returns, and afterwards the keys are
    the former ones without the first, followed by the new key. *)
Theorem set_evicts_least_recent {V : Type} (now : Z) (key : string) (v : V)
    (ttl : option Z) (c : cache V) :
  NoDup (keys c) ->
  (0 < max_size c)%Z ->
  (max_size c <= len c)%Z ->
  contains key c = false ->
  fst (set now key v ttl c) = Ok tt /\
  keys (snd (set now key v ttl c)) = tl (keys c) ++ [key].
Proof.
  unfold keys, len. intros Hnd Hpos Hfull Hc. rewrite set_spec, Hc.
  apply Z.leb_le in Hfull. rewrite Hfull.
  apply Z.leb_le in Hfull.
  destruct (_cache c) as [|[k0 e0] l] eqn:Hl; [simpl in Hfull; lia|].
  cbn [fst snd _cache]. split; [done|].
  rewrite (remove_head k0 e0 l Hnd), keys_store.
  unfold contains, keys in Hc. rewrite Hl in Hc. simpl in Hc.
  apply orb_false_elim in Hc as [_ Hc]. by rewrite Hc.
Qed.

Lemma set_evicts_least_recent_witness :
  keys (snd (set 3 "c" 3%Z None
               (run_calls [CSet 0 "a" 1%Z None; CSet 1 "b" 2%Z None] (new_cache 2 60))))
  = ["b"; "c"].
Proof.
  apply (set_evicts_least_recent 3 "c" 3%Z None
           (run_calls [CSet 0 "a" 1%Z None; CSet 1 "b" 2%Z None] (new_cache 2 60))).
  - vm_compute. apply (bool_decide_unpack _). vm_compute. exact I.
  - reflexivity.
  - vm_compute. discriminate.
  - reflexivity.
Defined.

(** X4.  A key that was just read is not the next one to go: in a cache
    with [max_size] of at least 2, after [get] returned a hit for [k],
    the key [k] is still in the cache after any one following [set],
    whatever key that [set] stores and whether or not it evicts. *)
Theorem recently_read_survives_set {V : Type} (now now' : Z) (k k' : string)
    (x v : V) (ttl : option Z) (c : cache V) :
  (2 <= max_size c)%Z ->
  fst (get now k c) = Ok (Some x) ->
  contains k (snd (set now' k' v ttl (snd (get now k c)))) = true.
Proof.
  intros Hmax. rewrite get_spec.
  destruct (assoc k (_cache c)) as [e|] eqn:Hassoc; [|done].
  destruct (_ <? _)%Z; [done|]. intros _. cbn [snd].
  set (c1 := mkCache _ _ _ _).
  assert (H1 : assoc k (_cache c1) = Some e)
    by (subst c1; cbn [_cache]; by rewrite assoc_move_to_end).
  rewrite set_spec. set (e' := mkEntry _ _ _).
  assert (Hst : forall l, assoc k l = Some e -> exists e2, assoc k (store k' e' l) = Some e2).
  { intros l Hl. rewrite assoc_store. destruct (String.eqb k k'); eauto. }
  destruct (contains k' c1).
  - cbn [snd]. rewrite contains_assoc. cbn [_cache]. rewrite assoc_move_to_end.
    by destruct (Hst _ H1) as [e2 ->].
  - destruct (_ <=? _)%Z eqn:Hfull.
    + subst c1. cbn [_cache max_size] in *. unfold move_to_end in *.
      rewrite Hassoc in *.
      destruct (remove_key k (_cache c)) as [|[k0 e0] r] eqn:Hr.
      { apply Z.leb_le in Hfull. simpl in Hfull. lia. }
      cbn [app snd]. rewrite contains_assoc. cbn [_cache].
      assert (Hk0 : k <> k0).
      { intros ->. apply (remove_not_in k0 (_cache c)). rewrite Hr. by left. }
      destruct (Hst (remove_key k0 ((k0, e0) :: r ++ [(k, e)]))) as [e2 ->]; [|done].
      by rewrite assoc_remove_other.
    + cbn [snd]. rewrite contains_assoc. cbn [_cache].
      by destruct (Hst _ H1) as [e2 ->].
Qed.

Lemma recently_read_survives_set_witness :
  contains "a"
    (snd (set 3 "c" 3%Z None
            (snd (get 2 "a"
                    (run_calls [CSet 0 "a" 1%Z None; CSet 1 "b" 2%Z None]
                               (new_cache 2 60)))))) = true.
Proof.
  apply (recently_read_survives_set 2 3 "a" "c" 1%Z 3%Z None
           (run_calls [CSet 0 "a" 1%Z None; CSet 1 "b" 2%Z None] (new_cache 2 60))).
  - vm_compute. discriminate.
  - reflexivity.
Defined.

(** X5.  [cleanup_expired] removes exactly the entries whose expiry time
    is before the clock reading and nothing else: with pairwise distinct
    keys, what is left are the other entries in their former order, and
    the number returned is the number of entries removed. *)
Theorem cleanup_expired_exact {V : Type} (now : Z) (c : cache V) :
  NoDup (keys c) ->
  _cache (snd (cleanup_expired now c))
  = List.filter (fun kv => negb (expire_at (snd kv) <? now)%Z) (_cache c) /\
  fst (cleanup_expired now c) = Ok (len c - len (snd (cleanup_expired now c)))%Z.
Proof.
  unfold keys, len. intros Hnd. unfold cleanup_expired, bind, get_state, ret.
  set (expired := fun kv : string * entry V => (expire_at (snd kv) <? now)%Z).
  destruct (delete_all_items (map fst (List.filter expired (_cache c))) c)
    as (H1 & _ & H3).
  destruct (delete_all _ c) as [[[]|err] c']; simpl in *; [|done].
  assert (Hleft : _cache c' = List.filter (fun kv => negb (expired kv)) (_cache c)).
  { rewrite H1, remove_all_filter. apply List.filter_ext_in. intros [k e] Hin.
    f_equal. simpl. destruct (expired (k, e)) eqn:Hexp.
    - apply existsb_In. apply (List.in_map fst _ (k, e)), List.filter_In. by split.
    - apply existsb_not_In. intros Hin2. apply List.in_map_iff in Hin2
        as ([k2 e2] & Hk & Hin2). simpl in Hk. subst k2.
      apply List.filter_In in Hin2 as [Hin2 Hexp2].
      rewrite (NoDup_keys_entry k e e2 (_cache c)) in Hexp by done. congruence. }
  split; [done|]. rewrite Hleft. f_equal.
  rewrite length_map.
  pose proof (List.filter_length expired (_cache c)). lia.
Qed.

Lemma cleanup_expired_exact_witness :
  keys (snd (cleanup_expired 9
               (run_calls [CSet 0 "a" 1%Z (Some 5%Z); CSet 0 "b" 2%Z None;
                           CSet 1 "c" 3%Z (Some 2%Z)] (new_cache 5 60))))
  = ["b"] /\
  fst (cleanup_expired 9
         (run_calls [CSet 0 "a" 1%Z (Some 5%Z); CSet 0 "b" 2%Z None;
                     CSet 1 "c" 3%Z (Some 2%Z)] (new_cache 5 60)))
  = Ok 2%Z.
Proof.
  destruct (cleanup_expired_exact 9
              (run_calls [CSet 0 "a" 1%Z (Some 5%Z); CSet 0 "b" 2%Z None;
                          CSet 1 "c" 3%Z (Some 2%Z)] (new_cache 5 60))) as [H1 H2].
  - vm_compute. apply (bool_decide_unpack _). vm_compute. exact I.
  - split; [unfold keys; rewrite H1; reflexivity | rewrite H2; reflexivity].
Defined.

(** X6.  [set] fails in exactly one situation: on an empty cache whose
    [max_size] is 0 or less, where looking for a key to evict raises
    [StopIteration] and the cache, its statistics included, is left as
    it was.  In every other state [set] returns. *)
Theorem set_fails_only_when_empty_and_sizeless {V : Type} (now : Z) (key : string)
    (v : V) (ttl : option Z) (c : cache V) :
  (fst (set now key v ttl c) = Ok tt <-> (_cache c <> [] \/ (0 < max_size c)%Z)) /\
  (fst (set now key v ttl c) = Ok tt \/
   set now key v ttl c = (Raise (Exception "StopIteration"), c)).
Proof.
  rewrite set_spec. rewrite contains_assoc.
  destruct (_cache c) as [|[k0 e0] l] eqn:Hl.
  - cbn [assoc length]. change (Z.of_nat 0) with 0%Z.
    destruct (max_size c <=? 0)%Z eqn:Hm.
    + apply Z.leb_le in Hm. split; [|by right]. split; [done|]. intros [?|?]; [done|lia].
    + apply Z.leb_gt in Hm. split; [|by left]. split; [|done]. by right.
  - destruct (assoc key _); [|destruct (_ <=? _)%Z];
      (split; [|by left]); (split; [|done]); by left.
Qed.

(** X7.  [delete] answers whether the key was in the cache; afterwards
    the key is not in the cache, and every other key has the entry it
    had before. *)
Theorem delete_removes_only_that_key {V : Type} (key k : string) (c : cache V) :
  fst (delete key c) = Ok (contains key c) /\
  contains key (snd (delete key c)) = false /\
  assoc k (_cache (snd (delete key c)))
  = if String.eqb k key then None else assoc k (_cache c).
Proof.
  unfold delete. destruct (delete_unlocked_items key c) as (Hitems & _ & _).
  split; [|split].
  - rewrite delete_unlocked_spec. by destruct (contains key c).
  - rewrite contains_assoc, Hitems. by rewrite assoc_remove_same.
  - rewrite Hitems. apply assoc_remove.
Qed.

(** X8.  [exists] answers exactly whether [get] at the same clock reading
    would return a hit, and like [get] it removes an entry found
    expired; unlike [get] it records nothing in the statistics of hits
    and misses and does not move the key to the most recently used
    place: when it answers true the cache is left as it was. *)
Theorem exists_agrees_with_get {V : Type} (now : Z) (key k : string) (c : cache V) :
  let hit := match fst (get now key c) with Ok (Some _) => true | _ => false end in
  fst (exists_ now key c) = Ok hit /\
  assoc k (_cache (snd (exists_ now key c))) = assoc k (_cache (snd (get now key c))) /\
  (if hit then snd (exists_ now key c) = c
   else _cache (snd (exists_ now key c)) = remove_key key (_cache c)).
Proof.
  rewrite exists_spec, get_spec.
  destruct (assoc key (_cache c)) as [e|] eqn:Hassoc.
  - destruct (_ <? _)%Z; cbn [fst snd _cache]; [done|].
    by rewrite assoc_move_to_end.
  - cbn [fst snd _cache]. repeat split. symmetry. apply remove_absent.
    by apply assoc_None_keys.
Qed.

End MemoryCacheFacts.

(** ** What a checkpoint cleanup keeps and removes *)

Module CheckpointRetention.
Import GraphBuilder StringOrder CheckpointStore Retention.

(** *** The deletions as one filter *)

Lemma prune_threads_doomed (max_per_thread : Z) (by_thread : list (string * list skey)) :
  forall acc,
    fold_left (prune_thread max_per_thread) by_thread acc
    = fold_left del_key (doomed max_per_thread by_thread) acc.
Proof.
  induction by_thread as [|e by_thread IH]; intros acc; simpl; [done|].
  rewrite fold_left_app, IH. f_equal. unfold prune_thread.
  by destruct (_ <=? _)%Z.
Qed.

Lemma filter_all {A : Type} (P : A -> Prop) `{!forall x, Decision (P x)} (l : list A) :
  (forall x, x ∈ l -> P x) -> filter P l = l.
Proof.
  induction l as [|x l IH]; intros Hall; [done|].
  rewrite filter_cons_True by (apply Hall; by left).
  f_equal. apply IH. intros y Hy. apply Hall. by right.
Qed.

Lemma del_key_filter (sto : list (skey * string)) (c : Z) (d : skey) :
  fst (del_key (sto, c) d) = filter (fun kv => fst kv <> d) sto.
Proof.
  unfold del_key. destruct (existsb _ sto) eqn:Hex; [done|]. simpl.
  symmetry. apply filter_all. intros kv Hin Heq.
  assert (Ht : existsb (fun kv => bool_decide (fst kv = d)) sto = true).
  { apply existsb_exists. exists kv. split; [by apply list_elem_of_In|].
    by apply bool_decide_eq_true. }
  congruence.
Qed.

Lemma del_keys_filter (ds : list skey) :
  forall sto c,
    fst (fold_left del_key ds (sto, c)) = filter (fun kv => fst kv ∉ ds) sto.
Proof.
  induction ds as [|d ds IH]; intros sto c; cbn [fold_left].
  - symmetry. apply filter_all. intros kv _. apply not_elem_of_nil.
  - pose proof (del_key_filter sto c d) as Hd.
    destruct (del_key (sto, c) d) as [sto1 c1]. simpl in Hd. subst sto1.
    rewrite IH, list_filter_filter. apply list_filter_iff. intros kv.
    rewrite not_elem_of_cons. tauto.
Qed.

Lemma keys_filter (P : skey -> Prop) (Q : skey * string -> Prop)
    `{!forall k, Decision (P k)} `{!forall kv, Decision (Q kv)}
    (sto : list (skey * string)) :
  (forall kv, Q kv <-> P (fst kv)) ->
  map fst (filter Q sto) = filter P (map fst sto).
Proof.
  intros HPQ. induction sto as [|[k v] sto IH]; [done|]. simpl.
  destruct (decide (P k)) as [Hk|Hk].
  - rewrite (filter_cons_True Q) by (by apply HPQ).
    rewrite (filter_cons_True P) by done. simpl. by rewrite IH.
  - rewrite (filter_cons_False Q) by (by rewrite HPQ).
    by rewrite (filter_cons_False P) by done.
Qed.

Lemma filter_one_length (sto : list (skey * string)) (d : skey) :
  NoDup (map fst sto) ->
  In d (map fst sto) ->
  S (length (filter (fun kv => fst kv <> d) sto)) = length sto.
Proof.
  induction sto as [|[k v] sto IH]; simpl; [done|].
  intros Hnd Hin. apply NoDup_cons in Hnd as [Hnot Hnd].
  destruct (decide (k = d)) as [->|Hne].
  - rewrite filter_cons_False by (simpl; tauto). f_equal.
    f_equal. apply filter_all. intros [k' v'] Hin' Heq. simpl in Heq. subst k'.
    apply Hnot.
    apply list_elem_of_In, in_map_iff. exists (d, v'). split; [done|].
    by apply list_elem_of_In.
  - rewrite filter_cons_True by done. simpl. f_equal. apply IH; [done|].
    destruct Hin as [?|?]; [done|done].
Qed.

Lemma del_keys_count (ds : list skey) :
  forall sto c,
    NoDup (map fst sto) ->
    (snd (fold_left del_key ds (sto, c))
     + Z.of_nat (length (fst (fold_left del_key ds (sto, c))))
     = c + Z.of_nat (length sto))%Z.
Proof.
  induction ds as [|d ds IH]; intros sto c Hnd; cbn [fold_left]; [done|].
  unfold del_key at 2 4. destruct (existsb _ sto) eqn:Hex.
  - rewrite IH.
    + assert (Hin : In d (map fst sto)).
      { apply existsb_exists in Hex as (kv & Hin & Heq).
        apply bool_decide_eq_true in Heq. subst d. by apply in_map. }
      pose proof (filter_one_length sto d Hnd Hin). lia.
    + rewrite (keys_filter (fun k => k <> d) (fun kv => fst kv <> d)) by done.
      by apply NoDup_filter.
  - by apply IH.
Qed.

(** *** One run of the cleanup *)

Lemma cleanup_with_due (max_per_thread now : Z) (st : gb_state) :
  due now st ->
  let r := fold_left del_key
             (doomed max_per_thread (group_by_thread (stored_keys st)))
             (storage st, 0%Z) in
  cleanup_with max_per_thread now st
  = (Ok (snd r), mkState (_graph_cache st) (fst r) now (next_obj st)).
Proof.
  unfold due, cleanup_with, stored_keys. intros Hdue.
  replace (_ <? _)%Z with false by (symmetry; apply Z.ltb_ge; lia).
  destruct (storage st) as [|kv sto] eqn:Hsto; [done|].
  rewrite prune_threads_doomed. by destruct (fold_left _ _ _).
Qed.

Lemma cleanup_with_early (max_per_thread now : Z) (st : gb_state) :
  ~ due now st -> cleanup_with max_per_thread now st = (Ok 0%Z, st).
Proof.
  unfold due, cleanup_with. intros Hdue.
  by replace (_ <? _)%Z with true by (symmetry; apply Z.ltb_lt; lia).
Qed.

Lemma cleanup_with_storage (max_per_thread now : Z) (st : gb_state) :
  due now st ->
  storage (snd (cleanup_with max_per_thread now st))
  = filter (fun kv => fst kv ∉ doomed max_per_thread (group_by_thread (stored_keys st)))
           (storage st).
Proof.
  intros Hdue. rewrite (cleanup_with_due _ _ _ Hdue). simpl. apply del_keys_filter.
Qed.

(** *** The groups *)

Lemma setdefault_append_assoc (t t' : string) (k : skey)
    (by_thread : list (string * list skey)) :
  PyVal.assoc t (setdefault_append t' k by_thread)
  = if String.eqb t t'
    then Some (match PyVal.assoc t' by_thread with
               | Some ks => ks ++ [k]
               | None => [k]
               end)
    else PyVal.assoc t by_thread.
Proof.
  induction by_thread as [|[t0 ks0] rest IH]; simpl.
  - by destruct (String.eqb t t').
  - destruct (String.eqb t' t0) eqn:H0; simpl.
    + apply String.eqb_eq in H0. subst t0.
      by destruct (String.eqb t t').
    + rewrite IH. destruct (String.eqb t t0) eqn:H1; [|done].
      apply String.eqb_eq in H1. subst t0.
      destruct (String.eqb t t') eqn:H2; [|done].
      apply String.eqb_eq in H2. subst t'. by rewrite String.eqb_refl in H0.
Qed.

Lemma assoc_entry {A : Type} (t : string) (x : A) (l : list (string * A)) :
  PyVal.assoc t l = Some x -> In (t, x) l.
Proof.
  induction l as [|[t0 x0] l IH]; simpl; [done|].
  destruct (String.eqb t t0) eqn:H0.
  - apply String.eqb_eq in H0. subst t0. intros [= ->]. by left.
  - intros Hl. right. by apply IH.
Qed.

Lemma entry_assoc {A : Type} (t : string) (x : A) (l : list (string * A)) :
  NoDup (map fst l) -> In (t, x) l -> PyVal.assoc t l = Some x.
Proof.
  induction l as [|[t0 x0] l IH]; simpl; [done|].
  intros Hnd Hin. apply NoDup_cons in Hnd as [Hnot Hnd].
  destruct Hin as [[= -> ->]|Hin]; [by rewrite String.eqb_refl|].
  destruct (String.eqb t t0) eqn:H0; [|by apply IH].
  apply String.eqb_eq in H0. subst t0. exfalso. apply Hnot.
  apply list_elem_of_In, in_map_iff. by exists (t, x).
Qed.

Lemma setdefault_append_threads (t : string) (k : skey)
    (by_thread : list (string * list skey)) :
  map fst (setdefault_append t k by_thread)
  = if existsb (String.eqb t) (map fst by_thread) then map fst by_thread
    else map fst by_thread ++ [t].
Proof.
  induction by_thread as [|[t0 ks0] rest IH]; simpl; [done|].
  destruct (String.eqb t t0); simpl; [done|]. rewrite IH.
  by destruct (existsb _ _).
Qed.

Lemma group_key_threads (k : skey) (by_thread : list (string * list skey)) :
  NoDup (map fst by_thread) -> NoDup (map fst (group_key by_thread k)).
Proof.
  intros Hnd. destruct k as [[|t elems]|s]; simpl; try done.
  rewrite setdefault_append_threads.
  destruct (existsb _ _) eqn:Hex; [done|].
  apply NoDup_app. split; [done|]. split; [|apply NoDup_singleton].
  intros x Hx Hx'. apply list_elem_of_In in Hx'. destruct Hx' as [<-|[]].
  assert (Ht : existsb (String.eqb t) (map fst by_thread) = true).
  { apply existsb_exists. exists t. split; [by apply list_elem_of_In|].
    apply String.eqb_refl. }
  congruence.
Qed.

Lemma group_key_complete (k : skey) (seen : list skey)
    (by_thread : list (string * list skey)) :
  complete seen by_thread -> complete (seen ++ [k]) (group_key by_thread k).
Proof.
  intros Hc x t Hin Ht. apply in_app_or in Hin as [Hin|[<-|[]]].
  - destruct (Hc x t Hin Ht) as (ks & Hks & Hx).
    destruct k as [[|t0 elems]|s]; simpl; eauto.
    rewrite setdefault_append_assoc. destruct (String.eqb t t0) eqn:H0; [|eauto].
    apply String.eqb_eq in H0. subst t0. rewrite Hks.
    eexists. split; [done|]. apply in_or_app. by left.
  - destruct k as [[|t0 elems]|s]; simpl in *; try done.
    injection Ht as ->. rewrite setdefault_append_assoc, String.eqb_refl.
    eexists. split; [done|].
    destruct (PyVal.assoc t by_thread); [apply in_or_app; right|]; by left.
Qed.

Lemma group_by_thread_complete (keys : list skey) :
  forall seen by_thread,
    NoDup (map fst by_thread) ->
    complete seen by_thread ->
    NoDup (map fst (fold_left group_key keys by_thread)) /\
    complete (seen ++ keys) (fold_left group_key keys by_thread).
Proof.
  induction keys as [|k keys IH]; intros seen by_thread Hnd Hc; simpl.
  - by rewrite app_nil_r.
  - replace (seen ++ k :: keys) with ((seen ++ [k]) ++ keys)
      by (by rewrite <- app_assoc).
    apply IH; [by apply group_key_threads|by apply group_key_complete].
Qed.

(** What the groups of a store with distinct keys are. *)
Lemma groups_spec (keys : list skey) :
  NoDup keys ->
  let by_thread := group_by_thread keys in
  NoDup (map fst by_thread) /\
  grouped keys by_thread /\
  complete keys by_thread.
Proof.
  intros Hnd by_thread. subst by_thread. unfold group_by_thread.
  destruct (group_by_thread_complete keys [] []) as [H1 H2];
    [constructor|by intros k t []|].
  split; [done|]. split; [|done].
  apply (group_by_thread_grouped keys [] []); [done|by intros t ks []].
Qed.

Lemma thread_keys_In (t : string) (k : skey) (keys : list skey) :
  In k (thread_keys t keys) <-> In k keys /\ thread_of k = Some t.
Proof.
  unfold thread_keys. rewrite <- !list_elem_of_In, list_elem_of_filter. tauto.
Qed.

Lemma NoDup_incl_le {A : Type} (l1 l2 : list A) :
  NoDup l1 -> (forall x, In x l1 -> In x l2) -> length l1 <= length l2.
Proof.
  intros Hnd Hincl. apply submseteq_length, NoDup_submseteq; [done|].
  intros x Hx. apply list_elem_of_In, Hincl. by apply list_elem_of_In.
Qed.

(** A group is never longer than the number of checkpoints of its
    conversation. *)
Lemma group_length (keys : list skey) (t : string) (ks : list skey) :
  NoDup keys ->
  In (t, ks) (group_by_thread keys) ->
  length ks <= length (thread_keys t keys).
Proof.
  intros Hnd Hin. destruct (groups_spec keys Hnd) as (_ & Hg & _).
  destruct (Hg t ks Hin) as [Hks Hall].
  apply NoDup_incl_le; [done|]. intros x Hx. apply thread_keys_In. by apply Hall.
Qed.

(** *** The doomed keys *)

Lemma doomed_In (max_per_thread : Z) (by_thread : list (string * list skey)) (d : skey) :
  In d (doomed max_per_thread by_thread) <->
  exists t ks, In (t, ks) by_thread /\
    (max_per_thread < Z.of_nat (length ks))%Z /\
    In d (slice_from max_per_thread (sorted_desc ks)).
Proof.
  unfold doomed. rewrite in_flat_map. split.
  - intros ([t ks] & Hin & Hd). simpl in Hd.
    destruct (_ <=? _)%Z eqn:Hle; [done|]. apply Z.leb_gt in Hle.
    by exists t, ks.
  - intros (t & ks & Hin & Hlt & Hd). exists (t, ks). split; [done|]. simpl.
    by replace (_ <=? _)%Z with false by (symmetry; apply Z.leb_gt; lia).
Qed.

Lemma slice_from_drop {A : Type} (n : Z) (l : list A) :
  exists m, slice_from n l = drop m l.
Proof. unfold slice_from. destruct (n <? 0)%Z; by eexists. Qed.

(** A doomed key is a stored key of a conversation with more
    checkpoints than the ceiling. *)
Lemma doomed_long_thread (max_per_thread : Z) (keys : list skey) (d : skey) :
  NoDup keys ->
  In d (doomed max_per_thread (group_by_thread keys)) ->
  exists t, thread_of d = Some t /\ In d keys /\
    (max_per_thread < Z.of_nat (length (thread_keys t keys)))%Z.
Proof.
  intros Hnd Hd. apply doomed_In in Hd as (t & ks & Hin & Hlt & Hd).
  destruct (groups_spec keys Hnd) as (_ & Hg & _).
  destruct (Hg t ks Hin) as [_ Hall].
  apply slice_from_subset in Hd.
  apply (Permutation_in _ (sorted_desc_perm ks)) in Hd.
  destruct (Hall d Hd) as [Hk Ht]. exists t. split; [done|]. split; [done|].
  pose proof (group_length keys t ks Hnd Hin). lia.
Qed.

(** *** The descending sort is sorted *)

Lemma insert_desc_sorted (k : skey) (l : list skey) :
  StronglySorted not_below l -> StronglySorted not_below (insert_desc k l).
Proof.
  induction 1 as [|h t Hs IH Hall]; simpl.
  - constructor; [constructor|constructor].
  - destruct (String.ltb (sort_key h) (sort_key k)) eqn:Hlt.
    + constructor; [by constructor|]. constructor.
      * unfold not_below. by apply ltb_asym.
      * apply List.Forall_forall. intros x Hx.
        apply (proj1 (List.Forall_forall _ _) Hall) in Hx. unfold not_below in *.
        destruct (String.ltb (sort_key k) (sort_key x)) eqn:Hkx; [|done].
        by rewrite (ltb_trans _ _ _ Hlt Hkx) in Hx.
    + constructor; [done|]. apply List.Forall_forall. intros x Hx.
      apply (Permutation_in _ (insert_desc_perm k t)) in Hx.
      destruct Hx as [<-|Hx]; [done|].
      by apply (proj1 (List.Forall_forall _ _) Hall).
Qed.

Lemma sorted_desc_sorted (keys : list skey) :
  StronglySorted not_below (sorted_desc keys).
Proof.
  unfold sorted_desc.
  assert (Hgen : forall acc, StronglySorted not_below acc ->
            StronglySorted not_below (fold_left (fun acc k => insert_desc k acc) keys acc)).
  { induction keys as [|k keys IH]; intros acc Hacc; simpl; [done|].
    by apply IH, insert_desc_sorted. }
  apply Hgen. constructor.
Qed.

(** *** The store after a cleanup that was due *)

Lemma cleanup_with_keys (max_per_thread now : Z) (st : gb_state) :
  due now st ->
  stored_keys (snd (cleanup_with max_per_thread now st))
  = filter (fun k => k ∉ doomed max_per_thread (group_by_thread (stored_keys st)))
           (stored_keys st).
Proof.
  intros Hdue. unfold stored_keys at 1. rewrite cleanup_with_storage by done.
  by apply keys_filter.
Qed.

Lemma cleanup_with_NoDup (max_per_thread now : Z) (st : gb_state) :
  NoDup (stored_keys st) ->
  NoDup (stored_keys (snd (cleanup_with max_per_thread now st))).
Proof.
  intros Hnd.
  destruct (decide (_CHECKPOINT_CLEANUP_INTERVAL <= now - _last_checkpoint_cleanup st)%Z)
    as [Hdue|Hearly].
  - rewrite cleanup_with_keys by done. by apply NoDup_filter.
  - by rewrite cleanup_with_early.
Qed.

Lemma cleanup_with_bound (max_per_thread now : Z) (st : gb_state) (t : string) :
  (0 <= max_per_thread)%Z ->
  NoDup (stored_keys st) ->
  due now st ->
  (thread_count t (snd (cleanup_with max_per_thread now st)) <= max_per_thread)%Z.
Proof.
  intros Hmax Hnd Hdue. unfold thread_count. rewrite cleanup_with_keys by done.
  set (keys := stored_keys st) in *.
  set (D := doomed max_per_thread (group_by_thread keys)).
  set (F := thread_keys t (filter (fun k => k ∉ D) keys)).
  destruct (groups_spec keys Hnd) as (Hthreads & Hg & Hc).
  assert (HF : NoDup F) by (by apply NoDup_filter, NoDup_filter).
  assert (Hin : forall k, In k F -> In k keys /\ thread_of k = Some t /\ ~ In k D).
  { intros k Hk. apply thread_keys_In in Hk as [Hk Ht].
    apply list_elem_of_In, list_elem_of_filter in Hk as [HD Hk].
    split; [by apply list_elem_of_In|]. split; [done|].
    intros HkD. by apply HD, list_elem_of_In. }
  destruct (PyVal.assoc t (group_by_thread keys)) as [ks|] eqn:Hassoc.
  - assert (Hks : forall k, In k F -> In k ks).
    { intros k Hk. destruct (Hin k Hk) as (Hk1 & Ht & _).
      destruct (Hc k t Hk1 Ht) as (ks' & Hks' & Hk'). congruence. }
    destruct (Z.leb_spec (Z.of_nat (length ks)) max_per_thread) as [Hle|Hgt].
    + pose proof (NoDup_incl_le F ks HF Hks). lia.
    + assert (Htake : forall k, In k F ->
                In k (take (Z.to_nat max_per_thread) (sorted_desc ks))).
      { intros k Hk. destruct (Hin k Hk) as (_ & _ & HD).
        pose proof (Hks k Hk) as Hk1.
        apply (Permutation_in _ (Permutation_sym (sorted_desc_perm ks))) in Hk1.
        rewrite <- (take_drop (Z.to_nat max_per_thread) (sorted_desc ks)) in Hk1.
        apply in_app_or in Hk1 as [Hk1|Hk1]; [done|]. exfalso. apply HD.
        apply doomed_In. exists t, ks. split; [by apply assoc_entry|]. split; [done|].
        unfold slice_from.
        by replace (max_per_thread <? 0)%Z with false by (symmetry; apply Z.ltb_ge; lia). }
      pose proof (NoDup_incl_le F _ HF Htake) as Hlen.
      rewrite length_take in Hlen. lia.
  - assert (Hnone : forall k, In k F -> In k []).
    { intros k Hk. destruct (Hin k Hk) as (Hk1 & Ht & _).
      destruct (Hc k t Hk1 Ht) as (ks' & Hks' & _). congruence. }
    pose proof (NoDup_incl_le F [] HF Hnone) as Hlen. simpl in Hlen. lia.
Qed.

Lemma cleanup_with_spares (max_per_thread now : Z) (st : gb_state) (k : skey) (v : string) :
  NoDup (stored_keys st) ->
  In (k, v) (storage st) ->
  (forall t, thread_of k = Some t -> (thread_count t st <= max_per_thread)%Z) ->
  In (k, v) (storage (snd (cleanup_with max_per_thread now st))).
Proof.
  intros Hnd Hin Hshort.
  destruct (decide (_CHECKPOINT_CLEANUP_INTERVAL <= now - _last_checkpoint_cleanup st)%Z)
    as [Hdue|Hearly]; [|by rewrite cleanup_with_early].
  rewrite cleanup_with_storage by done.
  apply list_elem_of_In, list_elem_of_filter. split; [|by apply list_elem_of_In].
  simpl. intros Hd. apply list_elem_of_In in Hd.
  apply doomed_long_thread in Hd as (t & Ht & _ & Hlong); [|done].
  specialize (Hshort t Ht). unfold thread_count in Hshort. lia.
Qed.

Lemma cleanup_with_noop (max_per_thread now : Z) (st : gb_state) :
  NoDup (stored_keys st) ->
  (forall t, (thread_count t st <= max_per_thread)%Z) ->
  fst (cleanup_with max_per_thread now st) = Ok 0%Z /\
  storage (snd (cleanup_with max_per_thread now st)) = storage st.
Proof.
  intros Hnd Hshort.
  destruct (decide (_CHECKPOINT_CLEANUP_INTERVAL <= now - _last_checkpoint_cleanup st)%Z)
    as [Hdue|Hearly]; [|by rewrite cleanup_with_early].
  rewrite (cleanup_with_due _ _ _ Hdue).
  destruct (doomed max_per_thread (group_by_thread (stored_keys st))) as [|d ds] eqn:HD;
    [done|].
  exfalso. assert (Hd : In d (doomed max_per_thread (group_by_thread (stored_keys st))))
    by (rewrite HD; by left).
  apply doomed_long_thread in Hd as (t & _ & _ & Hlong); [|done].
  specialize (Hshort t). unfold thread_count in Hshort. lia.
Qed.

Lemma cleanup_with_oldest (max_per_thread now : Z) (st : gb_state) (k k' : skey) :
  NoDup (stored_keys st) ->
  In k (stored_keys (snd (cleanup_with max_per_thread now st))) ->
  In k' (stored_keys st) ->
  ~ In k' (stored_keys (snd (cleanup_with max_per_thread now st))) ->
  thread_of k = thread_of k' ->
  not_below k k'.
Proof.
  intros Hnd Hk Hk' Hgone Hsame.
  destruct (decide (_CHECKPOINT_CLEANUP_INTERVAL <= now - _last_checkpoint_cleanup st)%Z)
    as [Hdue|Hearly]; [|by rewrite cleanup_with_early in Hgone].
  rewrite cleanup_with_keys in Hk, Hgone by done.
  set (keys := stored_keys st) in *.
  set (D := doomed max_per_thread (group_by_thread keys)) in *.
  destruct (groups_spec keys Hnd) as (Hthreads & Hg & Hc).
  apply list_elem_of_In, list_elem_of_filter in Hk as [HkD Hk].
  apply list_elem_of_In in Hk.
  assert (Hd : In k' D).
  { destruct (decide (k' ∈ D)) as [Hd|Hd]; [by apply list_elem_of_In|].
    exfalso. apply Hgone, list_elem_of_In, list_elem_of_filter.
    split; [done|by apply list_elem_of_In]. }
  apply doomed_In in Hd as (t & ks & Hin & Hlong & Hd).
  destruct (slice_from_drop max_per_thread (sorted_desc ks)) as [m Hm].
  rewrite Hm in *.
  destruct (Hg t ks Hin) as [_ Hall].
  assert (Ht' : thread_of k' = Some t).
  { apply Hall, (Permutation_in _ (sorted_desc_perm ks)).
    apply list_elem_of_In. eapply subseteq_drop. by apply list_elem_of_In. }
  rewrite Ht' in Hsame.
  destruct (Hc k t Hk Hsame) as (ks2 & Hks2 & Hkin).
  rewrite (entry_assoc t ks _ Hthreads Hin) in Hks2. injection Hks2 as <-.
  apply (Permutation_in _ (Permutation_sym (sorted_desc_perm ks))) in Hkin.
  rewrite <- (take_drop m (sorted_desc ks)) in Hkin.
  apply in_app_or in Hkin as [Hkin|Hkin].
  - apply (StronglySorted_app_1_elem_of not_below
             (take m (sorted_desc ks)) (drop m (sorted_desc ks)));
      [|by apply list_elem_of_In|by apply list_elem_of_In].
    rewrite take_drop. apply sorted_desc_sorted.
  - exfalso. apply HkD, list_elem_of_In, doomed_In. exists t, ks.
    split; [done|]. split; [done|]. by rewrite Hm.
Qed.

(** X9.  A checkpoint cleanup only ever removes whole entries of
    conversations that hold more checkpoints than the ceiling: the store
    afterwards is the store before with some entries left out, order and
    stored values untouched, and an entry whose key is no tuple of a
    conversation, or whose conversation holds at most
    [_CHECKPOINT_MAX_PER_THREAD] checkpoints, is still there. *)
Theorem cleanup_spares_short_threads (now : Z) (st : gb_state) (k : skey) (v : string) :
  NoDup (stored_keys st) ->
  In (k, v) (storage st) ->
  (forall t, thread_of k = Some t ->
             (thread_count t st <= _CHECKPOINT_MAX_PER_THREAD)%Z) ->
  sublist (storage (snd (cleanup_old_checkpoints now st))) (storage st) /\
  In (k, v) (storage (snd (cleanup_old_checkpoints now st))).
Proof.
  intros Hnd Hin Hshort. split; [|by apply cleanup_with_spares].
  unfold cleanup_old_checkpoints.
  destruct (decide (_CHECKPOINT_CLEANUP_INTERVAL <= now - _last_checkpoint_cleanup st)%Z)
    as [Hdue|Hearly]; [|by rewrite cleanup_with_early].
  rewrite cleanup_with_storage by done. apply sublist_filter.
Qed.

Lemma cleanup_spares_short_threads_witness :
  In (KTuple ["t2"; ""; "1"], "other")
     (storage (snd (cleanup_old_checkpoints 1000 (busy_store 22)))).
Proof.
  apply (cleanup_spares_short_threads 1000 (busy_store 22)
           (KTuple ["t2"; ""; "1"]) "other").
  - vm_compute. apply (bool_decide_unpack _). vm_compute. exact I.
  - vm_compute. right. left. reflexivity.
  - intros t Ht. injection Ht as <-. vm_compute. discriminate.
Defined.

(** X10.  After a cleanup that was due, no conversation holds more than
    [_CHECKPOINT_MAX_PER_THREAD] checkpoints in the store. *)
Theorem cleanup_bounds_every_thread (now : Z) (st : gb_state) (t : string) :
  NoDup (stored_keys st) ->
  due now st ->
  (thread_count t (snd (cleanup_old_checkpoints now st))
   <= _CHECKPOINT_MAX_PER_THREAD)%Z.
Proof. intros Hnd Hdue. by apply cleanup_with_bound. Qed.

Lemma cleanup_bounds_every_thread_witness :
  (thread_count "t1" (busy_store 22) = 22)%Z /\
  (thread_count "t1" (snd (cleanup_old_checkpoints 1000 (busy_store 22)))
   <= _CHECKPOINT_MAX_PER_THREAD)%Z.
Proof.
  split; [reflexivity|].
  apply (cleanup_bounds_every_thread 1000 (busy_store 22) "t1").
  - vm_compute. apply (bool_decide_unpack _). vm_compute. exact I.
  - vm_compute. discriminate.
Defined.

(** X11.  The number [cleanup_old_checkpoints] returns is the number of
    entries it removed from the store, whether or not the cleanup was
    due. *)
Theorem cleanup_returns_number_removed (now : Z) (st : gb_state) :
  NoDup (stored_keys st) ->
  fst (cleanup_old_checkpoints now st)
  = Ok (Z.of_nat (length (storage st))
        - Z.of_nat (length (storage (snd (cleanup_old_checkpoints now st)))))%Z.
Proof.
  intros Hnd. unfold cleanup_old_checkpoints.
  destruct (decide (_CHECKPOINT_CLEANUP_INTERVAL <= now - _last_checkpoint_cleanup st)%Z)
    as [Hdue|Hearly].
  - rewrite (cleanup_with_due _ _ _ Hdue). simpl. f_equal.
    pose proof (del_keys_count
                  (doomed _CHECKPOINT_MAX_PER_THREAD (group_by_thread (stored_keys st)))
                  (storage st) 0%Z Hnd). lia.
  - rewrite cleanup_with_early by done. simpl. f_equal. lia.
Qed.

Lemma cleanup_returns_number_removed_witness :
  fst (cleanup_old_checkpoints 1000 (busy_store 22)) = Ok 2%Z.
Proof.
  rewrite (cleanup_returns_number_removed 1000 (busy_store 22)).
  - reflexivity.
  - vm_compute. apply (bool_decide_unpack _). vm_compute. exact I.
Defined.

(** X12.  A cleanup removes the oldest checkpoints of a conversation
    first: a checkpoint that was removed never has a checkpoint id above
    that of a checkpoint of the same conversation that was kept. *)
Theorem cleanup_removes_oldest (now : Z) (st : gb_state) (k k' : skey) :
  NoDup (stored_keys st) ->
  In k (stored_keys (snd (cleanup_old_checkpoints now st))) ->
  In k' (stored_keys st) ->
  ~ In k' (stored_keys (snd (cleanup_old_checkpoints now st))) ->
  thread_of k = thread_of k' ->
  String.ltb (sort_key k) (sort_key k') = false.
Proof. apply cleanup_with_oldest. Qed.

Lemma cleanup_removes_oldest_witness :
  String.ltb (sort_key (KTuple ["t1"; ""; "9"])) (sort_key (KTuple ["t1"; ""; "1"]))
  = false.
Proof.
  apply (cleanup_removes_oldest 1000 (busy_store 22)).
  - vm_compute. apply (bool_decide_unpack _). vm_compute. exact I.
  - apply list_elem_of_In. apply (bool_decide_unpack _). vm_compute. exact I.
  - apply list_elem_of_In. apply (bool_decide_unpack _). vm_compute. exact I.
  - intros Hin. apply list_elem_of_In in Hin. revert Hin.
    apply (bool_decide_unpack _). vm_compute. exact I.
  - reflexivity.
Defined.

(** X13.  A cleanup that was due leaves nothing for the next one to do:
    whenever the next call is made, it returns 0 and the store is as the
    first cleanup left it. *)
Theorem cleanup_twice_removes_nothing (now now' : Z) (st : gb_state) :
  NoDup (stored_keys st) ->
  due now st ->
  let st' := snd (cleanup_old_checkpoints now st) in
  fst (cleanup_old_checkpoints now' st') = Ok 0%Z /\
  storage (snd (cleanup_old_checkpoints now' st')) = storage st'.
Proof.
  intros Hnd Hdue st'. apply cleanup_with_noop.
  - by apply cleanup_with_NoDup.
  - intros t. by apply cleanup_with_bound.
Qed.

Lemma cleanup_twice_removes_nothing_witness :
  fst (cleanup_old_checkpoints 5000 (snd (cleanup_old_checkpoints 1000 (busy_store 22))))
  = Ok 0%Z.
Proof.
  apply (cleanup_twice_removes_nothing 1000 5000 (busy_store 22)).
  - vm_compute. apply (bool_decide_unpack _). vm_compute. exact I.
  - vm_compute. discriminate.
Defined.

End CheckpointRetention.

(** ** The events of a plan run *)

Module PlanEvents.
Import Agent PlanTrace.

(** *** The events of one step *)

Lemma handle_events_text (evs : list raw_event) :
  forall tracking resp,
    snd (handle_events evs tracking resp)
    = resp +:+ token_text (fst (handle_events evs tracking resp)) /\
    tokens (fst (handle_events evs tracking resp)) = chunks evs.
Proof.
  induction evs as [|ev evs IH]; intros tracking resp; simpl.
  - by rewrite Serialisation.app_nil_r_s.
  - destruct ev as [content|run_id|run_id|name|name|]; simpl.
    + destruct (String.eqb content ""); [apply IH|].
      destruct (IH tracking (resp +:+ content)) as [H1 H2].
      destruct (handle_events evs tracking (resp +:+ content)) as [out r].
      simpl in *. subst r. rewrite H2. split; [|done].
      apply Serialisation.app_assoc_s.
    + destruct (IH (run_id :: tracking) resp) as [H1 H2].
      by destruct (handle_events evs (run_id :: tracking) resp).
    + destruct (existsb _ tracking); [|apply IH].
      destruct (IH (List.filter (fun x => negb (String.eqb run_id x)) tracking) resp)
        as [H1 H2].
      by destruct (handle_events evs _ resp).
    + destruct (IH tracking resp) as [H1 H2].
      by destruct (handle_events evs tracking resp).
    + destruct (IH tracking resp) as [H1 H2].
      by destruct (handle_events evs tracking resp).
    + apply IH.
Qed.

Lemma tracked_bound (run_id : string) (tracking known : list string) (n : nat) :
  NoDup known ->
  (forall x, In x tracking -> In x known) ->
  length known <= n ->
  In run_id tracking ->
  exists known' m,
    n = S m /\ NoDup known' /\ length known' <= m /\
    forall x, In x (List.filter (fun x => negb (String.eqb run_id x)) tracking) ->
              In x known'.
Proof.
  intros Hnd Hsub Hlen Hin.
  exists (filter (fun x => x <> run_id) known), (pred n).
  assert (Hk : run_id ∈ known) by (by apply list_elem_of_In, Hsub).
  pose proof (length_filter_lt (fun x => x <> run_id) known run_id Hk) as Hlt.
  split; [|split; [by apply NoDup_filter|split]].
  - destruct n; [|done]. destruct known; [by apply elem_of_nil in Hk|simpl in Hlen; lia].
  - assert (length (filter (fun x => x <> run_id) known) < length known)
      by (apply Hlt; tauto). lia.
  - intros x Hx. apply List.filter_In in Hx as [Hx Hne].
    apply list_elem_of_In, list_elem_of_filter. split; [|by apply list_elem_of_In, Hsub].
    intros ->. by rewrite String.eqb_refl in Hne.
Qed.

Lemma handle_events_matched (evs : list raw_event) :
  forall tracking resp known n,
    NoDup known ->
    (forall x, In x tracking -> In x known) ->
    length known <= n ->
    ends_matched n (fst (handle_events evs tracking resp)) = true.
Proof.
  induction evs as [|ev evs IH]; intros tracking resp known n Hnd Hsub Hlen; simpl;
    [done|].
  destruct ev as [content|run_id|run_id|name|name|]; simpl.
  - destruct (String.eqb content ""); [by eapply IH|].
    pose proof (IH tracking (resp +:+ content) known n Hnd Hsub Hlen).
    by destruct (handle_events evs tracking (resp +:+ content)).
  - assert (H : ends_matched (S n) (fst (handle_events evs (run_id :: tracking) resp))
                = true).
    { destruct (decide (run_id ∈ known)) as [Hk|Hk].
      - apply (IH _ _ known); [done| |lia].
        intros x [<-|Hx]; [by apply list_elem_of_In|by apply Hsub].
      - apply (IH _ _ (run_id :: known)); [by apply NoDup_cons| |simpl; lia].
        intros x [<-|Hx]; [by left|right; by apply Hsub]. }
    by destruct (handle_events evs (run_id :: tracking) resp).
  - destruct (existsb _ tracking) eqn:Hex; [|by eapply IH].
    apply existsb_exists in Hex as (x & Hx & Heq). apply String.eqb_eq in Heq. subst x.
    destruct (tracked_bound run_id tracking known n Hnd Hsub Hlen Hx)
      as (known' & m & -> & Hnd' & Hlen' & Hsub').
    pose proof (IH _ resp known' m Hnd' Hsub' Hlen').
    by destruct (handle_events evs _ resp).
  - pose proof (IH tracking resp known n Hnd Hsub Hlen).
    by destruct (handle_events evs tracking resp).
  - pose proof (IH tracking resp known n Hnd Hsub Hlen).
    by destruct (handle_events evs tracking resp).
  - by eapply IH.
Qed.

(** *** Ids and positions *)

Lemma ids_from_app (l1 l2 : list step) :
  forall start,
    ids_from start (l1 ++ l2) = ids_from start l1 ++ ids_from (start + length l1) l2.
Proof.
  unfold ids_from. induction l1 as [|s l1 IH]; intros start; simpl.
  - by rewrite Nat.add_0_r.
  - rewrite IH. by rewrite Nat.add_succ_r.
Qed.

Lemma step_ids_from (l : list step) : step_ids l = ids_from 0 l.
Proof. done. Qed.

Lemma drop_take_one {A : Type} (l : list A) :
  forall i x, l !! i = Some x -> drop i (take (S i) l) = [x].
Proof.
  induction l as [|y l IH]; intros [|i] x Hx; simpl in *; try done.
  - injection Hx as ->. by rewrite take_0.
  - by apply IH.
Qed.

Lemma drop_lookup {A : Type} (l : list A) :
  forall i x, l !! i = Some x -> drop i l = x :: drop (S i) l.
Proof.
  induction l as [|y l IH]; intros [|i] x Hx; simpl in *; try done.
  - by injection Hx as ->.
  - by apply IH.
Qed.

Lemma prefix_lookup (l l' : list step) (i : nat) (st : step) :
  take (S i) l' = take (S i) l -> l !! i = Some st -> l' !! i = Some st.
Proof.
  intros Hpre Hst.
  rewrite <- (lookup_take_lt l' (S i) i) by lia.
  rewrite Hpre. by rewrite lookup_take_lt by lia.
Qed.

Lemma prefix_shrink (l l' : list step) (i : nat) :
  take (S i) l' = take (S i) l -> take i l' = take i l.
Proof.
  intros Hpre.
  replace i with (Nat.min i (S i)) by lia.
  rewrite <- !take_take. by rewrite Hpre.
Qed.

(** *** The events of a pass *)

Lemma marked_app (status : string) (a b : list event) :
  marked status (a ++ b) = marked status a ++ marked status b.
Proof. unfold marked. apply flat_map_app. Qed.

Lemma handle_events_inner (evs : list raw_event) :
  forall tracking resp, forallb inner (fst (handle_events evs tracking resp)) = true.
Proof.
  induction evs as [|ev evs IH]; intros tracking resp; simpl; [done|].
  destruct ev as [content|run_id|run_id|name|name|]; simpl.
  - destruct (String.eqb content ""); [apply IH|].
    specialize (IH tracking (resp +:+ content)).
    by destruct (handle_events evs tracking (resp +:+ content)).
  - specialize (IH (run_id :: tracking) resp).
    by destruct (handle_events evs (run_id :: tracking) resp).
  - destruct (existsb _ tracking); [|apply IH].
    specialize (IH (List.filter (fun x => negb (String.eqb run_id x)) tracking) resp).
    by destruct (handle_events evs _ resp).
  - specialize (IH tracking resp). by destruct (handle_events evs tracking resp).
  - specialize (IH tracking resp). by destruct (handle_events evs tracking resp).
  - apply IH.
Qed.

Lemma inner_marked (status : string) (l : list event) :
  forallb inner l = true -> marked status l = [].
Proof.
  induction l as [|e l IH]; simpl; [done|]. intros H.
  apply andb_prop in H as [He Hl]. rewrite (IH Hl). by destruct e.
Qed.

Lemma inner_sequential (p : string) (i : Z) (l rest : list event) :
  forallb inner l = true ->
  sequential p (Some i) (l ++ rest) = sequential p (Some i) rest.
Proof.
  induction l as [|e l IH]; simpl; [done|]. intros H.
  apply andb_prop in H as [He Hl]. rewrite <- (IH Hl). by destruct e.
Qed.

Lemma inner_not_done (l : list event) : forallb inner l = true -> ~ In Done l.
Proof.
  induction l as [|e l IH]; simpl; [tauto|]. intros H.
  apply andb_prop in H as [He Hl]. intros [->|Hin]; [done|by apply IH].
Qed.

Lemma skipped_ids (p : string) (k : nat) (l : list step) :
  marked "running" (skipped p k l) = [] /\
  marked "completed" (skipped p k l) = ids_from k (drop k l).
Proof.
  unfold skipped, ids_from. generalize (drop k l) as r. intros r. revert k.
  induction r as [|s r IH]; intros k; simpl; [done|].
  destruct (IH (S k)) as [-> ->]. done.
Qed.

Lemma skipped_sequential (p : string) (k : nat) (l : list step) (rest : list event) :
  sequential p None (skipped p k l ++ rest) = sequential p None rest.
Proof.
  unfold skipped. generalize (drop k l) as r. intros r. revert k.
  induction r as [|s r IH]; intros k; simpl; [done|].
  by rewrite String.eqb_refl, IH.
Qed.

Lemma skipped_not_done (p : string) (k : nat) (l : list step) : ~ In Done (skipped p k l).
Proof.
  unfold skipped. intros Hin. apply in_map_iff in Hin as ([i s] & Heq & _). done.
Qed.

(** *** The passes of the loop *)

Section Loop.

Variable settings : Settings.
Variable sub_agent : nat -> list step -> list (string * string) -> list raw_event.
Variable structured_llm : replan_prompt -> result ReplanDecision.
Variables pid title : string.

Lemma execute_step_block (ls : loop_state) (st : step) (rs : run_state) :
  execute_step sub_agent pid ls st rs
  = (Ok (past_after sub_agent ls st, S (step_index ls)),
     mkRun (trace rs ++ step_block sub_agent pid ls st) (llm_calls rs)).
Proof.
  unfold execute_step, step_block, past_after, bind, emit, emit_all, modify, ret.
  destruct (handle_events _ [] "") as [out r]. simpl.
  by rewrite <- !app_assoc.
Qed.

Lemma evaluate_replan_no_exception (l : list step) (past : list (string * string))
    (k : nat) (rs : run_state) (cls : string) :
  fst (_evaluate_replan settings structured_llm title l past k rs)
  <> Raise (Exception cls).
Proof.
  unfold _evaluate_replan. destruct (negb _); [done|].
  destruct (drop k l); [done|].
  unfold try_except, bind, ainvoke, ret.
  by destruct (structured_llm _) as [d|[c|c]].
Qed.

Lemma replan_phase_cases (l : list step) (past : list (string * string)) (k : nat)
    (rs : run_state) res rs' :
  replan_phase settings structured_llm pid title l past k rs = (res, rs') ->
  (res = Ok (mkLoop l past k, false) /\ trace rs' = trace rs) \/
  (exists cls, res = Raise (BaseExceptionOnly cls) /\ trace rs' = trace rs) \/
  (exists d, (k < length l)%nat /\
     res = Ok (mkLoop (take k l ++ revision_steps k (revised_steps d)) past k, false) /\
     trace rs' = trace rs ++ [PlanRevised pid (revision_steps k (revised_steps d)) k
                                (reason d)]) \/
  (exists d,
     res = Ok (mkLoop l past k, true) /\
     trace rs' = trace rs ++ skipped pid k l
                 ++ (if String.eqb (response d) "" then []
                     else [Token (String newline (String newline (response d)))])).
Proof.
  unfold replan_phase. destruct (0 <? _)%Z eqn:Hrem.
  2:{ intros [= <- <-]. by left. }
  apply Z.ltb_lt in Hrem. unfold bind.
  pose proof (PlanRunner.evaluate_replan_trace settings structured_llm title l past k rs)
    as Htr.
  pose proof (evaluate_replan_no_exception l past k rs) as Hex.
  destruct (_evaluate_replan settings structured_llm title l past k rs)
    as [[[d|]|[cls|cls]] rs1]; simpl in Htr, Hex.
  - destruct (String.eqb (action d) "finish").
    + unfold emit_all, emit, modify, ret, skipped. simpl.
      destruct (String.eqb (response d) "") eqn:Hresp; intros [= <- <-]; simpl;
        right; right; right; exists d; rewrite Htr, Hresp;
        [by rewrite app_nil_r|by rewrite <- app_assoc].
    + destruct (String.eqb (action d) "revise" && _).
      * unfold emit, modify, ret. simpl. intros [= <- <-]. simpl.
        right. right. left. exists d. rewrite Htr. split; [lia|done].
      * intros [= <- <-]. by left.
  - intros [= <- <-]. by left.
  - by destruct (Hex cls).
  - intros [= <- <-]. right. left. by exists cls.
Qed.

Lemma plan_loop_shape (fuel : nat) :
  forall ls rs out rs',
    plan_loop settings sub_agent structured_llm fuel pid title ls rs = Some (out, rs') ->
    exists evs,
      trace rs' = trace rs ++ evs /\ run_shape settings sub_agent pid ls evs out.
Proof.
  induction fuel as [|fuel IH]; intros ls rs out rs'; simpl;
    fold (running settings ls); destruct (running settings ls) eqn:Hrun; try done.
  - intros [= <- <-]. exists []. rewrite app_nil_r. split; [done|by constructor].
  - assert (Hlt : (step_index ls < length (steps ls))%nat).
    { unfold running in Hrun. apply andb_prop in Hrun as [Hrun _].
      by apply Nat.ltb_lt in Hrun. }
    unfold loop_body. destruct (lookup_lt_is_Some_2 _ _ Hlt) as [st Hst].
    rewrite Hst. unfold bind. rewrite execute_step_block. cbn [fst snd].
    destruct (replan_phase _ _ _ _ _ _ _ _) as [res rs1] eqn:Hphase.
    apply replan_phase_cases in Hphase
      as [[-> Htr]|[(cls & -> & Htr)|[(d & Hk & -> & Htr)|(d & -> & Htr)]]];
      simpl in Htr.
    + intros Hloop. apply IH in Hloop as (evs & Hevs & Hshape). simpl in Hevs.
      exists (step_block sub_agent pid ls st ++ evs). split.
      * by rewrite Hevs, Htr, <- app_assoc.
      * by apply shape_continue.
    + intros [= <- <-]. exists (step_block sub_agent pid ls st).
      split; [done|by apply shape_raise].
    + intros Hloop. apply IH in Hloop as (evs & Hevs & Hshape). simpl in Hevs.
      eexists. split; [|by apply (shape_revise _ _ _ ls st d evs out)].
      by rewrite Hevs, Htr, <- !app_assoc.
    + intros [= <- <-]. eexists. split; [|by apply (shape_finish _ _ _ ls st d)].
      by rewrite Htr, <- !app_assoc.
  - intros [= <- <-]. exists []. rewrite app_nil_r. split; [done|by constructor].
Qed.

Lemma step_block_ids (ls : loop_state) (st : step) :
  marked "running" (step_block sub_agent pid ls st) = [step_id_of st (step_index ls)] /\
  marked "completed" (step_block sub_agent pid ls st) = [step_id_of st (step_index ls)].
Proof.
  unfold step_block. rewrite !marked_app.
  rewrite !(inner_marked _ _ (handle_events_inner _ _ _)). done.
Qed.

Lemma step_block_sequential (ls : loop_state) (st : step) (rest : list event) :
  sequential pid None (step_block sub_agent pid ls st ++ rest)
  = sequential pid None rest.
Proof.
  unfold step_block. rewrite <- !app_assoc. cbn [app sequential].
  rewrite String.eqb_refl. cbn [String.eqb Ascii.eqb Bool.eqb andb].
  rewrite (inner_sequential _ _ _ _ (handle_events_inner _ _ _)).
  cbn [app sequential]. rewrite String.eqb_refl, Z.eqb_refl. done.
Qed.

Lemma step_block_not_done (ls : loop_state) (st : step) :
  ~ In Done (step_block sub_agent pid ls st).
Proof.
  unfold step_block. intros Hin.
  apply in_app_or in Hin as [[?|[]]|Hin]; [done|].
  apply in_app_or in Hin as [Hin|[?|[]]]; [|done].
  by apply (inner_not_done _ (handle_events_inner _ _ _)) in Hin.
Qed.

(** The three readings of a shape. *)

Lemma shape_done (ls : loop_state) (evs : list event) (out : result loop_state) :
  run_shape settings sub_agent pid ls evs out -> ~ In Done evs.
Proof.
  induction 1 as [ls Hstop|ls st evs out Hrun Hst Hshape IH
                  |ls st d evs out Hrun Hst Hlt Hshape IH|ls st d Hrun Hst
                  |ls st cls Hrun Hst]; intros Hin.
  - done.
  - apply in_app_or in Hin as [Hin|Hin]; [by apply step_block_not_done in Hin|done].
  - apply in_app_or in Hin as [Hin|[?|Hin]];
      [by apply step_block_not_done in Hin|done|done].
  - apply in_app_or in Hin as [Hin|Hin]; [by apply step_block_not_done in Hin|].
    apply in_app_or in Hin as [Hin|Hin]; [by apply skipped_not_done in Hin|].
    destruct (String.eqb (response d) ""); [done|]. by destruct Hin as [?|[]].
  - by apply step_block_not_done in Hin.
Qed.

Lemma shape_sequential (ls : loop_state) (evs : list event) (out : result loop_state) :
  run_shape settings sub_agent pid ls evs out ->
  forall rest, sequential pid None (evs ++ rest) = sequential pid None rest.
Proof.
  induction 1 as [ls Hstop|ls st evs out Hrun Hst Hshape IH
                  |ls st d evs out Hrun Hst Hlt Hshape IH|ls st d Hrun Hst
                  |ls st cls Hrun Hst]; intros rest.
  - done.
  - by rewrite <- app_assoc, step_block_sequential.
  - rewrite <- !app_assoc, step_block_sequential. cbn [app sequential].
    rewrite String.eqb_refl. apply IH.
  - rewrite <- !app_assoc, step_block_sequential, skipped_sequential.
    by destruct (String.eqb (response d) "").
  - by rewrite step_block_sequential.
Qed.

Lemma shape_ids (ls : loop_state) (evs : list event) (out : result loop_state) :
  run_shape settings sub_agent pid ls evs out ->
  forall ls', out = Ok ls' ->
    (step_index ls <= step_index ls')%nat /\
    take (step_index ls) (steps ls') = take (step_index ls) (steps ls) /\
    started_ids evs
    = ids_from (step_index ls)
        (drop (step_index ls) (take (step_index ls') (steps ls'))) /\
    (completed_ids evs = started_ids evs \/
     completed_ids evs = ids_from (step_index ls) (drop (step_index ls) (steps ls'))).
Proof.
  unfold started_ids, completed_ids.
  induction 1 as [ls Hstop|ls st evs out Hrun Hst Hshape IH
                  |ls st d evs out Hrun Hst Hlt Hshape IH|ls st d Hrun Hst
                  |ls st cls Hrun Hst]; intros ls' Hout.
  - injection Hout as <-. split; [done|]. split; [done|].
    rewrite drop_ge by (rewrite length_take; lia). split; [done|by left].
  - destruct (IH ls' Hout) as (Hle & Hpre & Hs & Hc). simpl in Hle, Hpre, Hs, Hc.
    pose proof (prefix_lookup _ _ _ _ Hpre Hst) as Hst'.
    destruct (step_block_ids ls st) as [Hb1 Hb2].
    split; [lia|]. split; [by apply prefix_shrink|].
    rewrite !marked_app, Hb1, Hb2, Hs.
    assert (Hd : drop (step_index ls) (take (step_index ls') (steps ls'))
                 = st :: drop (S (step_index ls)) (take (step_index ls') (steps ls')))
      by (apply drop_lookup; by rewrite lookup_take_lt by lia).
    split; [by rewrite Hd|].
    destruct Hc as [Hc|Hc]; [left; by rewrite Hc, Hs|right].
    by rewrite Hc, (drop_lookup _ _ _ Hst').
  - destruct (IH ls' Hout) as (Hle & Hpre & Hs & Hc). simpl in Hle, Hpre, Hs, Hc.
    rewrite take_app_le in Hpre by (rewrite length_take; lia).
    rewrite take_take, Nat.min_id in Hpre.
    pose proof (prefix_lookup _ _ _ _ Hpre Hst) as Hst'.
    destruct (step_block_ids ls st) as [Hb1 Hb2].
    split; [lia|]. split; [by apply prefix_shrink|].
    rewrite !marked_app, Hb1, Hb2, Hs. cbn [marked flat_map app].
    assert (Hd : drop (step_index ls) (take (step_index ls') (steps ls'))
                 = st :: drop (S (step_index ls)) (take (step_index ls') (steps ls')))
      by (apply drop_lookup; by rewrite lookup_take_lt by lia).
    split; [by rewrite Hd|].
    destruct Hc as [Hc|Hc]; [left; by rewrite Hc, Hs|right].
    by rewrite Hc, (drop_lookup _ _ _ Hst').
  - injection Hout as <-. cbn [step_index steps].
    destruct (step_block_ids ls st) as [Hb1 Hb2].
    destruct (skipped_ids pid (S (step_index ls)) (steps ls)) as [Hk1 Hk2].
    split; [lia|]. split; [done|].
    assert (Htok : forall s, marked s (if String.eqb (response d) "" then []
                     else [Token (String newline (String newline (response d)))]) = [])
      by (intros s; by destruct (String.eqb (response d) "")).
    rewrite !marked_app, Hb1, Hb2, Hk1, Hk2, !Htok, !app_nil_r.
    rewrite (drop_take_one _ _ _ Hst). split; [done|]. right.
    by rewrite (drop_lookup _ _ _ Hst).
  - done.
Qed.

Lemma replan_phase_undisturbed (l : list step) (past : list (string * string))
    (k : nat) (rs : run_state) :
  plan_revision_enabled settings = false \/ benign structured_llm ->
  exists rs',
    replan_phase settings structured_llm pid title l past k rs
    = (Ok (mkLoop l past k, false), rs') /\
    (plan_revision_enabled settings = false -> llm_calls rs' = llm_calls rs).
Proof.
  intros Hquiet. unfold replan_phase. destruct (0 <? _)%Z; [|by exists rs].
  unfold bind, _evaluate_replan.
  destruct (plan_revision_enabled settings) eqn:Hen; simpl; [|by exists rs].
  destruct Hquiet as [?|Hb]; [done|].
  destruct (drop k l) as [|s r]; [by exists rs|].
  unfold try_except, bind, ainvoke, ret.
  specialize (Hb (build_prompt title past k (s :: r))).
  destruct (structured_llm _) as [d|[cls|cls]]; [|by eexists|done].
  destruct Hb as [Hfin Hrev].
  destruct (String.eqb (action d) "finish") eqn:Ha;
    [by apply String.eqb_eq in Ha|].
  destruct (String.eqb (action d) "revise") eqn:Hr; simpl; [|by eexists].
  apply String.eqb_eq in Hr. rewrite (Hrev Hr). simpl. by eexists.
Qed.

Lemma plan_loop_undisturbed (fuel : nat) :
  plan_revision_enabled settings = false \/ benign structured_llm ->
  forall ls rs,
    (length (steps ls) - step_index ls <= fuel)%nat ->
    exists ls' rs',
      plan_loop settings sub_agent structured_llm fuel pid title ls rs
      = Some (Ok ls', rs') /\
      steps ls' = steps ls /\
      step_index ls'
      = Nat.max (step_index ls)
          (Nat.min (length (steps ls)) (Z.to_nat (plan_max_steps settings))) /\
      map fst (past_steps ls')
      = map fst (past_steps ls)
        ++ map step_title_of (drop (step_index ls) (take (step_index ls') (steps ls))) /\
      (plan_revision_enabled settings = false -> llm_calls rs' = llm_calls rs).
Proof.
  intros Hquiet. induction fuel as [|fuel IH]; intros ls rs Hfuel; simpl.
  - replace (step_index ls <? length (steps ls))%nat with false
      by (symmetry; apply Nat.ltb_ge; lia). simpl.
    exists ls, rs. split; [done|]. split; [done|].
    assert (Hn : step_index ls = Nat.max (step_index ls)
                   (Nat.min (length (steps ls)) (Z.to_nat (plan_max_steps settings))))
      by lia.
    split; [done|]. rewrite drop_ge by (rewrite length_take; lia).
    by rewrite app_nil_r.
  - destruct (_ <? _)%nat eqn:Hlen; simpl.
    2:{ apply Nat.ltb_ge in Hlen. exists ls, rs. split; [done|]. split; [done|].
        split; [lia|]. rewrite drop_ge by (rewrite length_take; lia).
        by rewrite app_nil_r. }
    apply Nat.ltb_lt in Hlen.
    destruct (_ <? _)%Z eqn:Hmax.
    2:{ apply Z.ltb_ge in Hmax. exists ls, rs. split; [done|]. split; [done|].
        split; [lia|]. rewrite drop_ge by (rewrite length_take; lia).
        by rewrite app_nil_r. }
    apply Z.ltb_lt in Hmax.
    unfold loop_body. destruct (lookup_lt_is_Some_2 _ _ Hlen) as [st Hst].
    rewrite Hst. unfold bind. rewrite execute_step_block. cbn [fst snd].
    destruct (replan_phase_undisturbed (steps ls) (past_after sub_agent ls st)
                (S (step_index ls))
                (mkRun (trace rs ++ step_block sub_agent pid ls st) (llm_calls rs)) Hquiet)
      as (rs1 & -> & Hcalls).
    destruct (IH (mkLoop (steps ls) (past_after sub_agent ls st) (S (step_index ls))) rs1)
      as (ls' & rs' & Hloop & Hsteps & Hidx & Hpast & Hcalls'); [simpl; lia|].
    simpl in Hsteps, Hidx, Hpast.
    exists ls', rs'. split; [done|]. split; [done|]. split; [lia|].
    split; [|intros Hoff; by rewrite (Hcalls' Hoff), (Hcalls Hoff)].
    rewrite Hpast. unfold past_after. rewrite map_app, <- app_assoc. f_equal.
    rewrite (drop_lookup (take (step_index ls') (steps ls)) (step_index ls) st)
      by (rewrite lookup_take_lt by lia; done).
    done.
Qed.

End Loop.

(** X16.  A plan run ends its events with exactly one [done] event when
    it returns, and emits none when an exception ends it: given passes
    for [plan_max_steps] steps, the run ends, and what it emitted is a
    sequence of events without [done], followed by [done] if and only
    if the run returned. *)
Theorem done_once_and_last (settings : Settings)
    (sub_agent : nat -> list step -> list (string * string) -> list raw_event)
    (structured_llm : replan_prompt -> result ReplanDecision)
    (plan_data : Plan) (rs : run_state) (fuel : nat) :
  (Z.to_nat (plan_max_steps settings) <= fuel)%nat ->
  exists out rs' evs,
    _stream_plan_execution settings sub_agent structured_llm fuel plan_data rs
    = Some (out, rs') /\
    trace rs' = trace rs ++ evs ++ (if is_ok out then [Done] else []) /\
    ~ In Done evs.
Proof.
  intros Hfuel.
  destruct (PlanRunner.plan_loop_terminates settings sub_agent structured_llm
              (plan_id plan_data) (plan_title plan_data) fuel
              (mkLoop (plan_steps plan_data) [] 0) rs)
    as (out & rs1 & Hloop & _); [simpl; lia|].
  destruct (plan_loop_shape _ _ _ _ _ _ _ _ _ _ Hloop) as (evs & Hevs & Hshape).
  unfold _stream_plan_execution. rewrite Hloop.
  destruct out as [ls|e]; eexists; eexists; exists evs;
    (split; [done|]); (split; [|by apply shape_done in Hshape]); simpl.
  - by rewrite Hevs, <- app_assoc.
  - by rewrite Hevs, app_nil_r.
Qed.

Lemma done_once_and_last_witness :
  exists out rs' evs,
    _stream_plan_execution demo_settings demo_agent finish_after_first 8
      (mkPlan "p1" "demo" three_steps) empty_run = Some (out, rs') /\
    trace rs' = trace empty_run ++ evs ++ (if is_ok out then [Done] else []) /\
    ~ In Done evs.
Proof.
  apply (done_once_and_last demo_settings demo_agent finish_after_first
           (mkPlan "p1" "demo" three_steps) empty_run 8).
  simpl. lia.
Defined.



(** X18.  The step events of a run that returned report the plan as it
    stands at the end, whatever revisions happened on the way: the steps
    marked running are the steps of the final plan up to the final
    [step_index], once each and in plan order, with the ids they have in
    the final plan; the steps marked completed are the same, or, when
    the replanner finished the plan early, all steps of the final
    plan. *)
Theorem step_events_follow_final_plan (settings : Settings)
    (sub_agent : nat -> list step -> list (string * string) -> list raw_event)
    (structured_llm : replan_prompt -> result ReplanDecision)
    (plan_data : Plan) (rs : run_state) (fuel : nat) :
  (Z.to_nat (plan_max_steps settings) <= fuel)%nat ->
  exists out rs' evs,
    _stream_plan_execution settings sub_agent structured_llm fuel plan_data rs
    = Some (out, rs') /\
    trace rs' = trace rs ++ evs /\
    forall ls, out = Ok ls ->
      started_ids evs = step_ids (take (step_index ls) (steps ls)) /\
      (completed_ids evs = started_ids evs \/ completed_ids evs = step_ids (steps ls)).
Proof.
  intros Hfuel.
  destruct (PlanRunner.plan_loop_terminates settings sub_agent structured_llm
              (plan_id plan_data) (plan_title plan_data) fuel
              (mkLoop (plan_steps plan_data) [] 0) rs)
    as (out & rs1 & Hloop & _); [simpl; lia|].
  destruct (plan_loop_shape _ _ _ _ _ _ _ _ _ _ Hloop) as (evs & Hevs & Hshape).
  unfold _stream_plan_execution. rewrite Hloop.
  destruct out as [ls|e].
  - eexists; eexists; exists (evs ++ [Done]). split; [done|]. simpl.
    split; [by rewrite Hevs, <- app_assoc|].
    intros ls' [= <-].
    destruct (shape_ids _ _ _ _ _ _ Hshape ls eq_refl) as (_ & _ & Hs & Hc).
    simpl in Hs, Hc. unfold started_ids, completed_ids in *.
    rewrite !marked_app, !app_nil_r. by split.
  - eexists; eexists; exists evs. by split.
Qed.

Lemma step_events_follow_final_plan_witness :
  exists out rs' evs,
    _stream_plan_execution demo_settings demo_agent revise_after_first 8
      (mkPlan "p1" "demo" three_steps) empty_run = Some (out, rs') /\
    trace rs' = trace empty_run ++ evs /\
    forall ls, out = Ok ls ->
      started_ids evs = step_ids (take (step_index ls) (steps ls)) /\
      (completed_ids evs = started_ids evs \/ completed_ids evs = step_ids (steps ls)).
Proof.
  apply (step_events_follow_final_plan demo_settings demo_agent revise_after_first
           (mkPlan "p1" "demo" three_steps) empty_run 8).
  simpl. lia.
Defined.

(** X19.  A run the replanner does not disturb follows the plan as
    given.  When plan revision is switched off, or the replanner answers
    neither finish nor a revision with steps and fails, if it fails,
    with an [Exception], then, given a pass per step, the run returns
    with the plan unchanged, having run exactly the first
    [min(len(steps), plan_max_steps)] steps in order, one result per
    step; with plan revision switched off it makes no model call. *)
Theorem undisturbed_run_follows_plan (settings : Settings)
    (sub_agent : nat -> list step -> list (string * string) -> list raw_event)
    (structured_llm : replan_prompt -> result ReplanDecision)
    (plan_data : Plan) (rs : run_state) (fuel : nat) :
  plan_revision_enabled settings = false \/ benign structured_llm ->
  (length (plan_steps plan_data) <= fuel)%nat ->
  exists ls rs',
    _stream_plan_execution settings sub_agent structured_llm fuel plan_data rs
    = Some (Ok ls, rs') /\
    steps ls = plan_steps plan_data /\
    step_index ls
    = Nat.min (length (plan_steps plan_data)) (Z.to_nat (plan_max_steps settings)) /\
    map fst (past_steps ls)
    = map step_title_of (take (step_index ls) (plan_steps plan_data)) /\
    (plan_revision_enabled settings = false -> llm_calls rs' = llm_calls rs).
Proof.
  intros Hquiet Hfuel.
  destruct (plan_loop_undisturbed settings sub_agent structured_llm
              (plan_id plan_data) (plan_title plan_data) fuel Hquiet
              (mkLoop (plan_steps plan_data) [] 0) rs)
    as (ls & rs1 & Hloop & Hsteps & Hidx & Hpast & Hcalls); [simpl; lia|].
  simpl in Hsteps, Hidx, Hpast.
  unfold _stream_plan_execution. rewrite Hloop.
  eexists; eexists. split; [done|]. split; [done|]. split; [lia|].
  split; [by rewrite Hpast|]. simpl. done.
Qed.

Lemma undisturbed_run_follows_plan_witness :
  exists ls rs',
    _stream_plan_execution (mkSettings 2 true false) demo_agent always_continue 3
      (mkPlan "p1" "demo" three_steps) empty_run = Some (Ok ls, rs') /\
    steps ls = three_steps /\
    step_index ls = 2%nat /\
    map fst (past_steps ls) = ["collect"; "analyse"] /\
    (false = true -> llm_calls rs' = llm_calls empty_run).
Proof.
  destruct (undisturbed_run_follows_plan (mkSettings 2 true false) demo_agent
              always_continue (mkPlan "p1" "demo" three_steps) empty_run 3)
    as (ls & rs' & H1 & H2 & H3 & H4 & H5).
  - right. intros p. simpl. split; [discriminate|discriminate].
  - simpl. lia.
  - exists ls, rs'. split; [exact H1|]. split; [exact H2|]. split; [exact H3|].
    split; [|discriminate]. rewrite H4, H3. reflexivity.
Defined.

(** X14.  What a step records as its response is what it streamed: the
    tokens a step yields are the non-empty chunks of its sub-agent, in
    order, and the text the step keeps as [step_response] is the text of
    those tokens, appended to what it held before. *)
Theorem step_response_is_streamed_text (evs : list raw_event) (tracking : list string)
    (resp : string) :
  tokens (fst (handle_events evs tracking resp)) = chunks evs /\
  snd (handle_events evs tracking resp)
  = resp +:+ token_text (fst (handle_events evs tracking resp)).
Proof. destruct (handle_events_text evs tracking resp). by split. Qed.


End PlanEvents.

(** ** The approval gate *)

Module ApprovalIsolation.
Import PlanApproval Agent ApprovalFlow.

Ltac run_registry :=
  unfold run_op, register_plan_approval, resolve_plan_approval,
         get_plan_approval_result, events_pop, new_event, event_set,
         bind, modify, ret, get_state, put_state; simpl.

Lemma run_ops_app (ops1 ops2 : list op) (r : registry) :
  run_ops (ops1 ++ ops2) r = run_ops ops2 (run_ops ops1 r).
Proof. unfold run_ops. apply fold_left_app. Qed.

Lemma run_op_ok (o : op) (r : registry) :
  registry_ok r -> registry_ok (run_op o r) /\ ev_next r <= ev_next (run_op o r).
Proof.
  intros [Hlt Hinj]. unfold registry_ok. destruct o as [p|p b|p].
  - run_registry. split; [|lia]. split.
    + intros q e. destruct (decide (q = p)) as [->|Hne].
      * rewrite lookup_insert_eq. intros [= <-]. lia.
      * rewrite lookup_insert_ne by done. intros H. apply Hlt in H. lia.
    + intros q1 q2 e.
      destruct (decide (q1 = p)) as [->|H1], (decide (q2 = p)) as [->|H2];
        rewrite ?lookup_insert_eq, ?lookup_insert_ne by done.
      * done.
      * intros [= <-] H. apply Hlt in H. lia.
      * intros H [= <-]. apply Hlt in H. lia.
      * apply Hinj.
  - run_registry. destruct (_plan_approval_events r !! p) as [e|] eqn:Hp; simpl.
    + split; [|lia]. split.
      * intros q e'. intros H. apply lookup_delete_Some in H as [_ H]. by apply Hlt in H.
      * intros q1 q2 e' H1 H2. apply lookup_delete_Some in H1 as [_ H1].
        apply lookup_delete_Some in H2 as [_ H2]. by apply (Hinj q1 q2 e').
    + split; [|lia]. split.
      * intros q e'. intros H. apply lookup_delete_Some in H as [_ H]. by apply Hlt in H.
      * intros q1 q2 e' H1 H2. apply lookup_delete_Some in H1 as [_ H1].
        apply lookup_delete_Some in H2 as [_ H2]. by apply (Hinj q1 q2 e').
  - run_registry. by split.
Qed.

Lemma run_ops_ok (ops : list op) :
  forall r, registry_ok r ->
            registry_ok (run_ops ops r) /\ ev_next r <= ev_next (run_ops ops r).
Proof.
  induction ops as [|o ops IH]; intros r Hok; simpl; [by split|].
  destruct (run_op_ok o r Hok) as [Hok1 Hle1].
  destruct (IH _ Hok1) as [Hok2 Hle2]. split; [done|lia].
Qed.

Lemma empty_registry_ok : registry_ok empty_registry.
Proof. split; intros p; intros; simpl in *; by rewrite lookup_empty in *. Qed.

(** A call about another plan leaves a pending plan as it is. *)
Lemma run_op_pending (o : op) (p : string) (e : nat) (r : registry) :
  registry_ok r ->
  waiter p r = Some e ->
  op_plan o <> p ->
  waiter p (run_op o r) = Some e /\
  ev_flags (run_op o r) !! e = ev_flags r !! e /\
  _plan_approval_results (run_op o r) !! p = _plan_approval_results r !! p.
Proof.
  unfold waiter. intros [Hlt Hinj] Hp Hne. destruct o as [q|q b|q]; simpl in Hne.
  - run_registry. rewrite lookup_insert_ne by done. split; [done|]. split; [|done].
    apply Hlt in Hp. by rewrite lookup_insert_ne by lia.
  - run_registry. destruct (_plan_approval_events r !! q) as [e'|] eqn:Hq; simpl.
    + rewrite lookup_delete_ne by done. split; [done|].
      rewrite !lookup_insert_ne; [done|done|].
      intros ->. by apply Hne, (Hinj q p e).
    + by rewrite lookup_delete_ne by done.
  - run_registry. by rewrite lookup_delete_ne by done.
Qed.

Lemma run_ops_pending (ops : list op) (p : string) (e : nat) :
  forall r,
    registry_ok r ->
    waiter p r = Some e ->
    apart p ops = true ->
    registry_ok (run_ops ops r) /\
    waiter p (run_ops ops r) = Some e /\
    ev_flags (run_ops ops r) !! e = ev_flags r !! e /\
    _plan_approval_results (run_ops ops r) !! p = _plan_approval_results r !! p.
Proof.
  induction ops as [|o ops IH]; intros r Hok Hp Hapart; simpl; [done|].
  simpl in Hapart. apply andb_prop in Hapart as [Ho Hapart].
  apply negb_true_iff, String.eqb_neq in Ho.
  destruct (run_op_pending o p e r Hok Hp Ho) as (H1 & H2 & H3).
  destruct (run_op_ok o r Hok) as [Hok1 _].
  destruct (IH _ Hok1 H1 Hapart) as (H4 & H5 & H6 & H7).
  split; [done|]. split; [done|]. split; congruence.
Qed.

(** A call about another plan leaves a resolved plan as it is. *)
Lemma run_op_resolved (o : op) (p : string) (e : nat) (r : registry) :
  e < ev_next r ->
  is_set e r = true ->
  waiter p r = None ->
  op_plan o <> p ->
  e < ev_next (run_op o r) /\
  is_set e (run_op o r) = true /\
  waiter p (run_op o r) = None /\
  _plan_approval_results (run_op o r) !! p = _plan_approval_results r !! p.
Proof.
  unfold is_set, waiter. intros Hlt Hset Hp Hne.
  destruct o as [q|q b|q]; simpl in Hne.
  - run_registry. rewrite !lookup_insert_ne by (done || lia). split; [lia|done].
  - run_registry. destruct (_plan_approval_events r !! q) as [e'|] eqn:Hq; simpl.
    + rewrite lookup_delete_ne by done.
      rewrite (lookup_insert_ne (_plan_approval_results r)) by done.
      split; [done|].
      split; [|done]. destruct (decide (e' = e)) as [->|Hee].
      * by rewrite lookup_insert_eq.
      * by rewrite lookup_insert_ne.
    + by rewrite lookup_delete_ne by done.
  - run_registry. by rewrite lookup_delete_ne by done.
Qed.

Lemma run_ops_resolved (ops : list op) (p : string) (e : nat) :
  forall r,
    e < ev_next r ->
    is_set e r = true ->
    waiter p r = None ->
    apart p ops = true ->
    is_set e (run_ops ops r) = true /\
    waiter p (run_ops ops r) = None /\
    _plan_approval_results (run_ops ops r) !! p = _plan_approval_results r !! p.
Proof.
  induction ops as [|o ops IH]; intros r Hlt Hset Hp Hapart; simpl; [done|].
  simpl in Hapart. apply andb_prop in Hapart as [Ho Hapart].
  apply negb_true_iff, String.eqb_neq in Ho.
  destruct (run_op_resolved o p e r Hlt Hset Hp Ho) as (H1 & H2 & H3 & H4).
  destruct (IH _ H1 H2 H3 Hapart) as (H5 & H6 & H7).
  split; [done|]. split; [done|]. congruence.
Qed.

(** The approval of [p] from its registration to the answer. *)
Lemma approval_course (history before after : list op) (p : string) (b : bool) :
  apart p before = true ->
  apart p after = true ->
  exists e r1,
    register_plan_approval p (run_ops history empty_registry) = (Ok e, r1) /\
    is_set e (run_ops before r1) = false /\
    waiter p (run_ops before r1) = Some e /\
    is_set e (run_ops (before ++ Resolve p b :: after) r1) = true /\
    waiter p (run_ops (before ++ Resolve p b :: after) r1) = None /\
    _plan_approval_results (run_ops (before ++ Resolve p b :: after) r1) !! p = Some b.
Proof.
  intros Hbefore Hafter.
  destruct (run_ops_ok history empty_registry empty_registry_ok) as [Hok0 _].
  set (r0 := run_ops history empty_registry) in *.
  pose proof (run_op_ok (Register p) r0 Hok0) as [Hok1 _].
  exists (ev_next r0), (run_op (Register p) r0). split; [done|].
  set (r1 := run_op (Register p) r0) in *.
  assert (Hw1 : waiter p r1 = Some (ev_next r0))
    by (unfold waiter; subst r1; run_registry; by rewrite lookup_insert_eq).
  assert (Hf1 : ev_flags r1 !! ev_next r0 = Some false)
    by (subst r1; run_registry; by rewrite lookup_insert_eq).
  destruct (run_ops_pending before p (ev_next r0) r1 Hok1 Hw1 Hbefore)
    as (Hok2 & Hw2 & Hf2 & Hr2).
  set (r2 := run_ops before r1) in *.
  split; [unfold is_set; by rewrite Hf2, Hf1|]. split; [done|].
  rewrite run_ops_app. fold r2. cbn [run_ops fold_left].
  fold (run_ops after (run_op (Resolve p b) r2)).
  assert (Hres : resolve_plan_approval p b r2
                 = (Ok true,
                    mkRegistry (delete p (_plan_approval_events r2))
                               (<[p := b]> (_plan_approval_results r2))
                               (<[ev_next r0 := true]> (ev_flags r2)) (ev_next r2)))
    by (by apply ApprovalGate.resolve_present).
  change (run_op (Resolve p b) r2) with (snd (resolve_plan_approval p b r2)).
  rewrite Hres. cbn [snd].
  set (r3 := mkRegistry _ _ _ _).
  destruct (run_ops_resolved after p (ev_next r0) r3) as (H1 & H2 & H3).
  - subst r3. simpl. destruct Hok2 as [Hlt _]. by apply (Hlt p).
  - subst r3. unfold is_set. simpl. by rewrite lookup_insert_eq.
  - subst r3. unfold waiter. simpl. by rewrite lookup_delete_eq.
  - done.
  - split; [done|]. split; [done|]. rewrite H3. subst r3. simpl.
    by rewrite lookup_insert_eq.
Qed.

(** X20.  Calls about other plans do not disturb the approval of a plan.
    In a registry reached by any history of calls, after
    [register_plan_approval p] returned the event [e]: as long as the
    other tasks make calls about other plan ids only, [e] is not set and
    [p] stays pending on [e]; once [resolve_plan_approval p b] is called,
    and whatever calls about other plan ids follow, [e] is set and
    [get_plan_approval_result p] returns [b]. *)
Theorem approval_undisturbed_by_other_plans (history before after : list op)
    (p : string) (b : bool) :
  apart p before = true ->
  apart p after = true ->
  exists e r1,
    register_plan_approval p (run_ops history empty_registry) = (Ok e, r1) /\
    is_set e (run_ops before r1) = false /\
    waiter p (run_ops before r1) = Some e /\
    is_set e (run_ops (before ++ Resolve p b :: after) r1) = true /\
    fst (get_plan_approval_result p (run_ops (before ++ Resolve p b :: after) r1))
    = Ok b.
Proof.
  intros Hbefore Hafter.
  destruct (approval_course history before after p b Hbefore Hafter)
    as (e & r1 & Hreg & H1 & H2 & H3 & _ & H5).
  exists e, r1. split; [done|]. split; [done|]. split; [done|]. split; [done|].
  unfold get_plan_approval_result. simpl. by rewrite H5.
Qed.

Lemma approval_undisturbed_by_other_plans_witness :
  exists e r1,
    register_plan_approval "p1"
      (run_ops [Register "p0"; Resolve "p0" true] empty_registry) = (Ok e, r1) /\
    is_set e (run_ops [Register "p2"; Resolve "p2" true] r1) = false /\
    waiter "p1" (run_ops [Register "p2"; Resolve "p2" true] r1) = Some e /\
    is_set e (run_ops ([Register "p2"; Resolve "p2" true]
                       ++ Resolve "p1" false :: [Consume "p2"]) r1) = true /\
    fst (get_plan_approval_result "p1"
           (run_ops ([Register "p2"; Resolve "p2" true]
                     ++ Resolve "p1" false :: [Consume "p2"]) r1))
    = Ok false.
Proof.
  apply (approval_undisturbed_by_other_plans
           [Register "p0"; Resolve "p0" true] [Register "p2"; Resolve "p2" true]
           [Consume "p2"] "p1" false); reflexivity.
Defined.

(** X21.  With approval required, the run does what the answer says.
    The request is sent and the plan registered; as long as the other
    tasks make calls about other plan ids only, the run waits and emits
    nothing.  Once [resolve_plan_approval] is called for the plan, and
    whatever calls about other plans follow before the run goes on: on a
    rejection the run emits the rejection text and [done] and nothing
    else, so no step is started and no model call is made; on an
    approval it emits exactly what [_stream_plan_execution] emits.  In
    both cases nothing about the plan is left in the registry. *)
Theorem gate_follows_the_answer (settings : Settings)
    (sub_agent : nat -> list step -> list (string * string) -> list raw_event)
    (structured_llm : replan_prompt -> result ReplanDecision)
    (fuel : nat) (plan_data : Plan) (history before after : list op) (b : bool)
    (rs : run_state) (sent : list Plan) :
  plan_require_approval settings = true ->
  apart (plan_id plan_data) before = true ->
  apart (plan_id plan_data) after = true ->
  let g := mkGate (run_ops history empty_registry) rs sent in
  enter_plan settings sub_agent structured_llm fuel (Some plan_data) before g = None /\
  exists r3,
    waiter (plan_id plan_data) r3 = None /\
    _plan_approval_results r3 !! plan_id plan_data = None /\
    enter_plan settings sub_agent structured_llm fuel (Some plan_data)
      (before ++ Resolve (plan_id plan_data) b :: after) g
    = if b then
        execute settings sub_agent structured_llm fuel plan_data
          (mkGate r3 rs (sent ++ [plan_data]))
      else
        Some (Ok None,
              mkGate r3
                (mkRun (trace rs ++ [Token rejection_text; Done]) (llm_calls rs))
                (sent ++ [plan_data])).
Proof.
  intros Hreq Hbefore Hafter g.
  destruct (approval_course history before after (plan_id plan_data) b Hbefore Hafter)
    as (e & r1 & Hreg & H1 & _ & H3 & H4 & H5).
  unfold enter_plan. rewrite Hreq. subst g. cbn [reg run requests].
  rewrite Hreg, H1, H3. split; [done|].
  unfold get_plan_approval_result. rewrite H5. cbn [default].
  set (r2 := run_ops (before ++ Resolve (plan_id plan_data) b :: after) r1) in *.
  exists (mkRegistry (_plan_approval_events r2)
            (delete (plan_id plan_data) (_plan_approval_results r2))
            (ev_flags r2) (ev_next r2)).
  split; [exact H4|]. split; [simpl; by rewrite lookup_delete_eq|].
  destruct b; cbn [id]; [done|].
  unfold bind, emit, modify. simpl. by rewrite <- app_assoc.
Qed.

Lemma gate_follows_the_answer_witness :
  enter_plan (mkSettings 8 true true) demo_agent PlanTrace.always_continue 8
    (Some (mkPlan "p1" "demo" three_steps)) [Register "p2"]
    (mkGate (run_ops [Register "p0"] empty_registry) empty_run []) = None /\
  exists r3,
    waiter "p1" r3 = None /\
    _plan_approval_results r3 !! "p1" = None /\
    enter_plan (mkSettings 8 true true) demo_agent PlanTrace.always_continue 8
      (Some (mkPlan "p1" "demo" three_steps))
      ([Register "p2"] ++ Resolve "p1" false :: [Resolve "p2" true])
      (mkGate (run_ops [Register "p0"] empty_registry) empty_run [])
    = Some (Ok None,
            mkGate r3 (mkRun ([] ++ [Token rejection_text; Done]) [])
              ([] ++ [mkPlan "p1" "demo" three_steps])).
Proof.
  apply (gate_follows_the_answer (mkSettings 8 true true) demo_agent PlanTrace.always_continue 8
           (mkPlan "p1" "demo" three_steps) [Register "p0"] [Register "p2"]
           [Resolve "p2" true] false empty_run []); reflexivity.
Defined.

End ApprovalIsolation.

(** ** The executor routes *)

Module ExecutorRoutes.
Import PyVal GraphBuilder ExecutorRouting.

Lemma route_executor_labels (no_step : string) (nodes_cfg state : pyval) (label : string) :
  route_executor no_step nodes_cfg state = Ok label ->
  label = no_step \/ label = "executor_pre".
Proof.
  unfold route_executor, and_then.
  repeat match goal with
         | |- context [match ?x with _ => _ end] => destruct x
         end; intros [= <-]; auto; discriminate.
Qed.

(** X22.  The executor routers of [build_graph] return only labels their
    conditional edge knows: in every graph [build_graph] assembles, and
    for every configuration of the nodes and every state, a label
    returned by [_route_executor_no_replanner] or
    [_route_executor_minimal] is a key of the path map the router was
    added with, and the target it maps to is a node of the graph or
    [END]. *)
Theorem executor_routes_are_mapped (p a r s : bool) (b : branch)
    (f : pyval -> pyval -> result string) (nodes_cfg state : pyval) (label : string) :
  In b (sg_branches (assemble p a r s)) ->
  closure (br_path b) = Some f ->
  f nodes_cfg state = Ok label ->
  exists target,
    In (label, target) (br_path_map b) /\ In target (declared (assemble p a r s)).
Proof.
  intros Hb Hf Hlabel.
  destruct p, a, r, s; simpl in Hb;
    repeat (destruct Hb as [<-|Hb]; [simpl in Hf; try discriminate|]);
    try (by destruct Hb);
    injection Hf as <-; apply route_executor_labels in Hlabel as [->| ->];
    eexists; (split; [simpl; eauto|simpl; eauto 10]).
Qed.

Lemma executor_routes_are_mapped_witness :
  exists target,
    In ("executor_pre", target)
       (br_path_map (mkBranch "executor" _route_executor_minimal
                       [("executor_pre", "executor_pre"); (END, END)])) /\
    In target (declared (assemble true false false false)).
Proof.
  apply (executor_routes_are_mapped true false false false
           (mkBranch "executor" _route_executor_minimal
              [("executor_pre", "executor_pre"); (END, END)])
           (route_executor END) (PDict []) sample_state "executor_pre").
  - simpl. right. left. reflexivity.
  - reflexivity.
  - reflexivity.
Defined.

(** X23.  When an executor router sends the run to [executor_pre], the
    node finds the step: on the state the router saw,
    [executor_pre_node] does not return the empty update; it returns one
    plan-updated event with status running, unless looking up the step
    or its id or title raises [KeyError] or [IndexError]. *)
Theorem routed_step_is_found (r : router) (f : pyval -> pyval -> result string)
    (nodes_cfg state : pyval) :
  closure r = Some f ->
  f nodes_cfg state = Ok "executor_pre" ->
  (exists plan_id step_id,
     executor_pre_node state = Ok [mkUpdated plan_id step_id "running"]) \/
  executor_pre_node state = Raise (Exception "KeyError") \/
  executor_pre_node state = Raise (Exception "IndexError").
Proof.
  intros Hf Hroute.
  assert (Hr : exists no_step, no_step <> "executor_pre" /\
                 route_executor no_step nodes_cfg state = Ok "executor_pre").
  { destruct r; simpl in Hf; try discriminate; injection Hf as <-;
      eexists; (split; [|exact Hroute]); discriminate. }
  clear Hf Hroute. destruct Hr as (no_step & Hne & Hroute).
  revert Hroute. unfold route_executor, executor_pre_node, and_then.
  destruct (py_get state "plan_data" PNone) as [plan_data|]; [|done].
  destruct (truthy plan_data); simpl; [|intros [= ->]; done].
  destruct (py_get state "current_step_index" (PInt 0)) as [step_index|]; [|done].
  destruct plan_data as [| | | | |plan_items]; try done.
  assert (Hget : forall k d, py_get (PDict plan_items) k d
                             = Ok (default d (assoc k plan_items))) by done.
  rewrite !Hget. cbv beta iota.
  set (steps := default (PList []) (assoc "steps" plan_items)). clearbody steps.
  destruct (py_len steps) as [total|] eqn:Hlen; [|done].
  destruct (py_get nodes_cfg "executor" (PDict [])) as [executor_cfg|]; [|done].
  destruct (py_get executor_cfg "max_steps" (PInt 8)) as [max_steps|]; [|done].
  destruct (as_int step_index) as [i|]; [|done].
  destruct (total <=? i)%Z; [intros [= ->]; done|].
  intros _.
  destruct steps as [| | |s|l|items]; try discriminate; simpl.
  - destruct (if (i <? 0)%Z then _ else _) as [c|]; [|by right; right].
    left. by eexists; eexists.
  - destruct (if (i <? 0)%Z then _ else _) as [step|]; [|by right; right].
    unfold py_item.
    destruct step as [| | | | |fields];
      try (left; by eexists; eexists).
    destruct (assoc "id" fields); [|by right; left].
    destruct (assoc "title" fields); [|by right; left].
    left. by eexists; eexists.
  - by right; left.
Qed.

Lemma routed_step_is_found_witness :
  (exists plan_id step_id,
     executor_pre_node sample_state = Ok [mkUpdated plan_id step_id "running"]) \/
  executor_pre_node sample_state = Raise (Exception "KeyError") \/
  executor_pre_node sample_state = Raise (Exception "IndexError").
Proof.
  apply (routed_step_is_found _route_executor_no_replanner
           (route_executor "summarizer") (PDict []) sample_state); reflexivity.
Defined.

End ExecutorRoutes.

(** ** Failed builds and invalidation *)

Module GraphCacheEdges.
Import PyVal GraphBuilder RoutingGraph GraphCache.

Lemma py_get_error (d : pyval) (key : string) (dflt : pyval) (e : exn) :
  py_get d key dflt = Raise e -> e = Exception "AttributeError".
Proof. destruct d; simpl; by intros [= <-]. Qed.

Lemma node_enabled_error (nodes_cfg : pyval) (name : string) (dflt : bool) (e : exn) :
  node_enabled nodes_cfg name dflt = Raise e -> e = Exception "AttributeError".
Proof.
  unfold node_enabled.
  destruct (py_get nodes_cfg name (PDict [])) as [sub|e0] eqn:Hsub.
  - apply py_get_error.
  - intros [= <-]. by apply py_get_error in Hsub.
Qed.

Lemma toggles_error (graph_config : pyval) (e : exn) :
  toggles graph_config = Raise e -> e = Exception "AttributeError".
Proof.
  unfold toggles.
  destruct (py_get graph_config "graph" (PDict [])) as [graph_cfg|e0] eqn:H0;
    [|intros [= <-]; by apply py_get_error in H0].
  destruct (py_get graph_cfg "nodes" (PDict [])) as [nodes_cfg|e0] eqn:H1;
    [|intros [= <-]; by apply py_get_error in H1].
  destruct (node_enabled nodes_cfg "planner" true) as [?|e1] eqn:H2;
    [|intros [= <-]; by apply node_enabled_error in H2].
  destruct (node_enabled nodes_cfg "approval" false) as [?|e2] eqn:H3;
    [|intros [= <-]; by apply node_enabled_error in H3].
  destruct (node_enabled nodes_cfg "replanner" true) as [?|e3] eqn:H4;
    [|intros [= <-]; by apply node_enabled_error in H4].
  destruct (node_enabled nodes_cfg "summarizer" true) as [?|e4] eqn:H5;
    [done|intros [= <-]; by apply node_enabled_error in H5].
Qed.

Lemma build_graph_fails (graph_config : pyval) (e : exn) (st : gb_state) :
  toggles graph_config = Raise e -> build_graph graph_config st = (Raise e, st).
Proof.
  unfold toggles, build_graph, bind, lift.
  destruct (py_get graph_config "graph" (PDict [])) as [graph_cfg|]; [|by intros [= <-]].
  destruct (py_get graph_cfg "nodes" (PDict [])) as [nodes_cfg|]; [|by intros [= <-]].
  destruct (node_enabled nodes_cfg "planner" true); [|by intros [= <-]].
  destruct (node_enabled nodes_cfg "approval" false); [|by intros [= <-]].
  destruct (node_enabled nodes_cfg "replanner" true); [|by intros [= <-]].
  destruct (node_enabled nodes_cfg "summarizer" true); [done|by intros [= <-]].
Qed.

(** X24.  A configuration [build_graph] cannot read leaves no trace in
    the cache.  When reading the four toggles fails (a [graph] or
    [nodes] section or the entry of a node that is present but not a
    dict, such as an empty section), [get_or_build_graph] raises
    [AttributeError], stores nothing in the graph cache and compiles
    nothing, so a later call with a readable configuration is served as
    if the failed call had not been made. *)
Theorem failed_build_caches_nothing (sha256_hexdigest : string -> string) (now : Z)
    (graph_config : pyval) (st : gb_state) (e : exn) :
  toggles graph_config = Raise e ->
  _graph_cache st !! _config_fingerprint sha256_hexdigest graph_config = None ->
  exists st',
    get_or_build_graph sha256_hexdigest now graph_config st
    = (Raise (Exception "AttributeError"), st') /\
    _graph_cache st' = _graph_cache st /\
    next_obj st' = next_obj st.
Proof.
  intros Hfail Hnone. pose proof (toggles_error _ _ Hfail) as ->.
  destruct (cleanup_leaves_cache _CHECKPOINT_MAX_PER_THREAD now st)
    as (n & st0 & Hclean & Hcache & Hnext).
  unfold get_or_build_graph, cleanup_old_checkpoints, bind. rewrite Hclean.
  unfold get_state. cbn [fst snd]. rewrite Hcache, Hnone.
  rewrite (build_graph_fails _ _ st0 Hfail). by exists st0.
Qed.

Lemma failed_build_caches_nothing_witness :
  exists st',
    get_or_build_graph Sha256.sha256_hexdigest 1000 (PDict [("graph", PNone)])
      initial_state
    = (Raise (Exception "AttributeError"), st') /\
    _graph_cache st' = _graph_cache initial_state /\
    next_obj st' = next_obj initial_state.
Proof.
  apply (failed_build_caches_nothing Sha256.sha256_hexdigest 1000
           (PDict [("graph", PNone)]) initial_state (Exception "AttributeError")).
  - reflexivity.
  - reflexivity.
Defined.

(** X25.  After [invalidate_graph_cache] the next request is built
    anew.  For a configuration whose toggles can be read,
    [get_or_build_graph] then compiles the graph of the toggles into a
    new object, which is no object the cache held before the
    invalidation, and the cache holds this one entry. *)
Theorem invalidate_forces_rebuild (sha256_hexdigest : string -> string) (now : Z)
    (graph_config : pyval) (st : gb_state) (p a r s : bool) :
  cache_wf st ->
  toggles graph_config = Ok (p, a, r, s) ->
  exists st',
    get_or_build_graph sha256_hexdigest now graph_config
      (snd (invalidate_graph_cache st))
    = (Ok (mkCompiled (next_obj st) (assemble p a r s)), st') /\
    _graph_cache st'
    = <[_config_fingerprint sha256_hexdigest graph_config :=
          mkCompiled (next_obj st) (assemble p a r s)]> (∅ : gmap string compiled) /\
    forall fp c, _graph_cache st !! fp = Some c -> obj_id c <> next_obj st.
Proof.
  intros [Hlt _] Htoggles.
  destruct (cleanup_leaves_cache _CHECKPOINT_MAX_PER_THREAD now
              (snd (invalidate_graph_cache st)))
    as (n & st0 & Hclean & Hcache & Hnext).
  simpl in Hcache, Hnext.
  unfold get_or_build_graph, cleanup_old_checkpoints, bind. rewrite Hclean.
  unfold get_state. cbn [fst snd]. rewrite Hcache, lookup_empty.
  rewrite (build_graph_toggles _ _ _ _ _ st0 Htoggles).
  unfold cache_store, modify, ret. cbn [fst snd _graph_cache].
  rewrite lookup_insert_eq, Hcache, Hnext.
  eexists. split; [done|]. split; [done|].
  intros fp c Hc. apply Hlt in Hc. lia.
Qed.

Lemma invalidate_forces_rebuild_witness :
  exists st',
    get_or_build_graph Sha256.sha256_hexdigest 1000 (config_of true false true true)
      (snd (invalidate_graph_cache initial_state))
    = (Ok (mkCompiled 0 (assemble true false true true)), st') /\
    _graph_cache st'
    = <[_config_fingerprint Sha256.sha256_hexdigest (config_of true false true true) :=
          mkCompiled 0 (assemble true false true true)]> (∅ : gmap string compiled) /\
    forall fp c, _graph_cache initial_state !! fp = Some c -> obj_id c <> 0.
Proof.
  apply (invalidate_forces_rebuild Sha256.sha256_hexdigest 1000
           (config_of true false true true) initial_state true false true true).
  - apply cache_wf_initial.
  - reflexivity.
Defined.

End GraphCacheEdges.

(** ** A streaming run from its first event to its last *)

Module StreamRun.
Import PlanApproval Agent PlanTrace ApprovalFlow SimpleAgent PlanEvents.

Lemma phase1_inner (get_latest_plan : nat -> option Plan) (evs : list raw_event) :
  forall pos tracking,
    forallb inner (fst (phase1 get_latest_plan pos evs tracking)) = true.
Proof.
  induction evs as [|ev evs IH]; intros pos tracking; simpl; [done|].
  destruct ev as [content|run_id|run_id|name|name|]; simpl.
  - destruct (String.eqb content ""); [apply IH|].
    specialize (IH (S pos) tracking).
    by destruct (phase1 get_latest_plan (S pos) evs tracking).
  - specialize (IH (S pos) (run_id :: tracking)).
    by destruct (phase1 get_latest_plan (S pos) evs (run_id :: tracking)).
  - destruct (existsb _ tracking); [|apply IH].
    specialize (IH (S pos) (List.filter (fun x => negb (String.eqb run_id x)) tracking)).
    by destruct (phase1 get_latest_plan (S pos) evs _).
  - specialize (IH (S pos) tracking).
    by destruct (phase1 get_latest_plan (S pos) evs tracking).
  - specialize (IH (S pos) tracking).
    destruct (String.eqb name "plan_create"); [destruct (get_latest_plan pos)|];
      try done; by destruct (phase1 get_latest_plan (S pos) evs tracking).
  - apply IH.
Qed.

Lemma execute_done (settings : Settings)
    (sub_agent : nat -> list step -> list (string * string) -> list raw_event)
    (structured_llm : replan_prompt -> result ReplanDecision)
    (fuel : nat) (plan_data : Plan) (g : gate_state) :
  (Z.to_nat (plan_max_steps settings) <= fuel)%nat ->
  exists out g' evs,
    execute settings sub_agent structured_llm fuel plan_data g = Some (out, g') /\
    trace (run g') = trace (run g) ++ evs ++ (if is_ok out then [Done] else []) /\
    ~ In Done evs.
Proof.
  intros Hfuel.
  destruct (PlanRunner.plan_loop_terminates settings sub_agent structured_llm
              (plan_id plan_data) (plan_title plan_data) fuel
              (mkLoop (plan_steps plan_data) [] 0) (run g))
    as (out & rs1 & Hloop & _); [simpl; lia|].
  destruct (plan_loop_shape _ _ _ _ _ _ _ _ _ _ Hloop) as (evs & Hevs & Hshape).
  unfold execute, _stream_plan_execution. rewrite Hloop.
  destruct out as [ls|e]; eexists; eexists; exists evs;
    (split; [done|]); (split; [|by apply shape_done in Hshape]); simpl.
  - by rewrite Hevs, <- app_assoc.
  - by rewrite Hevs, app_nil_r.
Qed.

Lemma phase1_prefix (get_latest_plan : nat -> option Plan) (evs : list raw_event) :
  forall pos tracking resp,
    exists n,
      (n <= length evs)%nat /\
      fst (phase1 get_latest_plan pos evs tracking)
      = fst (handle_events (take n evs) tracking resp) /\
      match snd (phase1 get_latest_plan pos evs tracking) with
      | None => n = length evs
      | Some plan_data =>
          exists k, n = S k /\ evs !! k = Some (on_tool_end "plan_create") /\
                    get_latest_plan (pos + k) = Some plan_data
      end.
Proof.
  induction evs as [|ev evs IH]; intros pos tracking resp.
  - exists 0. by split.
  - cbn [phase1]. destruct ev as [content|run_id|run_id|name|name|].
    + destruct (String.eqb content "") eqn:Hc.
      * destruct (IH (S pos) tracking resp) as (n & Hn & Hout & Hplan).
        exists (S n). split; [simpl; lia|]. cbn [take handle_events]. rewrite Hc.
        split; [done|]. destruct (snd _); [|simpl; by rewrite Hplan].
        destruct Hplan as (k & -> & Hk & Hg). exists (S k).
        split; [done|]. split; [done|]. by rewrite Nat.add_succ_r.
      * destruct (IH (S pos) tracking (resp +:+ content)) as (n & Hn & Hout & Hplan).
        exists (S n). split; [simpl; lia|]. cbn [take handle_events]. rewrite Hc.
        destruct (phase1 get_latest_plan (S pos) evs tracking) as [out plan].
        destruct (handle_events (take n evs) tracking (resp +:+ content)).
        simpl in *. split; [by f_equal|]. destruct plan; [|simpl; by rewrite Hplan].
        destruct Hplan as (k & -> & Hk & Hg). exists (S k).
        split; [done|]. split; [done|]. by rewrite Nat.add_succ_r.
    + destruct (IH (S pos) (run_id :: tracking) resp) as (n & Hn & Hout & Hplan).
      exists (S n). split; [simpl; lia|]. cbn [take handle_events].
      destruct (phase1 get_latest_plan (S pos) evs (run_id :: tracking)) as [out plan].
      destruct (handle_events (take n evs) (run_id :: tracking) resp).
      simpl in *. split; [by f_equal|]. destruct plan; [|simpl; by rewrite Hplan].
      destruct Hplan as (k & -> & Hk & Hg). exists (S k).
      split; [done|]. split; [done|]. by rewrite Nat.add_succ_r.
    + destruct (existsb (String.eqb run_id) tracking) eqn:Hex.
      * destruct (IH (S pos) (List.filter (fun x => negb (String.eqb run_id x)) tracking)
                    resp) as (n & Hn & Hout & Hplan).
        exists (S n). split; [simpl; lia|]. cbn [take handle_events]. rewrite Hex.
        destruct (phase1 get_latest_plan (S pos) evs _) as [out plan].
        destruct (handle_events (take n evs) _ resp).
        simpl in *. split; [by f_equal|]. destruct plan; [|simpl; by rewrite Hplan].
        destruct Hplan as (k & -> & Hk & Hg). exists (S k).
        split; [done|]. split; [done|]. by rewrite Nat.add_succ_r.
      * destruct (IH (S pos) tracking resp) as (n & Hn & Hout & Hplan).
        exists (S n). split; [simpl; lia|]. cbn [take handle_events]. rewrite Hex.
        split; [done|]. destruct (snd _); [|simpl; by rewrite Hplan].
        destruct Hplan as (k & -> & Hk & Hg). exists (S k).
        split; [done|]. split; [done|]. by rewrite Nat.add_succ_r.
    + destruct (IH (S pos) tracking resp) as (n & Hn & Hout & Hplan).
      exists (S n). split; [simpl; lia|]. cbn [take handle_events].
      destruct (phase1 get_latest_plan (S pos) evs tracking) as [out plan].
      destruct (handle_events (take n evs) tracking resp).
      simpl in *. split; [by f_equal|]. destruct plan; [|simpl; by rewrite Hplan].
      destruct Hplan as (k & -> & Hk & Hg). exists (S k).
      split; [done|]. split; [done|]. by rewrite Nat.add_succ_r.
    + assert (Hgo : exists n,
                (n <= length (on_tool_end name :: evs))%nat /\
                fst (let (out, plan) := phase1 get_latest_plan (S pos) evs tracking in
                     (ToolEnd name :: out, plan))
                = fst (handle_events (take n (on_tool_end name :: evs)) tracking resp) /\
                match snd (let (out, plan) := phase1 get_latest_plan (S pos) evs tracking in
                           (ToolEnd name :: out, plan)) with
                | None => n = length (on_tool_end name :: evs)
                | Some plan_data =>
                    exists k, n = S k /\
                      (on_tool_end name :: evs) !! k = Some (on_tool_end "plan_create") /\
                      get_latest_plan (pos + k) = Some plan_data
                end).
      { destruct (IH (S pos) tracking resp) as (n & Hn & Hout & Hplan).
        exists (S n). split; [simpl; lia|]. cbn [take handle_events].
        destruct (phase1 get_latest_plan (S pos) evs tracking) as [out plan].
        destruct (handle_events (take n evs) tracking resp).
        simpl in *. split; [by f_equal|]. destruct plan; [|simpl; by rewrite Hplan].
        destruct Hplan as (k & -> & Hk & Hg). exists (S k).
        split; [done|]. split; [done|]. by rewrite Nat.add_succ_r. }
      destruct (String.eqb name "plan_create") eqn:Hname; [|exact Hgo].
      destruct (get_latest_plan pos) as [plan_data|] eqn:Hplan; [|exact Hgo].
      apply String.eqb_eq in Hname. subst name.
      exists 1. split; [simpl; lia|]. cbn [take handle_events fst snd].
      rewrite take_0. split; [done|]. exists 0.
      split; [done|]. split; [done|]. by rewrite Nat.add_0_r.
    + destruct (IH (S pos) tracking resp) as (n & Hn & Hout & Hplan).
      exists (S n). split; [simpl; lia|]. cbn [take handle_events].
      split; [done|]. destruct (snd _); [|simpl; by rewrite Hplan].
      destruct Hplan as (k & -> & Hk & Hg). exists (S k).
      split; [done|]. split; [done|]. by rewrite Nat.add_succ_r.
Qed.


(** X26.  A streaming run ends its events with exactly one [done].
    Whatever the phase 1 agent streams, whether or not a plan is
    detected, approved, rejected, revised or cut short: given passes for
    [plan_max_steps] steps, [_stream_simple_agent] either is still
    waiting for the approval of the plan (approval is required and the
    event is not set), or has ended, and then what it emitted is a
    sequence of events without [done], followed by [done] if and only if
    it returned rather than raised. *)
Theorem stream_ends_with_one_done (settings : Settings)
    (sub_agent : nat -> list step -> list (string * string) -> list raw_event)
    (structured_llm : replan_prompt -> result ReplanDecision)
    (fuel : nat) (get_latest_plan : nat -> option Plan)
    (agent_events : list raw_event) (during_wait : list op) (g : gate_state) :
  (Z.to_nat (plan_max_steps settings) <= fuel)%nat ->
  (plan_require_approval settings = true /\
   _stream_simple_agent settings sub_agent structured_llm fuel get_latest_plan
     agent_events during_wait g = None) \/
  exists out g' evs,
    _stream_simple_agent settings sub_agent structured_llm fuel get_latest_plan
      agent_events during_wait g = Some (out, g') /\
    trace (run g') = trace (run g) ++ evs ++ (if is_ok out then [Done] else []) /\
    ~ In Done evs.
Proof.
  intros Hfuel. unfold _stream_simple_agent.
  pose proof (phase1_inner get_latest_plan agent_events 0 []) as Hinner.
  destruct (phase1 get_latest_plan 0 agent_events []) as [yielded plan].
  simpl in Hinner. apply inner_not_done in Hinner.
  set (g1 := mkGate (reg g) (snd (emit_all yielded (run g))) (requests g)).
  assert (Hg1 : trace (run g1) = trace (run g) ++ yielded) by done.
  assert (Hexec : forall plan_data g2,
            trace (run g2) = trace (run g1) ->
            exists out g' evs,
              execute settings sub_agent structured_llm fuel plan_data g2
              = Some (out, g') /\
              trace (run g') = trace (run g) ++ evs
                               ++ (if is_ok out then [Done] else []) /\
              ~ In Done evs).
  { intros plan_data g2 Hg2.
    destruct (execute_done settings sub_agent structured_llm fuel plan_data g2 Hfuel)
      as (out & g' & evs & Hrun & Htrace & Hnot).
    exists out, g', (yielded ++ evs). split; [done|].
    split; [by rewrite Htrace, Hg2, Hg1, <- !app_assoc|].
    intros Hin. apply in_app_or in Hin as [?|?]; tauto. }
  unfold enter_plan. destruct plan as [plan_data|].
  2:{ right. eexists; eexists; exists yielded. split; [done|]. split; [|done].
      simpl. by rewrite <- app_assoc. }
  destruct (plan_require_approval settings) eqn:Hreq; [|right; by apply Hexec].
  destruct (register_plan_approval (plan_id plan_data) (reg g1)) as [[evt|e] r1] eqn:Hreg.
  2:{ right. eexists; eexists; exists yielded. split; [done|]. split; [|done].
      simpl. by rewrite app_nil_r. }
  destruct (is_set evt (run_ops during_wait r1)); [|by left].
  right. unfold get_plan_approval_result.
  destruct (default true _); [by apply Hexec|].
  eexists; eexists; exists (yielded ++ [Token rejection_text]). split; [done|].
  split.
  - unfold bind, emit, modify. simpl. by rewrite <- !app_assoc.
  - intros Hin. apply in_app_or in Hin as [?|[?|[]]]; [tauto|done].
Qed.

Lemma stream_ends_with_one_done_witness :
  (true = true /\
   _stream_simple_agent (mkSettings 8 true true) demo_agent finish_after_first 8
     (fun _ => Some (mkPlan "p1" "demo" three_steps)) planning_stream
     [Resolve "p1" true] (mkGate empty_registry empty_run []) = None) \/
  exists out g' evs,
    _stream_simple_agent (mkSettings 8 true true) demo_agent finish_after_first 8
      (fun _ => Some (mkPlan "p1" "demo" three_steps)) planning_stream
      [Resolve "p1" true] (mkGate empty_registry empty_run []) = Some (out, g') /\
    trace (run g') = trace empty_run ++ evs ++ (if is_ok out then [Done] else []) /\
    ~ In Done evs.
Proof.
  apply (stream_ends_with_one_done (mkSettings 8 true true) demo_agent
           finish_after_first 8 (fun _ => Some (mkPlan "p1" "demo" three_steps))
           planning_stream [Resolve "p1" true] (mkGate empty_registry empty_run [])).
  simpl. lia.
Defined.

End StreamRun.
